(** * CUDA-Performance-Lab: the memory bandwidth benchmark

    A shallow embedding of [source/memBenchmark.h] and the properties of
    its four profiling routines and of [memBenchmark].

    - Machine integers are [Z] with the wrap-around of [unsigned int]
      written out ([u32]).
    - [float] and [double] values are IEEE 754 binary32 and binary64 numbers,
      computed with the executable specification of the Standard Library
      ([SpecFloat], round to nearest even).
    - The process state is a [world]: a heap of host and device blocks, the
      table of CUDA events, the log of every library call in program order,
      and the record of the data moved by every copy.
    - Everything the program cannot decide by itself (whether an allocation
      or a CUDA call succeeds, clock readings, event timings, the contents
      of fresh memory, the build flags) comes from an [env]. *)

From Stdlib Require Import ZArith List String Bool Lia QArith SpecFloat.
From stdpp Require Import base list.

Open Scope Z_scope.

(** ** Machine integers *)

(** [unsigned int] is 32 bits wide. *)
Definition u32 (z : Z) : Z := z mod 2 ^ 32.

(** [sizeof(float)] *)
Definition sizeof_float : Z := 4.

(** [static const unsigned int MB_TO_TRANSFER = 16;] *)
Definition MB_TO_TRANSFER : Z := 16.

(** ** Floating point *)

Module Float.

(** Conversion of an integer to [float] and to [double]. *)
Definition b32_of_Z (z : Z) : spec_float := binary_normalize 24 128 z 0 false.
Definition b64_of_Z (z : Z) : spec_float := binary_normalize 53 1024 z 0 false.

(** Rounding of a value to the format ([prec], [emax]). *)
Definition round_to (prec emax : Z) (x : spec_float) : spec_float :=
  match x with
  | S754_finite s m e => binary_round prec emax s m e
  | _ => x
  end.

(** [(float)x] for a [double] x, and the promotion of a [float] to
    [double] (exact, the mantissa is re-aligned to 53 bits). *)
Definition b32_of_b64 : spec_float -> spec_float := round_to 24 128.
Definition b64_of_b32 : spec_float -> spec_float := round_to 53 1024.

(** The [double] literal [1e-k]: the binary64 number nearest to 10^-k,
    which is the correctly rounded quotient of 1 by 10^k. *)
Definition lit64 (k : Z) : spec_float :=
  SFdiv 53 1024 (b64_of_Z 1) (b64_of_Z (10 ^ k)).

(** [(float)1e-k] *)
Definition lit32 (k : Z) : spec_float := b32_of_b64 (lit64 k).

(** [x != y] on floating-point values: true as soon as one is a NaN. *)
Definition ne (x y : spec_float) : bool := negb (SFeqb x y).

Definition zero : spec_float := S754_zero false.

End Float.

(** The arithmetic the bandwidth formulas are written in. The source uses
    [float] and [double]; the exact instance reads the same formulas over
    the rationals, which is where their units and their algebra are
    compared. *)
Class Arith (F : Type) := {
  of_int : Z -> F;          (* an integer operand converted to [F] *)
  lit_e : Z -> F;           (* the literal [1e-k] at type [F] *)
  fadd : F -> F -> F;
  fmul : F -> F -> F;
  fdiv : F -> F -> F
}.

(** Types tagging the three instances. *)
Record binary32 := B32 { b32 : spec_float }.
Record binary64 := B64 { b64 : spec_float }.

#[export] Instance Arith_binary32 : Arith binary32 := {|
  of_int z := B32 (Float.b32_of_Z z);
  lit_e k := B32 (Float.lit32 k);
  fadd x y := B32 (SFadd 24 128 (b32 x) (b32 y));
  fmul x y := B32 (SFmul 24 128 (b32 x) (b32 y));
  fdiv x y := B32 (SFdiv 24 128 (b32 x) (b32 y))
|}.

#[export] Instance Arith_binary64 : Arith binary64 := {|
  of_int z := B64 (Float.b64_of_Z z);
  lit_e k := B64 (Float.lit64 k);
  fadd x y := B64 (SFadd 53 1024 (b64 x) (b64 y));
  fmul x y := B64 (SFmul 53 1024 (b64 x) (b64 y));
  fdiv x y := B64 (SFdiv 53 1024 (b64 x) (b64 y))
|}.

#[export] Instance Arith_exact : Arith Q := {|
  of_int z := inject_Z z;
  lit_e k := / inject_Z (10 ^ k);
  fadd := Qplus;
  fmul := Qmult;
  fdiv := Qdiv
|}.

(** ** The bandwidth formulas *)

(** [2.0f * iters * bytes * (float)1e-k / time], "2.0 for read and write":
    k = 9 with a time in seconds in [profileH2HCopies] (lines 57-58, 64),
    k = 6 with a time in milliseconds in [profileD2DCopies] (lines 141-142,
    153). *)
Definition band_round_trip {F} `{Arith F} (k iters bytes : Z) (time : F) : F :=
  fdiv (fmul (fmul (fmul (of_int 2) (of_int iters)) (of_int bytes)) (lit_e k)) time.

(** [bytes * 1e-6 / time], in [double], with a time in milliseconds:
    [profileCopies], lines 94 and 102. *)
Definition band_one_way {F} `{Arith F} (bytes : Z) (time : F) : F :=
  fdiv (fmul (of_int bytes) (lit_e 6)) time.

(** [(band1 + band2) / 2.0f], lines 66 and 154. *)
Definition band_mean {F} `{Arith F} (band1 band2 : F) : F :=
  fdiv (fadd band1 band2) (of_int 2).

(** The figure [profileH2HCopies] prints, from its two [float] times. *)
Definition h2h_reported (bytes : Z) (time1 time2 : spec_float) : spec_float :=
  b32 (band_mean (band_round_trip 9 100 bytes (B32 time1))
                 (band_round_trip 9 100 bytes (B32 time2))).

(** The figure [profileD2DCopies] prints, from its two [float] times. *)
Definition d2d_reported (bytes : Z) (time1 time2 : spec_float) : spec_float :=
  b32 (band_mean (band_round_trip 6 100 bytes (B32 time1))
                 (band_round_trip 6 100 bytes (B32 time2))).

(** The figure [profileCopies] prints for one direction: the [float] time
    is promoted to [double]. *)
Definition hd_reported (bytes : Z) (time : spec_float) : spec_float :=
  b64 (band_one_way bytes (B64 (Float.b64_of_b32 time))).

(** ** Memory, events and the log of calls *)

(** Where a block lives: [malloc], [cudaMallocHost] or [cudaMalloc]. *)
Inductive space := HostPageable | HostPinned | DeviceMem.

Definition is_host (s : space) : bool :=
  match s with DeviceMem => false | _ => true end.

Definition space_eqb (s t : space) : bool :=
  match s, t with
  | HostPageable, HostPageable | HostPinned, HostPinned
  | DeviceMem, DeviceMem => true
  | _, _ => false
  end.

(** A block of [blk_bytes] bytes holding [float]s; a released block stays
    in the heap with [blk_live = false], so that no address is reused. *)
Record block := mkBlock {
  blk_space : space;
  blk_bytes : Z;
  blk_live : bool;
  blk_data : Z -> spec_float
}.

(** A pointer is the index of its block in the heap; [None] is a pointer
    that points nowhere (NULL, or a variable no call has written). *)
Definition ptr := option nat.

(** A CUDA event: created, recorded at some step of the stream, completed,
    destroyed. *)
Inductive ev_state := EvCreated | EvRecorded (stamp : nat) | EvCompleted | EvDestroyed.

Definition cudaEvent_t := option nat.

Inductive cudaError_t :=
  | cudaSuccess
  | cudaErrorInvalidValue
  | cudaErrorMemoryAllocation
  | cudaErrorInvalidResourceHandle
  | cudaErrorNotReady
  | cudaErrorUnknown.

Definition is_success (r : cudaError_t) : bool :=
  match r with cudaSuccess => true | _ => false end.

Inductive cudaMemcpyKind :=
  | cudaMemcpyHostToHost
  | cudaMemcpyHostToDevice
  | cudaMemcpyDeviceToHost
  | cudaMemcpyDeviceToDevice.

(** The arguments of a [printf] after its format. *)
Inductive printf_arg :=
  | ArgStr (s : string)
  | ArgInt (z : Z)
  | ArgDouble (x : spec_float).

(** One entry of the log per call the program makes, in program order.
    Format strings are kept as they are spelled in the source. The entry
    of [cudaEventElapsedTime(&time, start, stop)] keeps what [time] holds
    when the call is over. *)
Inductive action :=
  | a_malloc (bytes : Z) (r : ptr)
  | a_free (p : ptr)
  | a_memcpy (dst src : ptr) (bytes : Z)
  | a_memset (dst : ptr) (c bytes : Z)
  | a_clock_now (t : Z)
  | a_printf (fmt : string) (args : list printf_arg)
  | a_fprintf_stderr (fmt : string) (r : cudaError_t)
  | a_nvtxRangeStart (msg : string)
  | a_nvtxRangeEnd (msg : string)
  | a_cudaMallocHost (bytes : Z) (p : ptr) (r : cudaError_t)
  | a_cudaMalloc (bytes : Z) (p : ptr) (r : cudaError_t)
  | a_cudaFree (p : ptr) (r : cudaError_t)
  | a_cudaFreeHost (p : ptr) (r : cudaError_t)
  | a_cudaMemcpy (dst src : ptr) (bytes : Z) (kind : cudaMemcpyKind) (r : cudaError_t)
  | a_cudaEventCreate (e : cudaEvent_t) (r : cudaError_t)
  | a_cudaEventRecord (e : cudaEvent_t) (r : cudaError_t)
  | a_cudaEventSynchronize (e : cudaEvent_t) (r : cudaError_t)
  | a_cudaEventElapsedTime (start stop : cudaEvent_t) (time : spec_float) (r : cudaError_t)
  | a_cudaEventDestroy (e : cudaEvent_t) (r : cudaError_t)
  | a_cudaGetDeviceProperties (device : Z) (r : cudaError_t)
  | a_cudaDeviceReset (r : cudaError_t).

(** The data one completed copy has moved: [tr_elems] floats, read from
    [tr_data] at the indices below [tr_elems]. *)
Record transfer := mkTransfer {
  tr_kind : cudaMemcpyKind;
  tr_elems : Z;
  tr_data : Z -> spec_float
}.

Record world := mkWorld {
  heap : list block;
  events : list ev_state;
  log : list action;
  wire : list transfer
}.

(** The process starts with nothing allocated and nothing logged. *)
Definition initial_world : world := mkWorld [] [] [] [].

(** What the program does not control. Oracles are indexed by the step at
    which they are consulted, which is the length of the log. *)
Record env := mkEnv {
  env_debug : bool;                   (* DEBUG or _DEBUG is defined *)
  env_ndebug : bool;                  (* NDEBUG is defined: [assert] is empty *)
  env_host_alloc_ok : nat -> bool;    (* malloc / cudaMallocHost finds memory *)
  env_cuda : nat -> cudaError_t;      (* what the runtime answers to a valid call *)
  env_garbage : nat -> Z -> spec_float;  (* contents of the fresh block b *)
  env_stack_float : nat -> spec_float;   (* an uninitialised [float] local *)
  env_now : nat -> Z;                 (* clock_::now(), in ticks *)
  env_ticks_per_second : Z;           (* clock_::period is 1 / this *)
  env_event_ms : nat -> spec_float;   (* what cudaEventElapsedTime measures *)
  env_device_name : string;
  env_stack_name : nat -> string      (* [prop.name] of a [prop] left unwritten *)
}.

(** ** The monad of the program: state, assertion failure, undefined behaviour *)

Inductive outcome (A : Type) :=
  | Ret (a : A) (w : world)     (* the call returns *)
  | Abort (w : world)           (* [assert] fails: the process is aborted *)
  | Crash (w : world).          (* a host access through a bad pointer *)
Arguments Ret {A} a w.
Arguments Abort {A} w.
Arguments Crash {A} w.

Definition M (A : Type) := world -> outcome A.

Definition ret {A} (a : A) : M A := fun w => Ret a w.

Definition bind {A B} (m : M A) (f : A -> M B) : M B := fun w =>
  match m w with
  | Ret a w' => f a w'
  | Abort w' => Abort w'
  | Crash w' => Crash w'
  end.

Notation "'let*' x ':=' m 'in' k" := (bind m (fun x => k))
  (at level 10, x name, m at level 100, k at level 200).
Notation "'let*' ' pat ':=' m 'in' k" :=
  (bind m (fun x => match x with pat => k end))
  (at level 10, pat pattern, m at level 100, k at level 200).
Notation "m >> k" := (bind m (fun _ => k))
  (at level 100, k at level 200, right associativity).

(** The world an outcome ends in. *)
Definition world_of {A} (o : outcome A) : world :=
  match o with Ret _ w | Abort w | Crash w => w end.

(** [for (int i = 0; i < n; i++) body] for a body that does not use [i]. *)
Fixpoint repeatM (n : nat) (body : M unit) : M unit :=
  match n with
  | O => ret tt
  | S n' => body >> repeatM n' body
  end.

Definition step (w : world) : nat := length (log w).

Definition emit (a : action) (w : world) : world :=
  mkWorld (heap w) (events w) (log w ++ [a]) (wire w).

Definition set_block (b : nat) (blk : block) (w : world) : world :=
  mkWorld (<[b := blk]> (heap w)) (events w) (log w) (wire w).

Definition add_block (blk : block) (w : world) : world :=
  mkWorld (heap w ++ [blk]) (events w) (log w) (wire w).

Definition set_events (evs : list ev_state) (w : world) : world :=
  mkWorld (heap w) evs (log w) (wire w).

Definition sent (t : transfer) (w : world) : world :=
  mkWorld (heap w) (events w) (log w) (wire w ++ [t]).

(** The block a pointer designates, when it is live, in one of the wanted
    spaces and at least [need] bytes long. *)
Definition block_at (w : world) (ok : space -> bool) (p : ptr) (need : Z)
  : option (nat * block) :=
  match p with
  | Some b =>
      match heap w !! b with
      | Some blk =>
          if blk_live blk && ok (blk_space blk) && (need <=? blk_bytes blk)
          then Some (b, blk) else None
      | None => None
      end
  | None => None
  end.

(** Copying [k] floats from [src] over [dst]. *)
Definition copy_data (k : Z) (src dst : Z -> spec_float) : Z -> spec_float :=
  fun i => if (0 <=? i) && (i <? k) then src i else dst i.

Definition with_data (blk : block) (f : Z -> spec_float) : block :=
  mkBlock (blk_space blk) (blk_bytes blk) (blk_live blk) f.

Definition released (blk : block) : block :=
  mkBlock (blk_space blk) (blk_bytes blk) false (blk_data blk).

(** The number of live blocks of a space: the allocations outstanding. *)
Definition outstanding (s : space) (w : world) : nat :=
  length (List.filter (fun blk => blk_live blk && space_eqb (blk_space blk) s) (heap w)).

(** The [float] whose four bytes are the 32-bit pattern [x]. *)
Definition b32_of_bits (x : Z) : spec_float :=
  let s := Z.testbit x 31 in
  let e := (x / 2 ^ 23) mod 2 ^ 8 in
  let m := x mod 2 ^ 23 in
  if e =? 0 then (if m =? 0 then S754_zero s else S754_finite s (Z.to_pos m) (-149))
  else if e =? 255 then (if m =? 0 then S754_infinity s else S754_nan)
  else S754_finite s (Z.to_pos (m + 2 ^ 23)) (e - 150).

(** The [float] read from memory that [memset] filled with the byte [c]. *)
Definition memset_float (c : Z) : spec_float :=
  b32_of_bits ((c mod 256) * 16843009).

(** The spaces [cudaMemcpy] accepts for its destination and its source. *)
Definition dst_space (kind : cudaMemcpyKind) : space -> bool :=
  match kind with
  | cudaMemcpyHostToHost | cudaMemcpyDeviceToHost => is_host
  | cudaMemcpyHostToDevice | cudaMemcpyDeviceToDevice => space_eqb DeviceMem
  end.

Definition src_space (kind : cudaMemcpyKind) : space -> bool :=
  match kind with
  | cudaMemcpyHostToHost | cudaMemcpyHostToDevice => is_host
  | cudaMemcpyDeviceToHost | cudaMemcpyDeviceToDevice => space_eqb DeviceMem
  end.

(** The event a handle designates, unless it was destroyed. *)
Definition event_at (w : world) (e : cudaEvent_t) : option (nat * ev_state) :=
  match e with
  | Some i =>
      match events w !! i with
      | Some EvDestroyed | None => None
      | Some st => Some (i, st)
      end
  | None => None
  end.

(** Waiting for an event recorded at [stamp] completes every event the
    stream recorded up to that point. *)
Definition complete_upto (stamp : nat) (st : ev_state) : ev_state :=
  match st with
  | EvRecorded s => if (s <=? stamp)%nat then EvCompleted else st
  | _ => st
  end.

Definition is_completed (st : ev_state) : bool :=
  match st with EvCompleted => true | _ => false end.

Definition is_recorded (st : ev_state) : bool :=
  match st with EvRecorded _ => true | _ => false end.

(** What [cudaDeviceReset] tears down: the device context with its events,
    its device memory and the host memory pinned for it. *)
Definition reset_block (blk : block) : block :=
  match blk_space blk with
  | HostPageable => blk
  | _ => released blk
  end.

Section Program.

Variable E : env.

(** *** The C library *)

Definition printf (fmt : string) (args : list printf_arg) : M unit := fun w =>
  Ret tt (emit (a_printf fmt args) w).

Definition malloc (bytes : Z) : M ptr := fun w =>
  if env_host_alloc_ok E (step w) then
    let b := length (heap w) in
    Ret (Some b)
        (emit (a_malloc bytes (Some b))
           (add_block (mkBlock HostPageable bytes true (env_garbage E b)) w))
  else Ret None (emit (a_malloc bytes None) w).

Definition free (p : ptr) : M unit := fun w =>
  let w1 := emit (a_free p) w in
  match p with
  | None => Ret tt w1
  | Some _ =>
      match block_at w (space_eqb HostPageable) p 0 with
      | Some (b, blk) => Ret tt (set_block b (released blk) w1)
      | None => Crash w1
      end
  end.

Definition memcpy (dst src : ptr) (bytes : Z) : M unit := fun w =>
  let w1 := emit (a_memcpy dst src bytes) w in
  match block_at w is_host dst bytes, block_at w is_host src bytes with
  | Some (d, bd), Some (s, bs) =>
      if Nat.eqb d s && (0 <? bytes) then Crash w1
      else
        let k := bytes / sizeof_float in
        Ret tt (sent (mkTransfer cudaMemcpyHostToHost k (blk_data bs))
                  (set_block d (with_data bd (copy_data k (blk_data bs) (blk_data bd))) w1))
  | _, _ => Crash w1
  end.

Definition memset (dst : ptr) (c bytes : Z) : M unit := fun w =>
  let w1 := emit (a_memset dst c bytes) w in
  match block_at w is_host dst bytes with
  | Some (d, bd) =>
      Ret tt (set_block d
                (with_data bd (copy_data (bytes / sizeof_float)
                                 (fun _ => memset_float c) (blk_data bd))) w1)
  | None => Crash w1
  end.

(** [p[i] = v] and [p[i]] on a host pointer. *)
Definition store (p : ptr) (i : Z) (v : spec_float) : M unit := fun w =>
  match block_at w is_host p (sizeof_float * (i + 1)) with
  | Some (b, blk) =>
      if 0 <=? i
      then Ret tt (set_block b (with_data blk (fun j => if j =? i then v else blk_data blk j)) w)
      else Crash w
  | None => Crash w
  end.

Definition load (p : ptr) (i : Z) : M spec_float := fun w =>
  match block_at w is_host p (sizeof_float * (i + 1)) with
  | Some (_, blk) => if 0 <=? i then Ret (blk_data blk i) w else Crash w
  | None => Crash w
  end.

(** *** class Timer (lines 29-41) *)

Definition clock_now : M Z := fun w =>
  let t := env_now E (step w) in Ret t (emit (a_clock_now t) w).

(** A [Timer] is its field [beg_]. *)
Definition Timer_new : M Z := clock_now.
Definition Timer_reset : M Z := clock_now.

(** [duration_cast<second_>(clock_::now() - beg_).count()]: the tick count
    converted to [double] and divided by the ticks per second. *)
Definition elapsed_seconds (beg_ now : Z) : spec_float :=
  SFdiv 53 1024 (Float.b64_of_Z (now - beg_))
    (Float.b64_of_Z (env_ticks_per_second E)).

Definition Timer_elapsed (beg_ : Z) : M spec_float :=
  let* now := clock_now in
  ret (elapsed_seconds beg_ now).

(** [float time;]: a local that nothing has written yet. *)
Definition uninitialised_float : M spec_float := fun w =>
  Ret (env_stack_float E (step w)) w.

(** *** NVTX ranges: the range id is the message. *)

Definition nvtxRangeStart (msg : string) : M string := fun w =>
  Ret msg (emit (a_nvtxRangeStart msg) w).

Definition nvtxRangeEnd (id : string) : M unit := fun w =>
  Ret tt (emit (a_nvtxRangeEnd id) w).

(** *** The CUDA runtime

    A call that fails changes nothing and leaves its output variable as
    it was. *)

Definition cudaMallocHost (bytes : Z) : M (cudaError_t * ptr) := fun w =>
  if env_host_alloc_ok E (step w) then
    let b := length (heap w) in
    Ret (cudaSuccess, Some b)
        (emit (a_cudaMallocHost bytes (Some b) cudaSuccess)
           (add_block (mkBlock HostPinned bytes true (env_garbage E b)) w))
  else Ret (cudaErrorMemoryAllocation, None)
           (emit (a_cudaMallocHost bytes None cudaErrorMemoryAllocation) w).

Definition cudaMalloc (bytes : Z) : M (cudaError_t * ptr) := fun w =>
  match env_cuda E (step w) with
  | cudaSuccess =>
      let b := length (heap w) in
      Ret (cudaSuccess, Some b)
          (emit (a_cudaMalloc bytes (Some b) cudaSuccess)
             (add_block (mkBlock DeviceMem bytes true (env_garbage E b)) w))
  | r => Ret (r, None) (emit (a_cudaMalloc bytes None r) w)
  end.

Definition cuda_release (sp : space) (p : ptr) (mk : cudaError_t -> action)
  : M cudaError_t := fun w =>
  match env_cuda E (step w) with
  | cudaSuccess =>
      match block_at w (space_eqb sp) p 0 with
      | Some (b, blk) => Ret cudaSuccess (set_block b (released blk) (emit (mk cudaSuccess) w))
      | None => Ret cudaErrorInvalidValue (emit (mk cudaErrorInvalidValue) w)
      end
  | r => Ret r (emit (mk r) w)
  end.

Definition cudaFree (p : ptr) : M cudaError_t :=
  cuda_release DeviceMem p (a_cudaFree p).

Definition cudaFreeHost (p : ptr) : M cudaError_t :=
  cuda_release HostPinned p (a_cudaFreeHost p).

Definition cudaMemcpy (dst src : ptr) (bytes : Z) (kind : cudaMemcpyKind)
  : M cudaError_t := fun w =>
  let done r := emit (a_cudaMemcpy dst src bytes kind r) w in
  match env_cuda E (step w) with
  | cudaSuccess =>
      match block_at w (dst_space kind) dst bytes, block_at w (src_space kind) src bytes with
      | Some (d, bd), Some (s, bs) =>
          let k := bytes / sizeof_float in
          Ret cudaSuccess
              (sent (mkTransfer kind k (blk_data bs))
                 (set_block d (with_data bd (copy_data k (blk_data bs) (blk_data bd)))
                    (done cudaSuccess)))
      | _, _ => Ret cudaErrorInvalidValue (done cudaErrorInvalidValue)
      end
  | r => Ret r (done r)
  end.

Definition cudaEventCreate : M (cudaError_t * cudaEvent_t) := fun w =>
  match env_cuda E (step w) with
  | cudaSuccess =>
      let i := length (events w) in
      Ret (cudaSuccess, Some i)
          (emit (a_cudaEventCreate (Some i) cudaSuccess)
             (set_events (events w ++ [EvCreated]) w))
  | r => Ret (r, None) (emit (a_cudaEventCreate None r) w)
  end.

(** [cudaEventRecord(e, 0)] *)
Definition cudaEventRecord (e : cudaEvent_t) : M cudaError_t := fun w =>
  let done r := emit (a_cudaEventRecord e r) w in
  match env_cuda E (step w) with
  | cudaSuccess =>
      match event_at w e with
      | Some (i, _) =>
          Ret cudaSuccess
              (set_events (<[i := EvRecorded (step w)]> (events w)) (done cudaSuccess))
      | None => Ret cudaErrorInvalidResourceHandle (done cudaErrorInvalidResourceHandle)
      end
  | r => Ret r (done r)
  end.

Definition cudaEventSynchronize (e : cudaEvent_t) : M cudaError_t := fun w =>
  let done r := emit (a_cudaEventSynchronize e r) w in
  match env_cuda E (step w) with
  | cudaSuccess =>
      match event_at w e with
      | Some (_, EvRecorded stamp) =>
          Ret cudaSuccess
              (set_events (map (complete_upto stamp) (events w)) (done cudaSuccess))
      | Some _ => Ret cudaSuccess (done cudaSuccess)
      | None => Ret cudaErrorInvalidResourceHandle (done cudaErrorInvalidResourceHandle)
      end
  | r => Ret r (done r)
  end.

(** [cudaEventElapsedTime(&time, start, stop)]; [time] is the value the
    variable holds before the call. *)
Definition cudaEventElapsedTime (time : spec_float) (start stop : cudaEvent_t)
  : M (cudaError_t * spec_float) := fun w =>
  let done t r := emit (a_cudaEventElapsedTime start stop t r) w in
  match env_cuda E (step w) with
  | cudaSuccess =>
      match event_at w start, event_at w stop with
      | Some (_, s1), Some (_, s2) =>
          if is_completed s1 && is_completed s2
          then Ret (cudaSuccess, env_event_ms E (step w))
                   (done (env_event_ms E (step w)) cudaSuccess)
          else if is_recorded s1 || is_recorded s2
          then Ret (cudaErrorNotReady, time) (done time cudaErrorNotReady)
          else Ret (cudaErrorInvalidResourceHandle, time)
                   (done time cudaErrorInvalidResourceHandle)
      | _, _ => Ret (cudaErrorInvalidResourceHandle, time)
                    (done time cudaErrorInvalidResourceHandle)
      end
  | r => Ret (r, time) (done time r)
  end.

Definition cudaEventDestroy (e : cudaEvent_t) : M cudaError_t := fun w =>
  let done r := emit (a_cudaEventDestroy e r) w in
  match env_cuda E (step w) with
  | cudaSuccess =>
      match event_at w e with
      | Some (i, _) =>
          Ret cudaSuccess (set_events (<[i := EvDestroyed]> (events w)) (done cudaSuccess))
      | None => Ret cudaErrorInvalidResourceHandle (done cudaErrorInvalidResourceHandle)
      end
  | r => Ret r (done r)
  end.

(** [cudaGetDeviceProperties(&prop, device)], of which the program reads
    [prop.name]; a call that fails leaves [prop] as it was declared,
    unwritten. *)
Definition cudaGetDeviceProperties (device : Z) : M (cudaError_t * string) := fun w =>
  match env_cuda E (step w) with
  | cudaSuccess =>
      Ret (cudaSuccess, env_device_name E)
          (emit (a_cudaGetDeviceProperties device cudaSuccess) w)
  | r => Ret (r, env_stack_name E (step w)) (emit (a_cudaGetDeviceProperties device r) w)
  end.

Definition cudaDeviceReset : M cudaError_t := fun w =>
  match env_cuda E (step w) with
  | cudaSuccess =>
      Ret cudaSuccess
          (emit (a_cudaDeviceReset cudaSuccess)
             (mkWorld (map reset_block (heap w)) (map (fun _ => EvDestroyed) (events w))
                (log w) (wire w)))
  | r => Ret r (emit (a_cudaDeviceReset r) w)
  end.

(** *** checkCuda (lines 19-27)

    Without DEBUG and _DEBUG the body is [return result;]. With one of
    them a failure is printed on stderr and [assert] aborts, unless
    NDEBUG has emptied [assert]. *)
Definition checkCuda (result : cudaError_t) : M cudaError_t := fun w =>
  if env_debug E then
    if is_success result then Ret result w
    else
      let w1 := emit (a_fprintf_stderr "CUDA Runtime Error: %s\n" result) w in
      if env_ndebug E then Ret result w1 else Abort w1
  else Ret result w.

(** [checkCuda(call(&out, ...))] for a call with an output variable. *)
Definition checked {A} (call : M (cudaError_t * A)) : M A :=
  let* '(r, out) := call in checkCuda r >> ret out.

(** [checkCuda(call(...))] *)
Definition checked_ (call : M cudaError_t) : M unit :=
  let* r := call in checkCuda r >> ret tt.

End Program.

(** ** The benchmark (lines 43-245) *)

Section Benchmark.

Variable E : env.

Local Open Scope string_scope.

(** [profileH2HCopies], lines 43-67. *)
Definition profileH2HCopies (h_a h_b : ptr) (n : Z) (desc : string) : M unit :=
  printf "\nHost to Host %s Memcpy\n" [ArgStr desc] >>
  let bytes := u32 (n * sizeof_float) in
  (* Warm Up *)
  repeatM 32 (memcpy h_a h_b bytes) >>
  let iters := 100%Z in
  let* timer := Timer_new E in
  repeatM (Z.to_nat iters) (memcpy h_a h_b bytes) >>
  let* elapsed1 := Timer_elapsed E timer in
  let time1 := Float.b32_of_b64 elapsed1 in
  let band1 := band_round_trip 9 iters bytes (B32 time1) in
  let* timer := Timer_reset E in
  repeatM (Z.to_nat iters) (memcpy h_b h_a bytes) >>
  let* elapsed2 := Timer_elapsed E timer in
  let time2 := Float.b32_of_b64 elapsed2 in
  let band2 := band_round_trip 9 iters bytes (B32 time2) in
  printf "  Host to Host bandwidth (GB/s): %.2f\n"
    [ArgDouble (Float.b64_of_b32 (b32 (band_mean band1 band2)))].

(** The comparison loops of lines 104-109 and 165-170:
    [for (i = 0; i < n; ++i) if (h_a[i] != h_b[i]) { printf(...); break; }]
    with [remaining] = n - i iterations to go. *)
Fixpoint verify_loop (remaining : nat) (i : Z) (h_a h_b : ptr) (report : M unit)
  : M unit :=
  match remaining with
  | O => ret tt
  | S remaining' =>
      let* x := load h_a i in
      let* y := load h_b i in
      if Float.ne x y then report
      else verify_loop remaining' (i + 1) h_a h_b report
  end.

(** [profileCopies], lines 69-114. *)
Definition profileCopies (h_a h_b d : ptr) (n : Z) (desc : string) : M unit :=
  printf "\n%s transfers\n" [ArgStr desc] >>
  let bytes := u32 (n * sizeof_float) in
  (* Warm Up *)
  repeatM 16
    (checked_ E (cudaMemcpy E d h_a bytes cudaMemcpyHostToDevice) >>
     checked_ E (cudaMemcpy E h_b d bytes cudaMemcpyDeviceToHost)) >>
  (* events for timing *)
  let* startEvent := checked E (cudaEventCreate E) in
  let* stopEvent := checked E (cudaEventCreate E) in
  checked_ E (cudaEventRecord E startEvent) >>
  checked_ E (cudaMemcpy E d h_a bytes cudaMemcpyHostToDevice) >>
  checked_ E (cudaEventRecord E stopEvent) >>
  checked_ E (cudaEventSynchronize E stopEvent) >>
  let* time := uninitialised_float E in
  let* time := checked E (cudaEventElapsedTime E time startEvent stopEvent) in
  printf "  Host to Device bandwidth (GB/s): %.2f\n" [ArgDouble (hd_reported bytes time)] >>
  checked_ E (cudaEventRecord E startEvent) >>
  checked_ E (cudaMemcpy E h_b d bytes cudaMemcpyDeviceToHost) >>
  checked_ E (cudaEventRecord E stopEvent) >>
  checked_ E (cudaEventSynchronize E stopEvent) >>
  let* time := checked E (cudaEventElapsedTime E time startEvent stopEvent) in
  printf "  Device to Host bandwidth (GB/s): %.2f\n" [ArgDouble (hd_reported bytes time)] >>
  verify_loop (Z.to_nat n) 0 h_a h_b
    (printf "*** %s transfers failed ***" [ArgStr desc]) >>
  (* clean up events *)
  checked_ E (cudaEventDestroy E startEvent) >>
  checked_ E (cudaEventDestroy E stopEvent).

(** [profileD2DCopies], lines 116-175. *)
Definition profileD2DCopies (d_a d_b : ptr) (n : Z) : M unit :=
  printf "\nDevice to Device Memcpy\n" [] >>
  let bytes := u32 (n * sizeof_float) in
  (* Warm Up *)
  repeatM 16
    (checked_ E (cudaMemcpy E d_b d_a bytes cudaMemcpyDeviceToDevice) >>
     checked_ E (cudaMemcpy E d_a d_b bytes cudaMemcpyDeviceToDevice)) >>
  (* events for timing *)
  let iters := 100%Z in
  let* startEvent := checked E (cudaEventCreate E) in
  let* stopEvent := checked E (cudaEventCreate E) in
  checked_ E (cudaEventRecord E startEvent) >>
  repeatM (Z.to_nat iters)
    (checked_ E (cudaMemcpy E d_b d_a bytes cudaMemcpyDeviceToDevice)) >>
  checked_ E (cudaEventRecord E stopEvent) >>
  checked_ E (cudaEventSynchronize E stopEvent) >>
  let* time1 := uninitialised_float E in
  let* time1 := checked E (cudaEventElapsedTime E time1 startEvent stopEvent) in
  let band1 := band_round_trip 6 iters bytes (B32 time1) in
  checked_ E (cudaEventRecord E startEvent) >>
  repeatM (Z.to_nat iters)
    (checked_ E (cudaMemcpy E d_a d_b bytes cudaMemcpyDeviceToDevice)) >>
  checked_ E (cudaEventRecord E stopEvent) >>
  checked_ E (cudaEventSynchronize E stopEvent) >>
  let* time2 := uninitialised_float E in
  let* time2 := checked E (cudaEventElapsedTime E time2 startEvent stopEvent) in
  let band2 := band_round_trip 6 iters bytes (B32 time2) in
  printf "  Device to Device bandwidth (GB/s): %.2f\n"
    [ArgDouble (Float.b64_of_b32 (b32 (band_mean band1 band2)))] >>
  let* h_a := checked E (cudaMallocHost E bytes) in  (* host pinned *)
  let* h_b := checked E (cudaMallocHost E bytes) in  (* host pinned *)
  checked_ E (cudaMemcpy E h_a d_a bytes cudaMemcpyDeviceToHost) >>
  checked_ E (cudaMemcpy E h_b d_b bytes cudaMemcpyDeviceToHost) >>
  verify_loop (Z.to_nat n) 0 h_a h_b
    (printf "*** Device to device transfers failed ***" []) >>
  (* clean up events *)
  checked_ E (cudaEventDestroy E startEvent) >>
  checked_ E (cudaEventDestroy E stopEvent).

(** [for (unsigned int i = 0; i < nElements; ++i) h_aPageable[i] = (float)i;]
    (line 197) with [remaining] = nElements - i iterations to go. *)
Fixpoint init_loop (remaining : nat) (i : Z) (h_a : ptr) : M unit :=
  match remaining with
  | O => ret tt
  | S remaining' =>
      store h_a i (Float.b32_of_Z i) >> init_loop remaining' (i + 1) h_a
  end.

(** [memBenchmark] after its first line, lines 179-244. *)
Definition memBenchmark_from (nElements : Z) : M Z :=
  let bytes := u32 (nElements * sizeof_float) in
  (* allocate and initialize *)
  let* h_aPageable := malloc E bytes in                  (* host pageable *)
  let* h_bPageable := malloc E bytes in                  (* host pageable *)
  let* h_aPinned := checked E (cudaMallocHost E bytes) in  (* host pinned *)
  let* h_bPinned := checked E (cudaMallocHost E bytes) in  (* host pinned *)
  let* d_a := checked E (cudaMalloc E bytes) in            (* device *)
  let* d_b := checked E (cudaMalloc E bytes) in            (* device *)
  init_loop (Z.to_nat nElements) 0 h_aPageable >>
  memcpy h_aPinned h_aPageable bytes >>
  memset h_bPageable 0 bytes >>
  memset h_bPinned 0 bytes >>
  (* output device info and transfer size *)
  let* prop_name := checked E (cudaGetDeviceProperties E 0) in
  printf "\nDevice: %s\n" [ArgStr prop_name] >>
  printf "Transfer size (MB): %d\n" [ArgInt (bytes / (1024 * 1024))] >>
  (* perform copies and report bandwidth *)
  let* h2hPageable_range := nvtxRangeStart "Host to Host Paged Memory Transfer" in
  profileH2HCopies h_aPageable h_bPageable nElements "Pageable" >>
  nvtxRangeEnd h2hPageable_range >>
  let* h2hPinned_range := nvtxRangeStart "Host to Host Pinned Memory Transfer" in
  profileH2HCopies h_aPinned h_bPinned nElements "Pinned" >>
  nvtxRangeEnd h2hPinned_range >>
  let* pageable_range := nvtxRangeStart "Paged Memory Transfer" in
  profileCopies h_aPageable h_bPageable d_a nElements "Pageable" >>
  nvtxRangeEnd pageable_range >>
  let* pinned_range := nvtxRangeStart "Pinned Memory Transfer" in
  profileCopies h_aPinned h_bPinned d_a nElements "Pinned" >>
  nvtxRangeEnd pinned_range >>
  let* d2d_range := nvtxRangeStart "Device to Device Memory Transfer" in
  profileD2DCopies d_a d_b nElements >>
  nvtxRangeEnd d2d_range >>
  printf "\n" [] >>
  (* cleanup *)
  cudaFree E d_a >>
  cudaFreeHost E h_aPinned >>
  cudaFreeHost E h_bPinned >>
  free h_aPageable >>
  free h_bPageable >>
  cudaDeviceReset E >>
  ret 0.

(** [unsigned int nElements = MB_TO_TRANSFER * 256 * 1024;] (line 178) *)
Definition nElements : Z := u32 (u32 (MB_TO_TRANSFER * 256) * 1024).

(** [int memBenchmark()], lines 177-245. *)
Definition memBenchmark : M Z := memBenchmark_from nElements.

End Benchmark.

(** ** What is read off the log *)

(** The log of a run without the results of its CUDA calls and without
    what [checkCuda] prints on stderr: the calls the source spells out. *)
Definition erase (a : action) : option action :=
  match a with
  | a_fprintf_stderr _ _ => None
  | a_cudaMallocHost bytes p _ => Some (a_cudaMallocHost bytes p cudaSuccess)
  | a_cudaMalloc bytes p _ => Some (a_cudaMalloc bytes p cudaSuccess)
  | a_cudaFree p _ => Some (a_cudaFree p cudaSuccess)
  | a_cudaFreeHost p _ => Some (a_cudaFreeHost p cudaSuccess)
  | a_cudaMemcpy dst src bytes kind _ => Some (a_cudaMemcpy dst src bytes kind cudaSuccess)
  | a_cudaEventCreate e _ => Some (a_cudaEventCreate e cudaSuccess)
  | a_cudaEventRecord e _ => Some (a_cudaEventRecord e cudaSuccess)
  | a_cudaEventSynchronize e _ => Some (a_cudaEventSynchronize e cudaSuccess)
  | a_cudaEventElapsedTime s e t _ => Some (a_cudaEventElapsedTime s e t cudaSuccess)
  | a_cudaEventDestroy e _ => Some (a_cudaEventDestroy e cudaSuccess)
  | a_cudaGetDeviceProperties d _ => Some (a_cudaGetDeviceProperties d cudaSuccess)
  | a_cudaDeviceReset _ => Some (a_cudaDeviceReset cudaSuccess)
  | _ => Some a
  end.

Fixpoint shape (l : list action) : list action :=
  match l with
  | [] => []
  | a :: l' =>
      match erase a with
      | Some a' => a' :: shape l'
      | None => shape l'
      end
  end.

(** What a run appended to the log it started from. *)
Definition emitted (w w' : world) : list action := drop (length (log w)) (log w').

(** *** The measurement protocol: copies before the first marker, and
    copies between a start marker and the next stop marker. A marker is a
    clock reading or a [cudaEventRecord]. *)

Record copy := mkCopy {
  cp_kind : cudaMemcpyKind;
  cp_dst : ptr;
  cp_src : ptr;
  cp_bytes : Z
}.

Definition copy_of (a : action) : option copy :=
  match a with
  | a_memcpy dst src bytes => Some (mkCopy cudaMemcpyHostToHost dst src bytes)
  | a_cudaMemcpy dst src bytes kind _ => Some (mkCopy kind dst src bytes)
  | _ => None
  end.

Definition is_marker (a : action) : bool :=
  match a with
  | a_clock_now _ | a_cudaEventRecord _ _ => true
  | _ => false
  end.

(** [timed_regions timing cur l]: the copies of [l] that lie between a
    start and a stop marker, one list per region; [timing] tells whether a
    region is open and [cur] holds its copies so far, latest first. *)
Fixpoint timed_regions (timing : bool) (cur : list copy) (l : list action)
  : list (list copy) :=
  match l with
  | [] => []
  | a :: l' =>
      if is_marker a then
        if timing then rev cur :: timed_regions false [] l'
        else timed_regions true [] l'
      else
        match copy_of a with
        | Some c => timed_regions timing (if timing then c :: cur else cur) l'
        | None => timed_regions timing cur l'
        end
  end.

(** The copies made before the first marker: the warm-up. *)
Fixpoint warm_up (l : list action) : list copy :=
  match l with
  | [] => []
  | a :: l' =>
      if is_marker a then []
      else match copy_of a with
           | Some c => c :: warm_up l'
           | None => warm_up l'
           end
  end.

(** *** Synchronisation before the elapsed time is read *)

Definition event_eqb (e1 e2 : cudaEvent_t) : bool :=
  match e1, e2 with
  | Some i, Some j => Nat.eqb i j
  | None, None => true
  | _, _ => false
  end.

(** [sync_scan synced l]: walks the log with the events synchronised since
    they were last recorded; [None] as soon as [cudaEventElapsedTime] is
    called with a stop event that is not among them. *)
Fixpoint sync_scan (synced : list cudaEvent_t) (l : list action)
  : option (list cudaEvent_t) :=
  match l with
  | [] => Some synced
  | a :: l' =>
      match a with
      | a_cudaEventRecord e _ =>
          sync_scan (List.filter (fun e' => negb (event_eqb e e')) synced) l'
      | a_cudaEventSynchronize e _ => sync_scan (e :: synced) l'
      | a_cudaEventElapsedTime _ stop _ _ =>
          if existsb (event_eqb stop) synced then sync_scan synced l' else None
      | _ => sync_scan synced l'
      end
  end.

Definition sync_before_read (l : list action) : bool :=
  match sync_scan [] l with Some _ => true | None => false end.

(** *** Report blocks and failure lines *)

Local Open Scope string_scope.

Definition is_header (a : action) : bool :=
  match a with
  | a_printf fmt _ =>
      String.eqb fmt "\nHost to Host %s Memcpy\n"
      || String.eqb fmt "\n%s transfers\n"
      || String.eqb fmt "\nDevice to Device Memcpy\n"
  | _ => false
  end.

Definition is_failure_line (a : action) : bool :=
  match a with
  | a_printf fmt _ =>
      String.eqb fmt "*** %s transfers failed ***"
      || String.eqb fmt "*** Device to device transfers failed ***"
  | _ => false
  end.

Local Close Scope string_scope.

(** *** The tally an allocation tracker keeps: calls that allocated, minus
    calls that released, per kind of memory. *)

Definition host_allocs (a : action) : Z :=
  match a with
  | a_malloc _ (Some _) | a_cudaMallocHost _ (Some _) _ => 1
  | a_free (Some _) | a_cudaFreeHost (Some _) _ => -1
  | _ => 0
  end.

Definition device_allocs (a : action) : Z :=
  match a with
  | a_cudaMalloc _ (Some _) _ => 1
  | a_cudaFree (Some _) _ => -1
  | _ => 0
  end.

Definition tally (f : action -> Z) (l : list action) : Z :=
  fold_right (fun a acc => f a + acc) 0 l.

(** ** Reasoning about runs *)

(** [wp m Q X w]: running [m] from [w] ends in [Q] when it returns and in
    [X] when it aborts or crashes. *)
Definition wp {A} (m : M A) (Q : A -> world -> Prop) (X : world -> Prop) (w : world)
  : Prop :=
  match m w with
  | Ret a w' => Q a w'
  | Abort w' | Crash w' => X w'
  end.

(** [shaped m S]: whatever the outcome, the run has appended to the log,
    and the shape of what it appended is, when the run returns [a], a list
    [S a] accepts, and otherwise the beginning of such a list. *)
Definition shaped {A} (m : M A) (S : A -> list action -> Prop) : Prop :=
  forall w, exists l,
    log (world_of (m w)) = log w ++ l /\
    match m w with
    | Ret a _ => S a (shape l)
    | _ => exists a t, S a (shape l ++ t)
    end.

(** ** The shape of the log of each routine

    The calls each routine makes, in order, in terms of the values the run
    has produced on the way. *)

Section Shapes.

Variable E : env.

Local Open Scope string_scope.

Definition H2H_shape (h_a h_b : ptr) (n : Z) (desc : string) (t0 t1 t2 t3 : Z)
  : list action :=
  let bytes := u32 (n * sizeof_float) in
  [a_printf "\nHost to Host %s Memcpy\n" [ArgStr desc]] ++
  repeat (a_memcpy h_a h_b bytes) 32 ++
  [a_clock_now t0] ++
  repeat (a_memcpy h_a h_b bytes) 100 ++
  [a_clock_now t1; a_clock_now t2] ++
  repeat (a_memcpy h_b h_a bytes) 100 ++
  [a_clock_now t3;
   a_printf "  Host to Host bandwidth (GB/s): %.2f\n"
     [ArgDouble (Float.b64_of_b32
        (h2h_reported bytes
           (Float.b32_of_b64 (elapsed_seconds E t0 t1))
           (Float.b32_of_b64 (elapsed_seconds E t2 t3))))]].

Definition PC_shape (h_a h_b d : ptr) (n : Z) (desc : string)
    (startEvent stopEvent : cudaEvent_t) (time1 time2 : spec_float) (failed : bool)
  : list action :=
  let bytes := u32 (n * sizeof_float) in
  let h2d := a_cudaMemcpy d h_a bytes cudaMemcpyHostToDevice cudaSuccess in
  let d2h := a_cudaMemcpy h_b d bytes cudaMemcpyDeviceToHost cudaSuccess in
  [a_printf "\n%s transfers\n" [ArgStr desc]] ++
  concat (repeat [h2d; d2h] 16) ++
  [a_cudaEventCreate startEvent cudaSuccess;
   a_cudaEventCreate stopEvent cudaSuccess;
   a_cudaEventRecord startEvent cudaSuccess;
   h2d;
   a_cudaEventRecord stopEvent cudaSuccess;
   a_cudaEventSynchronize stopEvent cudaSuccess;
   a_cudaEventElapsedTime startEvent stopEvent time1 cudaSuccess;
   a_printf "  Host to Device bandwidth (GB/s): %.2f\n" [ArgDouble (hd_reported bytes time1)];
   a_cudaEventRecord startEvent cudaSuccess;
   d2h;
   a_cudaEventRecord stopEvent cudaSuccess;
   a_cudaEventSynchronize stopEvent cudaSuccess;
   a_cudaEventElapsedTime startEvent stopEvent time2 cudaSuccess;
   a_printf "  Device to Host bandwidth (GB/s): %.2f\n" [ArgDouble (hd_reported bytes time2)]] ++
  (if failed then [a_printf "*** %s transfers failed ***" [ArgStr desc]] else []) ++
  [a_cudaEventDestroy startEvent cudaSuccess;
   a_cudaEventDestroy stopEvent cudaSuccess].

Definition D2D_shape (d_a d_b : ptr) (n : Z)
    (startEvent stopEvent : cudaEvent_t) (time1 time2 : spec_float)
    (h_a h_b : ptr) (failed : bool)
  : list action :=
  let bytes := u32 (n * sizeof_float) in
  let a_to_b := a_cudaMemcpy d_b d_a bytes cudaMemcpyDeviceToDevice cudaSuccess in
  let b_to_a := a_cudaMemcpy d_a d_b bytes cudaMemcpyDeviceToDevice cudaSuccess in
  [a_printf "\nDevice to Device Memcpy\n" []] ++
  concat (repeat [a_to_b; b_to_a] 16) ++
  [a_cudaEventCreate startEvent cudaSuccess;
   a_cudaEventCreate stopEvent cudaSuccess;
   a_cudaEventRecord startEvent cudaSuccess] ++
  repeat a_to_b 100 ++
  [a_cudaEventRecord stopEvent cudaSuccess;
   a_cudaEventSynchronize stopEvent cudaSuccess;
   a_cudaEventElapsedTime startEvent stopEvent time1 cudaSuccess;
   a_cudaEventRecord startEvent cudaSuccess] ++
  repeat b_to_a 100 ++
  [a_cudaEventRecord stopEvent cudaSuccess;
   a_cudaEventSynchronize stopEvent cudaSuccess;
   a_cudaEventElapsedTime startEvent stopEvent time2 cudaSuccess;
   a_printf "  Device to Device bandwidth (GB/s): %.2f\n"
     [ArgDouble (Float.b64_of_b32 (d2d_reported bytes time1 time2))];
   a_cudaMallocHost bytes h_a cudaSuccess;
   a_cudaMallocHost bytes h_b cudaSuccess;
   a_cudaMemcpy h_a d_a bytes cudaMemcpyDeviceToHost cudaSuccess;
   a_cudaMemcpy h_b d_b bytes cudaMemcpyDeviceToHost cudaSuccess] ++
  (if failed then [a_printf "*** Device to device transfers failed ***" []] else []) ++
  [a_cudaEventDestroy startEvent cudaSuccess;
   a_cudaEventDestroy stopEvent cudaSuccess].

Definition MB_shape (n : Z)
    (h_aPageable h_bPageable h_aPinned h_bPinned d_a d_b : ptr) (name : string)
    (h2h_pageable h2h_pinned hd_pageable hd_pinned d2d : list action)
  : list action :=
  let bytes := u32 (n * sizeof_float) in
  [a_malloc bytes h_aPageable;
   a_malloc bytes h_bPageable;
   a_cudaMallocHost bytes h_aPinned cudaSuccess;
   a_cudaMallocHost bytes h_bPinned cudaSuccess;
   a_cudaMalloc bytes d_a cudaSuccess;
   a_cudaMalloc bytes d_b cudaSuccess;
   a_memcpy h_aPinned h_aPageable bytes;
   a_memset h_bPageable 0 bytes;
   a_memset h_bPinned 0 bytes;
   a_cudaGetDeviceProperties 0 cudaSuccess;
   a_printf "\nDevice: %s\n" [ArgStr name];
   a_printf "Transfer size (MB): %d\n" [ArgInt (bytes / (1024 * 1024))];
   a_nvtxRangeStart "Host to Host Paged Memory Transfer"] ++
  h2h_pageable ++
  [a_nvtxRangeEnd "Host to Host Paged Memory Transfer";
   a_nvtxRangeStart "Host to Host Pinned Memory Transfer"] ++
  h2h_pinned ++
  [a_nvtxRangeEnd "Host to Host Pinned Memory Transfer";
   a_nvtxRangeStart "Paged Memory Transfer"] ++
  hd_pageable ++
  [a_nvtxRangeEnd "Paged Memory Transfer";
   a_nvtxRangeStart "Pinned Memory Transfer"] ++
  hd_pinned ++
  [a_nvtxRangeEnd "Pinned Memory Transfer";
   a_nvtxRangeStart "Device to Device Memory Transfer"] ++
  d2d ++
  [a_nvtxRangeEnd "Device to Device Memory Transfer";
   a_printf "\n" [];
   a_cudaFree d_a cudaSuccess;
   a_cudaFreeHost h_aPinned cudaSuccess;
   a_cudaFreeHost h_bPinned cudaSuccess;
   a_free h_aPageable;
   a_free h_bPageable;
   a_cudaDeviceReset cudaSuccess].

Definition is_H2H_shape h_a h_b n desc (s : list action) : Prop :=
  exists t0 t1 t2 t3, s = H2H_shape h_a h_b n desc t0 t1 t2 t3.

Definition is_PC_shape h_a h_b d n desc (s : list action) : Prop :=
  exists startEvent stopEvent time1 time2 failed,
    s = PC_shape h_a h_b d n desc startEvent stopEvent time1 time2 failed.

Definition is_D2D_shape d_a d_b n (s : list action) : Prop :=
  exists startEvent stopEvent time1 time2 h_a h_b failed,
    s = D2D_shape d_a d_b n startEvent stopEvent time1 time2 h_a h_b failed.

Definition is_MB_shape (n : Z) (s : list action) : Prop :=
  exists h_aPageable h_bPageable h_aPinned h_bPinned d_a d_b name s1 s2 s3 s4 s5,
    is_H2H_shape h_aPageable h_bPageable n "Pageable" s1 /\
    is_H2H_shape h_aPinned h_bPinned n "Pinned" s2 /\
    is_PC_shape h_aPageable h_bPageable d_a n "Pageable" s3 /\
    is_PC_shape h_aPinned h_bPinned d_a n "Pinned" s4 /\
    is_D2D_shape d_a d_b n s5 /\
    s = MB_shape n h_aPageable h_bPageable h_aPinned h_bPinned d_a d_b name s1 s2 s3 s4 s5.

End Shapes.

(** ** Conditions on a run *)

Definition attrs (blk : block) : space * Z * bool :=
  (blk_space blk, blk_bytes blk, blk_live blk).

Definition heap_attrs (w : world) : list (space * Z * bool) := map attrs (heap w).

(** [p] points to a live host block of at least [need] bytes. *)
Definition host_ok (H : list (space * Z * bool)) (p : ptr) (need : Z) : Prop :=
  exists b sp bytes,
    p = Some b /\ H !! b = Some (sp, bytes, true) /\ is_host sp = true /\ need <= bytes.

Definition no_abort (E : env) : bool := negb (env_debug E) || env_ndebug E.

Definition host_allocs_ok (E : env) : Prop := forall k, env_host_alloc_ok E k = true.

Definition fault_free (E : env) : Prop :=
  host_allocs_ok E /\ forall k, env_cuda E k = cudaSuccess.

(** [hoare P m Q]: from a world in [P], [m] returns, in [Q]. *)
Definition hoare {A} (P : world -> Prop) (m : M A) (Q : A -> world -> Prop) : Prop :=
  forall w, P w -> wp m Q (fun _ => False) w.

Definition attrs_are (H : list (space * Z * bool)) : world -> Prop :=
  fun w => heap_attrs w = H.

(** [p] points to a live block obtained from [malloc]. *)
Definition pageable_live (p : ptr) (w : world) : Prop :=
  exists b bytes,
    p = Some b /\ heap_attrs w !! b = Some (HostPageable, bytes, true) /\ 0 <= bytes.


(** ** Sample environments and worlds *)

(** A release build in which every call succeeds; the clock has nanosecond
    ticks and advances by one millisecond per logged call, every event
    timing is 2 ms. *)
Definition E_ok : env :=
  mkEnv false false (fun _ => true) (fun _ => cudaSuccess)
    (fun _ _ => S754_nan) (fun _ => S754_nan)
    (fun k => Z.of_nat k * 1000000) 1000000000
    (fun _ => Float.b32_of_Z 2) "GPU" (fun _ => EmptyString).

(** A build with DEBUG and a live [assert], in which the third call, the
    first [cudaMallocHost], finds no memory. *)
Definition E_debug_no_memory : env :=
  mkEnv true false (fun k => negb (Nat.eqb k 2)) (fun _ => cudaSuccess)
    (fun _ _ => S754_nan) (fun _ => S754_nan)
    (fun k => Z.of_nat k * 1000000) 1000000000
    (fun _ => Float.b32_of_Z 2) "GPU" (fun _ => EmptyString).

(** As [E_ok], with a clock that does not advance between two readings. *)
Definition E_clock_stopped : env :=
  mkEnv false false (fun _ => true) (fun _ => cudaSuccess)
    (fun _ _ => S754_nan) (fun _ => S754_nan)
    (fun _ => 0) 1000000000
    (fun _ => Float.b32_of_Z 2) "GPU" (fun _ => EmptyString).

(** Two host buffers and two device buffers of [n] floats:
    [h_a[i] = (float)i], [h_b[i] = 0]. *)
Definition w_buffers (n : Z) : world :=
  mkWorld
    [mkBlock HostPageable (sizeof_float * n) true Float.b32_of_Z;
     mkBlock HostPageable (sizeof_float * n) true (fun _ => Float.zero);
     mkBlock DeviceMem (sizeof_float * n) true (fun _ => S754_nan);
     mkBlock DeviceMem (sizeof_float * n) true (fun _ => S754_nan)]
    [] [] [].

(** The copies a log contains, in order. *)
Fixpoint copies (l : list action) : list copy :=
  match l with
  | [] => []
  | a :: l' =>
      match copy_of a with
      | Some c => c :: copies l'
      | None => copies l'
      end
  end.

(** The calls that ask for memory and the calls that give it back. *)
Definition is_alloc_call (a : action) : bool :=
  match a with
  | a_malloc _ _ | a_cudaMallocHost _ _ _ | a_cudaMalloc _ _ _ => true
  | _ => false
  end.

Definition is_release_call (a : action) : bool :=
  match a with
  | a_free _ | a_cudaFreeHost _ _ | a_cudaFree _ _ => true
  | _ => false
  end.

(** The five headers of the report, in the order of the suite. *)
Definition report_headers : list action :=
  [a_printf "\nHost to Host %s Memcpy\n" [ArgStr "Pageable"];
   a_printf "\nHost to Host %s Memcpy\n" [ArgStr "Pinned"];
   a_printf "\n%s transfers\n" [ArgStr "Pageable"];
   a_printf "\n%s transfers\n" [ArgStr "Pinned"];
   a_printf "\nDevice to Device Memcpy\n" []].

(** ** What the buffers hold and what the copies carry *)

(** The block [b] of the heap holds [f i] at every index below [n]. *)
Definition holds (f : Z -> spec_float) (n : Z) (hp : list block) (b : nat) : Prop :=
  exists blk, hp !! b = Some blk /\ forall i, 0 <= i < n -> blk_data blk i = f i.

(** The transfer has moved [n] floats, [f i] at every index. *)
Definition carries (f : Z -> spec_float) (n : Z) (t : transfer) : Prop :=
  tr_elems t = n /\ forall i, 0 <= i < n -> tr_data t i = f i.

(** The heap has the attributes [H], the blocks of [Zs] hold [f], and the
    [m] transfers made since the wire was [W0] all carried [f]. *)
Definition holding (f : Z -> spec_float) (n : Z) (H : list (space * Z * bool))
    (Zs : list nat) (W0 : list transfer) (m : nat) : world -> Prop :=
  fun w =>
    heap_attrs w = H /\
    Forall (holds f n (heap w)) Zs /\
    exists rest, wire w = W0 ++ rest /\ length rest = m /\ Forall (carries f n) rest.

(** A computation that leaves the events alone, and one that leaves the
    heap and the wire alone. *)
Definition quiet {A} (m : M A) : Prop :=
  forall w a w', m w = Ret a w' -> events w' = events w /\ (step w <= step w')%nat.

Definition heapless {A} (m : M A) : Prop :=
  forall w a w', m w = Ret a w' -> heap w' = heap w /\ wire w' = wire w.

Definition on_events (R : list ev_state -> nat -> Prop) : world -> Prop :=
  fun w => R (events w) (step w).

Definition on_heap (F : list block -> list transfer -> Prop) : world -> Prop :=
  fun w => F (heap w) (wire w).

Definition mono (R : list ev_state -> nat -> Prop) : Prop :=
  forall evs k k', R evs k -> (k <= k')%nat -> R evs k'.

(** The two events of a routine, at [i] and [i + 1] in the table, through
    a timed region. *)
Definition timers_live (i : nat) : list ev_state -> nat -> Prop :=
  fun evs _ =>
    exists s e, evs !! i = Some s /\ evs !! S i = Some e /\
                s <> EvDestroyed /\ e <> EvDestroyed.

Definition timers_started (i : nat) : list ev_state -> nat -> Prop :=
  fun evs k =>
    exists k1 e, evs !! i = Some (EvRecorded k1) /\ evs !! S i = Some e /\
                 e <> EvDestroyed /\ (k1 <= k)%nat.

Definition timers_stopped (i : nat) : list ev_state -> nat -> Prop :=
  fun evs _ =>
    exists k1 k2, evs !! i = Some (EvRecorded k1) /\ evs !! S i = Some (EvRecorded k2) /\
                  (k1 <= k2)%nat.

Definition timers_completed (i : nat) : list ev_state -> nat -> Prop :=
  fun evs _ => evs !! i = Some EvCompleted /\ evs !! S i = Some EvCompleted.

(** The float at index [i] of the block [b]. *)
Definition peek (w : world) (b : nat) (i : Z) : option spec_float :=
  match heap w !! b with
  | Some blk => Some (blk_data blk i)
  | None => None
  end.

(** A release build in which every CUDA call fails. *)
Definition E_cuda_down : env :=
  mkEnv false false (fun _ => true) (fun _ => cudaErrorUnknown)
    (fun _ _ => S754_nan) (fun _ => S754_nan)
    (fun k => Z.of_nat k * 1000000) 1000000000
    (fun _ => Float.b32_of_Z 2) "GPU" (fun _ => EmptyString).

(** The spec's formula for the device-to-device figure, in its words:
    2 * iterations * bytes / ((time_AtoB + time_BtoA) / 2), with the unit
    factor 1e-k of the code (k = 0 for none). *)
Definition spec_bandwidth_at_mean_time {F} `{Arith F} (k iters bytes : Z) (t1 t2 : F) : F :=
  band_round_trip k iters bytes (fdiv (fadd t1 t2) (of_int 2)).

(** A floating-point value that is a number: neither infinite nor NaN. *)
Definition is_number (x : spec_float) : bool :=
  match x with
  | S754_zero _ | S754_finite _ _ _ => true
  | S754_infinity _ | S754_nan => false
  end.

(** ** Further observers of a log and of a run *)

(** A list of calls that reads no elapsed time before the stop event has
    been synchronised, whatever happened before it. *)
Definition always_synced (l : list action) : Prop :=
  forall synced, exists synced', sync_scan synced l = Some synced'.

(** A call other than [cudaEventElapsedTime]. *)
Definition reads_no_time (a : action) : bool :=
  match a with a_cudaEventElapsedTime _ _ _ _ => false | _ => true end.

(** A computation that, when it returns, has kept [G]. *)
Definition keeps {A} (G : world -> Prop) (m : M A) : Prop :=
  forall w a w', m w = Ret a w' -> G w -> G w'.

(** The numbers a log shows: the argument of every [printf] that prints
    one [%.2f]. *)
Definition figure_of (a : action) : option spec_float :=
  match a with
  | a_printf _ [ArgDouble x] => Some x
  | _ => None
  end.

Fixpoint figures (l : list action) : list spec_float :=
  match l with
  | [] => []
  | a :: l' =>
      match figure_of a with
      | Some x => x :: figures l'
      | None => figures l'
      end
  end.

(** ** Ranges, directions, events and lines of a log *)

Local Open Scope string_scope.

(** [range_scan cur outside l]: the NVTX ranges of [l] in order, each with
    the message it was started with, the id it was ended with and the
    number of copies made while it was open, and the number of copies made
    outside any range. [cur] is the open range and its copies so far. *)
Fixpoint range_scan (cur : option (string * nat)) (outside : nat) (l : list action)
  : list (string * string * nat) * nat :=
  match l with
  | [] => ([], outside)
  | a :: l' =>
      match a with
      | a_nvtxRangeStart msg => range_scan (Some (msg, 0%nat)) outside l'
      | a_nvtxRangeEnd id =>
          match cur with
          | Some (msg, k) =>
              let (rs, out) := range_scan None outside l' in ((msg, id, k) :: rs, out)
          | None => range_scan None outside l'
          end
      | _ =>
          match copy_of a, cur with
          | Some _, Some (msg, k) => range_scan (Some (msg, S k)) outside l'
          | Some _, None => range_scan None (S outside) l'
          | None, _ => range_scan cur outside l'
          end
      end
  end.

Definition kind_eqb (k1 k2 : cudaMemcpyKind) : bool :=
  match k1, k2 with
  | cudaMemcpyHostToHost, cudaMemcpyHostToHost
  | cudaMemcpyHostToDevice, cudaMemcpyHostToDevice
  | cudaMemcpyDeviceToHost, cudaMemcpyDeviceToHost
  | cudaMemcpyDeviceToDevice, cudaMemcpyDeviceToDevice => true
  | _, _ => false
  end.

(** The number of copies of a log in one direction. *)
Definition count_kind (k : cudaMemcpyKind) (l : list action) : nat :=
  length (List.filter (fun c => kind_eqb (cp_kind c) k) (copies l)).

(** The calls on events, without what the runtime answered. *)
Inductive event_op :=
  | OpCreate (e : cudaEvent_t)
  | OpRecord (e : cudaEvent_t)
  | OpSynchronize (e : cudaEvent_t)
  | OpElapsedTime (start stop : cudaEvent_t)
  | OpDestroy (e : cudaEvent_t).

Definition event_op_of (a : action) : option event_op :=
  match a with
  | a_cudaEventCreate e _ => Some (OpCreate e)
  | a_cudaEventRecord e _ => Some (OpRecord e)
  | a_cudaEventSynchronize e _ => Some (OpSynchronize e)
  | a_cudaEventElapsedTime s e _ _ => Some (OpElapsedTime s e)
  | a_cudaEventDestroy e _ => Some (OpDestroy e)
  | _ => None
  end.

Fixpoint event_ops (l : list action) : list event_op :=
  match l with
  | [] => []
  | a :: l' =>
      match event_op_of a with
      | Some op => op :: event_ops l'
      | None => event_ops l'
      end
  end.

Definition is_memory_call (a : action) : bool := is_alloc_call a || is_release_call a.

(** The formats of the lines printed on stdout, failure lines aside. *)
Fixpoint lines (l : list action) : list string :=
  match l with
  | [] => []
  | a :: l' =>
      match a with
      | a_printf fmt _ => if is_failure_line a then lines l' else fmt :: lines l'
      | _ => lines l'
      end
  end.

Definition is_size_line (a : action) : bool :=
  match a with
  | a_printf fmt _ => String.eqb fmt "Transfer size (MB): %d\n"
  | _ => false
  end.

(** The lines of the suite, in order. *)
Definition report_lines : list string :=
  ["\nDevice: %s\n"; "Transfer size (MB): %d\n";
   "\nHost to Host %s Memcpy\n"; "  Host to Host bandwidth (GB/s): %.2f\n";
   "\nHost to Host %s Memcpy\n"; "  Host to Host bandwidth (GB/s): %.2f\n";
   "\n%s transfers\n"; "  Host to Device bandwidth (GB/s): %.2f\n";
   "  Device to Host bandwidth (GB/s): %.2f\n";
   "\n%s transfers\n"; "  Host to Device bandwidth (GB/s): %.2f\n";
   "  Device to Host bandwidth (GB/s): %.2f\n";
   "\nDevice to Device Memcpy\n"; "  Device to Device bandwidth (GB/s): %.2f\n";
   "\n"].

(** The NVTX ranges of the suite with the copies each encloses. *)
Definition report_ranges : list (string * string * nat) :=
  [("Host to Host Paged Memory Transfer", "Host to Host Paged Memory Transfer", 232%nat);
   ("Host to Host Pinned Memory Transfer", "Host to Host Pinned Memory Transfer", 232%nat);
   ("Paged Memory Transfer", "Paged Memory Transfer", 34%nat);
   ("Pinned Memory Transfer", "Pinned Memory Transfer", 34%nat);
   ("Device to Device Memory Transfer", "Device to Device Memory Transfer", 234%nat)].

(** The calls a device routine makes on its events [s] and [e]. *)
Definition routine_event_ops (s e : cudaEvent_t) : list event_op :=
  [OpCreate s; OpCreate e;
   OpRecord s; OpRecord e; OpSynchronize e; OpElapsedTime s e;
   OpRecord s; OpRecord e; OpSynchronize e; OpElapsedTime s e;
   OpDestroy s; OpDestroy e].

Local Close Scope string_scope.

(** A clock reading or a printed number. *)
Definition is_clock_or_figure (a : action) : bool :=
  match a with
  | a_clock_now _ => true
  | a_printf _ [ArgDouble _] => true
  | _ => false
  end.

(** [p] is a live host block of the heap, at least [need] bytes long. *)
Definition host_block (w : world) (p : nat) (blk : block) (need : Z) : Prop :=
  heap w !! p = Some blk /\ blk_live blk = true /\ is_host (blk_space blk) = true /\
  need <= blk_bytes blk.

(** The transfer has moved [n] floats, those of the block [b] of [w]. *)
Definition carries_block (w : world) (b : nat) (n : Z) (t : transfer) : Prop :=
  tr_elems t = n /\ forall i, 0 <= i < n -> Some (tr_data t i) = peek w b i.

(** ** What a comparison leaves behind *)

(** The failure lines printed so far. *)
Definition failure_lines (w : world) : list action :=
  List.filter is_failure_line (log w).

(** The blocks [a] and [b] both have an element [j], and the two compare
    different, or equal, by [!=] on [float]. *)
Definition differ_at (w : world) (a b : nat) (j : Z) : Prop :=
  exists x y, peek w a j = Some x /\ peek w b j = Some y /\ Float.ne x y = true.

Definition agree_at (w : world) (a b : nat) (j : Z) : Prop :=
  exists x y, peek w a j = Some x /\ peek w b j = Some y /\ Float.ne x y = false.

(** The outcome of comparing the first [n] elements of the blocks [a] and
    [b], after the failure lines [F]: either no line has been added and all
    the elements agree, or [line] has been added, once, and some element
    differs. *)
Definition verdict (F : list action) (line : action) (a b : nat) (n : Z) (w : world)
  : Prop :=
  (failure_lines w = F /\ forall j, 0 <= j < n -> agree_at w a b j) \/
  (failure_lines w = F ++ [line] /\ exists j, 0 <= j < n /\ differ_at w a b j).

(** A computation that prints no failure line and leaves the number of
    blocks as it is. *)
Definition steady {A} (m : M A) : Prop :=
  forall w a w', m w = Ret a w' ->
    failure_lines w' = failure_lines w /\ length (heap w') = length (heap w).

(** [ends m V]: a run of [m] that returns ends in a world in [V], which may
    depend on the failure lines and on the number of blocks at the start. *)
Definition ends {A} (m : M A) (V : list action -> nat -> world -> Prop) : Prop :=
  forall w a w', m w = Ret a w' -> V (failure_lines w) (length (heap w)) w'.

(** What [cudaMallocHost] answers with [k] blocks in the heap, and the
    number of blocks after it. *)
Definition allocated (p : ptr) (k k' : nat) : Prop :=
  (p = Some k /\ k' = S k) \/ (p = None /\ k' = k).

(** A computation that prints no failure line. *)
Definition silent {A} (m : M A) : Prop :=
  forall w a w', m w = Ret a w' -> failure_lines w' = failure_lines w.

(** What [cudaDeviceReset] makes of a block, on its attributes. *)
Definition reset_attrs (x : space * Z * bool) : space * Z * bool :=
  match x with
  | (HostPageable, sz, l) => (HostPageable, sz, l)
  | (sp, sz, _) => (sp, sz, false)
  end.

(** The eight blocks the suite has allocated, once it has returned: two
    pageable, two pinned and two device buffers of [memBenchmark], and the
    two pinned buffers of [profileD2DCopies]; none is live. *)
Definition suite_blocks (sz : Z) : list (space * Z * bool) :=
  [(HostPageable, sz, false); (HostPageable, sz, false);
   (HostPinned, sz, false); (HostPinned, sz, false);
   (DeviceMem, sz, false); (DeviceMem, sz, false);
   (HostPinned, sz, false); (HostPinned, sz, false)].

(** ** Times read and figures printed *)

(** What a log shows of the measurements: the clock readings, what each
    [cudaEventElapsedTime] left in its [time], and the numbers printed. *)
Inductive reading :=
  | Clock (t : Z)
  | Elapsed (t : spec_float)
  | Figure (x : spec_float).

Definition reading_of (a : action) : option reading :=
  match a with
  | a_clock_now t => Some (Clock t)
  | a_cudaEventElapsedTime _ _ t _ => Some (Elapsed t)
  | a_printf _ [ArgDouble x] => Some (Figure x)
  | _ => None
  end.

Fixpoint readings (l : list action) : list reading :=
  match l with
  | [] => []
  | a :: l' =>
      match reading_of a with
      | Some r => r :: readings l'
      | None => readings l'
      end
  end.

(** As [E_ok], with event timings of 0 ms. *)
Definition E_event_zero : env :=
  mkEnv false false (fun _ => true) (fun _ => cudaSuccess)
    (fun _ _ => S754_nan) (fun _ => S754_nan)
    (fun k => Z.of_nat k * 1000000) 1000000000
    (fun _ => Float.zero) "GPU" (fun _ => EmptyString).

(** As [E_ok], with event timings of 1 ms up to the 200th call logged and
    of 3 ms from there on. *)
Definition E_unequal_times : env :=
  mkEnv false false (fun _ => true) (fun _ => cudaSuccess)
    (fun _ _ => S754_nan) (fun _ => S754_nan)
    (fun k => Z.of_nat k * 1000000) 1000000000
    (fun k => if (k <? 200)%nat then Float.b32_of_Z 1 else Float.b32_of_Z 3)
    "GPU" (fun _ => EmptyString).

(** The rational a finite [float] or [double] stands for. *)
Definition float_value (x : spec_float) : Q :=
  match x with
  | S754_finite s m e =>
      (if s then - inject_Z (Z.pos m) else inject_Z (Z.pos m)) * Qpower 2 e
  | _ => 0
  end.

(** ** The events of a routine, in any build *)

(** [after P m Q]: a run of [m] from a world in [P] that returns ends in
    [Q]. *)
Definition after {A} (P : world -> Prop) (m : M A) (Q : A -> world -> Prop) : Prop :=
  forall w a w', P w -> m w = Ret a w' -> Q a w'.

(** A computation that leaves the number of events as it is. *)
Definition same_events_count {A} (m : M A) : Prop :=
  forall w a w', m w = Ret a w' -> length (events w') = length (events w).

(** The table has [k] events. *)
Definition events_count (k : nat) : list ev_state -> nat -> Prop :=
  fun evs _ => length evs = k.

(** [R] of the events at [i] and [i + 1], which are the last two of the
    table. *)
Definition last_two (R : nat -> list ev_state -> nat -> Prop) (i : nat)
  : list ev_state -> nat -> Prop :=
  fun evs k => R i evs k /\ length evs = S (S i).

(** The events at [i] and [i + 1] are the last two of the table, and both
    are destroyed. *)
Definition own_timers_destroyed (i : nat) (evs : list ev_state) : Prop :=
  length evs = S (S i) /\
  evs !! i = Some EvDestroyed /\ evs !! S i = Some EvDestroyed.

(** A release build in which the CUDA calls succeed up to the 47th call
    logged and fail from there on. *)
Definition E_late_failure : env :=
  mkEnv false false (fun _ => true)
    (fun k => if (k <? 47)%nat then cudaSuccess else cudaErrorUnknown)
    (fun _ _ => S754_nan) (fun _ => S754_nan)
    (fun k => Z.of_nat k * 1000000) 1000000000
    (fun _ => Float.b32_of_Z 2) "GPU" (fun _ => EmptyString).

(** * Proofs *)

(** ** The shape of a log *)

Lemma shape_app l1 l2 : shape (l1 ++ l2) = shape l1 ++ shape l2.
Proof.
  induction l1 as [|a l1 IH]; simpl; [reflexivity|].
  destruct (erase a); simpl; congruence.
Qed.

Lemma shaped_ret {A} (a : A) : shaped (ret a) (fun a' s => a' = a /\ s = []).
Proof. intros w. exists []. simpl. rewrite app_nil_r. auto. Qed.

Lemma shaped_inhabited {A} (m : M A) S : shaped m S -> exists a s, S a s.
Proof.
  intros H. destruct (H initial_world) as (l & _ & Hl).
  destruct (m initial_world); eauto.
  all: destruct Hl as (a & t & Hl); eauto.
Qed.

Lemma shaped_bind {A B} (m : M A) (f : A -> M B) S1 S2 (S : B -> list action -> Prop) :
  shaped m S1 ->
  (forall a, shaped (f a) (S2 a)) ->
  (forall a b s1 s2, S1 a s1 -> S2 a b s2 -> S b (s1 ++ s2)) ->
  shaped (bind m f) S.
Proof.
  intros Hm Hf HS w. unfold bind.
  destruct (Hm w) as (l1 & Hl1 & H1).
  destruct (m w) as [a w1|w1|w1] eqn:Emw; simpl in *.
  - destruct (Hf a w1) as (l2 & Hl2 & H2).
    exists (l1 ++ l2). split.
    + rewrite Hl2, Hl1. now rewrite app_assoc.
    + rewrite shape_app. destruct (f a w1); simpl in *.
      * now apply HS with a.
      * destruct H2 as (b & t & H2). exists b, t. rewrite <- app_assoc. now apply HS with a.
      * destruct H2 as (b & t & H2). exists b, t. rewrite <- app_assoc. now apply HS with a.
  - exists l1. split; [assumption|].
    destruct H1 as (a & t & H1).
    destruct (shaped_inhabited _ _ (Hf a)) as (b & s2 & H2).
    exists b, (t ++ s2). rewrite app_assoc. now apply HS with a.
  - exists l1. split; [assumption|].
    destruct H1 as (a & t & H1).
    destruct (shaped_inhabited _ _ (Hf a)) as (b & s2 & H2).
    exists b, (t ++ s2). rewrite app_assoc. now apply HS with a.
Qed.

Lemma shaped_mono {A} (m : M A) (S S' : A -> list action -> Prop) :
  shaped m S -> (forall a s, S a s -> S' a s) -> shaped m S'.
Proof.
  intros H HS w. destruct (H w) as (l & Hl & H1). exists l. split; [assumption|].
  destruct (m w); auto; destruct H1 as (a & t & H1); eauto.
Qed.

(** A primitive that appends [acts a] when it returns [a], and [acts x] for some x when it does not. *)
Lemma shaped_repeatM n body (s0 : list action) :
  shaped body (fun _ s => s = s0) ->
  shaped (repeatM n body) (fun _ s => s = concat (repeat s0 n)).
Proof.
  intros Hb. induction n as [|n IH]; simpl.
  - eapply shaped_mono; [apply shaped_ret|]. intros a s [_ Hs]. now rewrite Hs.
  - eapply shaped_bind; [exact Hb | intros ?; exact IH |].
    intros a b s1 s2 H1 H2. rewrite H1, H2. reflexivity.
Qed.
Lemma shaped_seq {A B} (m : M A) (f : A -> M B) S1 (S : B -> list action -> Prop) :
  shaped m S1 ->
  (forall a, shaped (f a) (fun b s2 => forall s1, S1 a s1 -> S b (s1 ++ s2))) ->
  shaped (bind m f) S.
Proof.
  intros Hm Hf. eapply shaped_bind; [exact Hm | exact Hf |].
  cbv beta. intros a b s1 s2 H1 H2. now apply H2.
Qed.

Ltac break_match :=
  match goal with
  | |- context [match ?x with _ => _ end] => destruct x eqn:?
  | |- context [if ?x then _ else _] => destruct x eqn:?
  end.

(** A primitive appends one list, whatever it does. *)
Ltac prim_shaped :=
  let w := fresh "w" in
  intros w;
  repeat (cbv beta delta [emit sent set_block add_block set_events world_of log] iota zeta; simpl);
  repeat break_match; simpl;
  first [ exists []; rewrite app_nil_r; simpl; now eauto
        | eexists; split; [reflexivity|]; simpl; now eauto
        | eexists; split; [reflexivity|]; simpl; eexists; exists []; simpl; now eauto ].

Section PrimitiveShapes.
Variable E : env.

Lemma printf_shaped fmt args :
  shaped (printf fmt args) (fun _ s => s = [a_printf fmt args]).
Proof. unfold printf. prim_shaped. Qed.

Lemma memcpy_shaped dst src bytes :
  shaped (memcpy dst src bytes) (fun _ s => s = [a_memcpy dst src bytes]).
Proof.
  unfold memcpy. intros w.
  exists [a_memcpy dst src bytes].
  repeat break_match; simpl; split; try reflexivity; exists tt, []; reflexivity.
Qed.

Lemma memset_shaped dst c bytes :
  shaped (memset dst c bytes) (fun _ s => s = [a_memset dst c bytes]).
Proof.
  unfold memset. intros w. exists [a_memset dst c bytes].
  repeat break_match; simpl; split; try reflexivity; exists tt, []; reflexivity.
Qed.

Lemma malloc_shaped bytes :
  shaped (malloc E bytes) (fun p s => s = [a_malloc bytes p]).
Proof. unfold malloc. intros w. break_match; eexists; (split; [reflexivity|reflexivity]). Qed.

Lemma free_shaped p :
  shaped (free p) (fun _ s => s = [a_free p]).
Proof.
  unfold free. intros w. exists [a_free p].
  repeat break_match; simpl; split; try reflexivity; exists tt, []; reflexivity.
Qed.

Lemma store_shaped p i v : shaped (store p i v) (fun _ s => s = []).
Proof.
  unfold store. intros w. exists []. rewrite app_nil_r.
  repeat break_match; simpl; split; try reflexivity; exists tt, []; reflexivity.
Qed.

Lemma load_shaped p i : shaped (load p i) (fun _ s => s = []).
Proof.
  unfold load. intros w. exists []. rewrite app_nil_r.
  repeat break_match; simpl; split; try reflexivity; exists Float.zero, []; reflexivity.
Qed.

Lemma clock_now_shaped : shaped (clock_now E) (fun t s => s = [a_clock_now t]).
Proof. unfold clock_now. intros w. eexists. split; reflexivity. Qed.

Lemma Timer_elapsed_shaped beg_ :
  shaped (Timer_elapsed E beg_)
    (fun v s => exists now, v = elapsed_seconds E beg_ now /\ s = [a_clock_now now]).
Proof.
  unfold Timer_elapsed. eapply shaped_seq; [apply clock_now_shaped|].
  intros now. eapply shaped_mono; [apply shaped_ret|].
  cbv beta. intros v s [-> ->] s1 ->. exists now. auto.
Qed.

Lemma uninitialised_float_shaped : shaped (uninitialised_float E) (fun _ s => s = []).
Proof. intros w. exists []. rewrite app_nil_r. split; reflexivity. Qed.

Lemma nvtxRangeStart_shaped msg :
  shaped (nvtxRangeStart msg) (fun id s => id = msg /\ s = [a_nvtxRangeStart msg]).
Proof. intros w. eexists. split; [reflexivity|]. simpl. auto. Qed.

Lemma nvtxRangeEnd_shaped id :
  shaped (nvtxRangeEnd id) (fun _ s => s = [a_nvtxRangeEnd id]).
Proof. intros w. eexists. split; reflexivity. Qed.

Lemma checkCuda_shaped r : shaped (checkCuda E r) (fun r' s => s = []).
Proof.
  unfold checkCuda. intros w.
  repeat break_match; simpl.
  all: first [ exists []; rewrite app_nil_r; split; [reflexivity|]; simpl; now eauto
             | eexists; split; [reflexivity|]; simpl; now eauto
             | eexists; split; [reflexivity|]; simpl; exists r, []; now eauto ].
Qed.

Ltac cuda_shaped :=
  let w := fresh "w" in
  intros w;
  repeat break_match; simpl;
  (eexists; split; [reflexivity|]; reflexivity).

Lemma cudaMallocHost_shaped bytes :
  shaped (cudaMallocHost E bytes) (fun ro s => s = [a_cudaMallocHost bytes (snd ro) cudaSuccess]).
Proof. unfold cudaMallocHost. cuda_shaped. Qed.

Lemma cudaMalloc_shaped bytes :
  shaped (cudaMalloc E bytes) (fun ro s => s = [a_cudaMalloc bytes (snd ro) cudaSuccess]).
Proof. unfold cudaMalloc. cuda_shaped. Qed.

Lemma cudaFree_shaped p :
  shaped (cudaFree E p) (fun _ s => s = [a_cudaFree p cudaSuccess]).
Proof. unfold cudaFree, cuda_release. cuda_shaped. Qed.

Lemma cudaFreeHost_shaped p :
  shaped (cudaFreeHost E p) (fun _ s => s = [a_cudaFreeHost p cudaSuccess]).
Proof. unfold cudaFreeHost, cuda_release. cuda_shaped. Qed.

Lemma cudaMemcpy_shaped dst src bytes kind :
  shaped (cudaMemcpy E dst src bytes kind)
    (fun _ s => s = [a_cudaMemcpy dst src bytes kind cudaSuccess]).
Proof. unfold cudaMemcpy. cuda_shaped. Qed.

Lemma cudaEventCreate_shaped :
  shaped (cudaEventCreate E) (fun ro s => s = [a_cudaEventCreate (snd ro) cudaSuccess]).
Proof. unfold cudaEventCreate. cuda_shaped. Qed.

Lemma cudaEventRecord_shaped e :
  shaped (cudaEventRecord E e) (fun _ s => s = [a_cudaEventRecord e cudaSuccess]).
Proof. unfold cudaEventRecord. cuda_shaped. Qed.

Lemma cudaEventSynchronize_shaped e :
  shaped (cudaEventSynchronize E e) (fun _ s => s = [a_cudaEventSynchronize e cudaSuccess]).
Proof. unfold cudaEventSynchronize. cuda_shaped. Qed.

Lemma cudaEventElapsedTime_shaped time start stop :
  shaped (cudaEventElapsedTime E time start stop)
    (fun ro s => s = [a_cudaEventElapsedTime start stop (snd ro) cudaSuccess]).
Proof. unfold cudaEventElapsedTime. cuda_shaped. Qed.

Lemma cudaEventDestroy_shaped e :
  shaped (cudaEventDestroy E e) (fun _ s => s = [a_cudaEventDestroy e cudaSuccess]).
Proof. unfold cudaEventDestroy. cuda_shaped. Qed.

Lemma cudaGetDeviceProperties_shaped device :
  shaped (cudaGetDeviceProperties E device)
    (fun _ s => s = [a_cudaGetDeviceProperties device cudaSuccess]).
Proof. unfold cudaGetDeviceProperties. cuda_shaped. Qed.

Lemma cudaDeviceReset_shaped :
  shaped (cudaDeviceReset E) (fun _ s => s = [a_cudaDeviceReset cudaSuccess]).
Proof. unfold cudaDeviceReset. cuda_shaped. Qed.

Lemma checked_shaped {A} (call : M (cudaError_t * A)) (F : A -> list action) :
  shaped call (fun ro s => s = F (snd ro)) ->
  shaped (checked E call) (fun out s => s = F out).
Proof.
  intros H. unfold checked. eapply shaped_seq; [exact H|].
  intros [r out]. eapply shaped_seq; [apply checkCuda_shaped|].
  intros r'. eapply shaped_mono; [apply shaped_ret|].
  cbv beta. intros a s [-> ->] s1 -> s2 ->. simpl. now rewrite !app_nil_r.
Qed.

Lemma checked__shaped (call : M cudaError_t) (acts : list action) :
  shaped call (fun _ s => s = acts) ->
  shaped (checked_ E call) (fun _ s => s = acts).
Proof.
  intros H. unfold checked_. eapply shaped_seq; [exact H|].
  intros r. eapply shaped_seq; [apply checkCuda_shaped|].
  intros r'. eapply shaped_mono; [apply shaped_ret|].
  cbv beta. intros a s [-> ->] s1 -> s2 ->. simpl. now rewrite !app_nil_r.
Qed.

End PrimitiveShapes.

Section FunctionShapes.
Variable E : env.
Local Open Scope string_scope.

Lemma checked_create_shaped :
  shaped (checked E (cudaEventCreate E)) (fun e s => s = [a_cudaEventCreate e cudaSuccess]).
Proof. apply (checked_shaped E _ (fun e => [a_cudaEventCreate e cudaSuccess])), cudaEventCreate_shaped. Qed.

Lemma checked_elapsed_shaped time start stop :
  shaped (checked E (cudaEventElapsedTime E time start stop))
    (fun t s => s = [a_cudaEventElapsedTime start stop t cudaSuccess]).
Proof. apply (checked_shaped E _ (fun t => [a_cudaEventElapsedTime start stop t cudaSuccess])), cudaEventElapsedTime_shaped. Qed.

Lemma checked_mallocHost_shaped bytes :
  shaped (checked E (cudaMallocHost E bytes)) (fun p s => s = [a_cudaMallocHost bytes p cudaSuccess]).
Proof. apply (checked_shaped E _ (fun p => [a_cudaMallocHost bytes p cudaSuccess])), cudaMallocHost_shaped. Qed.

Lemma checked_malloc_shaped bytes :
  shaped (checked E (cudaMalloc E bytes)) (fun p s => s = [a_cudaMalloc bytes p cudaSuccess]).
Proof. apply (checked_shaped E _ (fun p => [a_cudaMalloc bytes p cudaSuccess])), cudaMalloc_shaped. Qed.

Lemma checked_props_shaped device :
  shaped (checked E (cudaGetDeviceProperties E device))
    (fun _ s => s = [a_cudaGetDeviceProperties device cudaSuccess]).
Proof. apply (checked_shaped E _ (fun _ => [a_cudaGetDeviceProperties device cudaSuccess])), cudaGetDeviceProperties_shaped. Qed.

Ltac sh_prim :=
  first
    [ apply printf_shaped | apply memcpy_shaped | apply memset_shaped
    | apply malloc_shaped | apply free_shaped | apply store_shaped | apply load_shaped
    | apply clock_now_shaped | apply Timer_elapsed_shaped
    | apply uninitialised_float_shaped
    | apply nvtxRangeStart_shaped | apply nvtxRangeEnd_shaped
    | apply checked_create_shaped | apply checked_elapsed_shaped
    | apply checked_mallocHost_shaped | apply checked_malloc_shaped
    | apply checked_props_shaped
    | apply cudaFree_shaped | apply cudaFreeHost_shaped | apply cudaDeviceReset_shaped
    | apply checked__shaped;
      first [ apply cudaMemcpy_shaped | apply cudaEventRecord_shaped
            | apply cudaEventSynchronize_shaped | apply cudaEventDestroy_shaped ]
    | apply shaped_repeatM; sh_prim ].

Ltac sh_step := eapply shaped_seq; [ sh_prim | intros ?; cbv beta zeta ].

Ltac sh_done :=
  cbv beta; intros;
  repeat match goal with
         | H : exists _, _ |- _ => destruct H
         | H : _ /\ _ |- _ => destruct H
         end;
  subst.

Lemma profileH2HCopies_shaped h_a h_b n desc :
  shaped (profileH2HCopies E h_a h_b n desc)
    (fun _ s => exists t0 t1 t2 t3, s = H2H_shape E h_a h_b n desc t0 t1 t2 t3).
Proof.
  unfold profileH2HCopies, Timer_new, Timer_reset.
  do 8 sh_step.
  eapply shaped_mono; [sh_prim|]. sh_done.
  do 4 eexists. reflexivity.
Qed.

Lemma verify_loop_shaped remaining i h_a h_b report (r : list action) :
  shaped report (fun _ s => s = r) ->
  shaped (verify_loop remaining i h_a h_b report)
    (fun _ s => exists failed : bool, s = if failed then r else []).
Proof.
  intros Hr. revert i. induction remaining as [|k IH]; intros i; simpl.
  - eapply shaped_mono; [apply shaped_ret|]. cbv beta. intros a s [_ ->]. now exists false.
  - sh_step. sh_step.
    destruct (Float.ne _ _).
    + eapply shaped_mono; [exact Hr|]. sh_done. now exists true.
    + eapply shaped_mono; [apply IH|]. sh_done. eauto.
Qed.

Lemma elapsed_checked_shaped time start stop :
  shaped (checked E (cudaEventElapsedTime E time start stop))
    (fun t s => s = [a_cudaEventElapsedTime start stop t cudaSuccess]).
Proof. apply checked_elapsed_shaped. Qed.

Lemma round_trip_shaped (m1 m2 : M cudaError_t) a1 a2 :
  shaped m1 (fun _ s => s = [a1]) -> shaped m2 (fun _ s => s = [a2]) ->
  shaped (checked_ E m1 >> checked_ E m2) (fun _ s => s = [a1; a2]).
Proof.
  intros H1 H2. eapply shaped_seq; [apply checked__shaped, H1|].
  intros ?. eapply shaped_mono; [apply checked__shaped, H2|]. sh_done. reflexivity.
Qed.

Lemma profileCopies_shaped h_a h_b d n desc :
  shaped (profileCopies E h_a h_b d n desc)
    (fun _ s => exists startEvent stopEvent time1 time2 failed,
         s = PC_shape h_a h_b d n desc startEvent stopEvent time1 time2 failed).
Proof.
  unfold profileCopies.
  sh_step.
  eapply shaped_seq;
    [apply shaped_repeatM, round_trip_shaped; apply cudaMemcpy_shaped | intros ?; cbv beta zeta].
  repeat sh_step.
  eapply shaped_seq;
    [apply verify_loop_shaped; sh_prim | intros ?; cbv beta zeta].
  sh_step.
  eapply shaped_mono; [sh_prim|]. sh_done.
  do 5 eexists. reflexivity.
Qed.

Lemma profileD2DCopies_shaped d_a d_b n :
  shaped (profileD2DCopies E d_a d_b n)
    (fun _ s => exists startEvent stopEvent time1 time2 h_a h_b failed,
         s = D2D_shape d_a d_b n startEvent stopEvent time1 time2 h_a h_b failed).
Proof.
  unfold profileD2DCopies.
  sh_step.
  eapply shaped_seq;
    [apply shaped_repeatM, round_trip_shaped; apply cudaMemcpy_shaped | intros ?; cbv beta zeta].
  repeat sh_step.
  eapply shaped_seq;
    [apply verify_loop_shaped; sh_prim | intros ?; cbv beta zeta].
  sh_step.
  eapply shaped_mono; [sh_prim|]. sh_done.
  do 7 eexists. reflexivity.
Qed.

Lemma init_loop_shaped remaining i h_a :
  shaped (init_loop remaining i h_a) (fun _ s => s = []).
Proof.
  revert i. induction remaining as [|k IH]; intros i; simpl.
  - eapply shaped_mono; [apply shaped_ret|]. cbv beta. now intros a s [_ ->].
  - sh_step. eapply shaped_mono; [apply IH|]. sh_done. reflexivity.
Qed.

Lemma memBenchmark_from_shaped n :
  shaped (memBenchmark_from E n) (fun r s => r = 0 /\ is_MB_shape E n s).
Proof.
  unfold memBenchmark_from. cbv zeta.
  repeat sh_step.
  eapply shaped_seq; [apply init_loop_shaped | intros ?; cbv beta zeta].
  repeat sh_step.
  eapply shaped_seq; [apply profileH2HCopies_shaped | intros ?; cbv beta zeta].
  repeat sh_step.
  eapply shaped_seq; [apply profileH2HCopies_shaped | intros ?; cbv beta zeta].
  repeat sh_step.
  eapply shaped_seq; [apply profileCopies_shaped | intros ?; cbv beta zeta].
  repeat sh_step.
  eapply shaped_seq; [apply profileCopies_shaped | intros ?; cbv beta zeta].
  repeat sh_step.
  eapply shaped_seq; [apply profileD2DCopies_shaped | intros ?; cbv beta zeta].
  repeat sh_step.
  eapply shaped_mono; [apply shaped_ret|].
  cbv beta. intros r s [-> ->]. sh_done.
  split; [reflexivity|].
  unfold is_MB_shape.
  do 12 eexists.
  repeat (split; [unfold is_H2H_shape, is_PC_shape, is_D2D_shape; repeat eexists|]).
  reflexivity.
Qed.
End FunctionShapes.

(** ** Runs that return *)

Lemma hoare_ret {A} (a : A) (P : world -> Prop) : hoare P (ret a) (fun a' w => a' = a /\ P w).
Proof. intros w Hw. unfold wp, ret. auto. Qed.

Lemma hoare_bind {A B} (m : M A) (f : A -> M B) P Q R :
  hoare P m Q -> (forall a, hoare (Q a) (f a) R) -> hoare P (bind m f) R.
Proof.
  intros Hm Hf w Hw. specialize (Hm w Hw). unfold wp, bind in *.
  destruct (m w) as [a w1|w1|w1]; try contradiction.
  apply (Hf a w1 Hm).
Qed.

Lemma hoare_bind_pure {A B} (m : M A) (f : A -> M B) P (F : A -> Prop) Q R :
  hoare P m (fun a w => F a /\ Q a w) ->
  (forall a, F a -> hoare (Q a) (f a) R) ->
  hoare P (bind m f) R.
Proof.
  intros Hm Hf. eapply hoare_bind; [exact Hm|].
  intros a w [HF HQ]. now apply Hf.
Qed.

Lemma hoare_bind_ex {A B X} (m : M A) (f : A -> M B) P (Q : X -> A -> world -> Prop) R :
  hoare P m (fun a w => exists x, Q x a w) ->
  (forall a x, hoare (Q x a) (f a) R) ->
  hoare P (bind m f) R.
Proof.
  intros Hm Hf. eapply hoare_bind; [exact Hm|].
  intros a w [x HQ]. now apply (Hf a x).
Qed.

Lemma hoare_conj {A} (m : M A) (P P' : world -> Prop) (Q Q' : A -> world -> Prop) :
  hoare P m Q -> hoare P' m Q' ->
  hoare (fun w => P w /\ P' w) m (fun a w => Q a w /\ Q' a w).
Proof.
  intros H1 H2 w [Hw Hw']. specialize (H1 w Hw). specialize (H2 w Hw').
  unfold wp in *. destruct (m w); auto.
Qed.

Lemma hoare_conseq {A} (m : M A) (P P' : world -> Prop) (Q Q' : A -> world -> Prop) :
  hoare P' m Q' -> (forall w, P w -> P' w) -> (forall a w, Q' a w -> Q a w) ->
  hoare P m Q.
Proof.
  intros H HP HQ w Hw. specialize (H w (HP w Hw)). unfold wp in *.
  destruct (m w); auto.
Qed.

Lemma hoare_repeatM n body (I : world -> Prop) :
  hoare I body (fun _ => I) -> hoare I (repeatM n body) (fun _ => I).
Proof.
  intros Hb. induction n as [|n IH]; simpl.
  - intros w Hw. exact Hw.
  - eapply hoare_bind; [exact Hb | intros ?; exact IH].
Qed.

Lemma hoare_world_of {A} (m : M A) P Q w :
  hoare P m Q -> P w -> exists a, m w = Ret a (world_of (m w)).
Proof.
  intros H Hw. specialize (H w Hw). unfold wp in H.
  destruct (m w) as [a w'| |]; try contradiction. now exists a.
Qed.

Lemma hoare_returns {A} (m : M A) P Q w :
  hoare P m Q -> P w -> exists a w', m w = Ret a w' /\ Q a w'.
Proof.
  intros H Hw. specialize (H w Hw). unfold wp in H.
  destruct (m w) as [a w'| |]; try contradiction. eauto.
Qed.

Lemma block_at_attrs w ok p need b sp bytes :
  p = Some b -> heap_attrs w !! b = Some (sp, bytes, true) -> ok sp = true -> need <= bytes ->
  exists blk, block_at w ok p need = Some (b, blk) /\ heap w !! b = Some blk /\ attrs blk = (sp, bytes, true).
Proof.
  intros -> Hb Hok Hneed. unfold heap_attrs in Hb.
  rewrite list_lookup_fmap in Hb.
  destruct (heap w !! b) as [blk|] eqn:Hblk; [|discriminate].
  simpl in Hb. unfold attrs in Hb. injection Hb as Hs Hbytes Hlive.
  exists blk. unfold block_at. rewrite Hblk, Hs, Hbytes, Hlive, Hok.
  simpl. destruct (Z.leb_spec need bytes); [|lia].
  unfold attrs. rewrite Hs, Hbytes, Hlive. auto.
Qed.

Lemma host_block_at w p need :
  host_ok (heap_attrs w) p need ->
  exists b blk, p = Some b /\ block_at w is_host p need = Some (b, blk) /\ heap w !! b = Some blk.
Proof.
  intros (b & sp & bytes & Hp & Hb & Hsp & Hneed).
  destruct (block_at_attrs w is_host p need b sp bytes Hp Hb Hsp Hneed) as (blk & H1 & H2 & _).
  eauto.
Qed.

Lemma heap_attrs_set_data w b blk f :
  heap w !! b = Some blk ->
  heap_attrs (set_block b (with_data blk f) w) = heap_attrs w.
Proof.
  intros Hb. unfold heap_attrs, set_block. simpl.
  rewrite list_fmap_insert. apply list_insert_id.
  rewrite list_lookup_fmap, Hb. reflexivity.
Qed.

Lemma block_at_lookup w ok p need b blk :
  block_at w ok p need = Some (b, blk) -> p = Some b /\ heap w !! b = Some blk.
Proof.
  unfold block_at. destruct p as [b'|]; [|discriminate].
  destruct (heap w !! b') as [blk'|] eqn:Hb; [|discriminate].
  destruct (_ && _ && _); [|discriminate]. intros [= -> ->]. auto.
Qed.

Lemma heap_attrs_emit a w : heap_attrs (emit a w) = heap_attrs w.
Proof. reflexivity. Qed.

Lemma heap_attrs_sent t w : heap_attrs (sent t w) = heap_attrs w.
Proof. reflexivity. Qed.

Lemma heap_attrs_set_events evs w : heap_attrs (set_events evs w) = heap_attrs w.
Proof. reflexivity. Qed.

Lemma heap_attrs_add_block blk w : heap_attrs (add_block blk w) = heap_attrs w ++ [attrs blk].
Proof. unfold heap_attrs, add_block. simpl. now rewrite map_app. Qed.

Lemma heap_attrs_length w : length (heap_attrs w) = length (heap w).
Proof. unfold heap_attrs. apply length_map. Qed.

Section Frame.
Variable E : env.
Variable H : list (space * Z * bool).

Ltac frame_start :=
  let w := fresh "w" in let Hw := fresh "Hw" in
  intros w Hw; unfold attrs_are in *; unfold wp.

Lemma printf_frame fmt args :
  hoare (attrs_are H) (printf fmt args) (fun _ => attrs_are H).
Proof. frame_start. exact Hw. Qed.

Lemma clock_now_frame : hoare (attrs_are H) (clock_now E) (fun _ => attrs_are H).
Proof. frame_start. exact Hw. Qed.

Lemma Timer_elapsed_frame beg_ :
  hoare (attrs_are H) (Timer_elapsed E beg_) (fun _ => attrs_are H).
Proof. frame_start. exact Hw. Qed.

Lemma uninitialised_float_frame :
  hoare (attrs_are H) (uninitialised_float E) (fun _ => attrs_are H).
Proof. frame_start. exact Hw. Qed.

Lemma nvtxRangeStart_frame msg :
  hoare (attrs_are H) (nvtxRangeStart msg) (fun _ => attrs_are H).
Proof. frame_start. exact Hw. Qed.

Lemma nvtxRangeEnd_frame id :
  hoare (attrs_are H) (nvtxRangeEnd id) (fun _ => attrs_are H).
Proof. frame_start. exact Hw. Qed.

Lemma memcpy_frame dst src bytes :
  host_ok H dst bytes -> host_ok H src bytes -> dst <> src ->
  hoare (attrs_are H) (memcpy dst src bytes) (fun _ => attrs_are H).
Proof.
  intros Hd Hs Hne. frame_start. subst H.
  destruct (host_block_at w dst bytes Hd) as (d & bd & -> & Hbd & Hld).
  destruct (host_block_at w src bytes Hs) as (s & bs & -> & Hbs & Hls).
  unfold memcpy. rewrite Hbd, Hbs.
  destruct (Nat.eqb_spec d s) as [->|Hds]; [congruence|]. simpl.
  rewrite heap_attrs_sent. apply (heap_attrs_set_data (emit _ w)). exact Hld.
Qed.

Lemma memset_frame dst c bytes :
  host_ok H dst bytes ->
  hoare (attrs_are H) (memset dst c bytes) (fun _ => attrs_are H).
Proof.
  intros Hd. frame_start. subst H.
  destruct (host_block_at w dst bytes Hd) as (d & bd & -> & Hbd & Hld).
  unfold memset. rewrite Hbd.
  apply (heap_attrs_set_data (emit _ w)). exact Hld.
Qed.

Lemma store_frame p i v :
  host_ok H p (sizeof_float * (i + 1)) -> 0 <= i ->
  hoare (attrs_are H) (store p i v) (fun _ => attrs_are H).
Proof.
  intros Hp Hi. frame_start. subst H.
  destruct (host_block_at w p _ Hp) as (b & blk & -> & Hb & Hl).
  unfold store. rewrite Hb.
  destruct (Z.leb_spec 0 i); [|lia].
  apply (heap_attrs_set_data w). exact Hl.
Qed.

Lemma load_frame p i :
  host_ok H p (sizeof_float * (i + 1)) -> 0 <= i ->
  hoare (attrs_are H) (load p i) (fun _ => attrs_are H).
Proof.
  intros Hp Hi. frame_start. subst H.
  destruct (host_block_at w p _ Hp) as (b & blk & -> & Hb & Hl).
  unfold load. rewrite Hb.
  destruct (Z.leb_spec 0 i); [|lia]. reflexivity.
Qed.

Hypothesis release : no_abort E = true.

Lemma checkCuda_frame r :
  hoare (attrs_are H) (checkCuda E r) (fun _ => attrs_are H).
Proof.
  frame_start. unfold checkCuda. unfold no_abort in release.
  destruct (env_debug E); [|exact Hw].
  destruct (is_success r); [exact Hw|].
  simpl in release. rewrite release. exact Hw.
Qed.

Lemma checked__frame (call : M cudaError_t) :
  hoare (attrs_are H) call (fun _ => attrs_are H) ->
  hoare (attrs_are H) (checked_ E call) (fun _ => attrs_are H).
Proof.
  intros Hc. unfold checked_.
  eapply hoare_bind; [exact Hc|]. intros r.
  eapply hoare_bind; [apply checkCuda_frame|]. intros r'.
  intros w Hw. exact Hw.
Qed.

Lemma checked_frame {A} (call : M (cudaError_t * A)) (Q : A -> world -> Prop) :
  hoare (attrs_are H) call (fun ro w => Q (snd ro) w) ->
  (forall out a w, Q out w -> Q out (emit a w)) ->
  hoare (attrs_are H) (checked E call) Q.
Proof.
  intros Hc HQ. unfold checked.
  eapply hoare_bind; [exact Hc|]. intros [r out]. simpl.
  intros w Hw. unfold wp, bind, checkCuda, ret. unfold no_abort in release.
  destruct (env_debug E); [|exact Hw].
  destruct (is_success r); [exact Hw|].
  simpl in release. rewrite release. now apply HQ.
Qed.

Lemma cudaMemcpy_frame dst src bytes kind :
  hoare (attrs_are H) (cudaMemcpy E dst src bytes kind) (fun _ => attrs_are H).
Proof.
  frame_start. unfold cudaMemcpy.
  destruct (env_cuda E (step w)); try exact Hw.
  destruct (block_at w (dst_space kind) dst bytes) as [[d bd]|] eqn:Hd; [|exact Hw].
  destruct (block_at w (src_space kind) src bytes) as [[s bs]|] eqn:Hs; [|exact Hw].
  rewrite heap_attrs_sent. rewrite <- Hw.
  apply (heap_attrs_set_data (emit _ w)).
  now apply block_at_lookup in Hd.
Qed.

Lemma cudaEventCreate_frame :
  hoare (attrs_are H) (cudaEventCreate E) (fun _ => attrs_are H).
Proof. frame_start. unfold cudaEventCreate. destruct (env_cuda E (step w)); exact Hw. Qed.

Lemma cudaEventRecord_frame e :
  hoare (attrs_are H) (cudaEventRecord E e) (fun _ => attrs_are H).
Proof.
  frame_start. unfold cudaEventRecord.
  destruct (env_cuda E (step w)); try exact Hw.
  destruct (event_at w e) as [[i st]|]; exact Hw.
Qed.

Lemma cudaEventSynchronize_frame e :
  hoare (attrs_are H) (cudaEventSynchronize E e) (fun _ => attrs_are H).
Proof.
  frame_start. unfold cudaEventSynchronize.
  destruct (env_cuda E (step w)); try exact Hw.
  destruct (event_at w e) as [[i [| | |]]|]; exact Hw.
Qed.

Lemma cudaEventElapsedTime_frame time start stop :
  hoare (attrs_are H) (cudaEventElapsedTime E time start stop) (fun _ => attrs_are H).
Proof.
  frame_start. unfold cudaEventElapsedTime.
  destruct (env_cuda E (step w)); try exact Hw.
  destruct (event_at w start) as [[i s1]|]; [|exact Hw].
  destruct (event_at w stop) as [[j s2]|]; [|exact Hw].
  destruct (is_completed s1 && is_completed s2); [exact Hw|].
  destruct (is_recorded s1 || is_recorded s2); exact Hw.
Qed.

Lemma cudaEventDestroy_frame e :
  hoare (attrs_are H) (cudaEventDestroy E e) (fun _ => attrs_are H).
Proof.
  frame_start. unfold cudaEventDestroy.
  destruct (env_cuda E (step w)); try exact Hw.
  destruct (event_at w e) as [[i st]|]; exact Hw.
Qed.

Lemma cudaGetDeviceProperties_frame device :
  hoare (attrs_are H) (cudaGetDeviceProperties E device) (fun _ => attrs_are H).
Proof.
  frame_start. unfold cudaGetDeviceProperties. destruct (env_cuda E (step w)); exact Hw.
Qed.

Lemma checked_same_frame {A} (call : M (cudaError_t * A)) :
  hoare (attrs_are H) call (fun _ => attrs_are H) ->
  hoare (attrs_are H) (checked E call) (fun _ => attrs_are H).
Proof.
  intros Hc. apply (checked_frame call (fun _ => attrs_are H)).
  - exact Hc.
  - intros out a w Hq. exact Hq.
Qed.

Lemma cudaMallocHost_frame bytes :
  host_allocs_ok E ->
  hoare (attrs_are H) (cudaMallocHost E bytes)
    (fun ro w' => snd ro = Some (length H) /\ attrs_are (H ++ [(HostPinned, bytes, true)]) w').
Proof.
  intros Hok. frame_start. unfold cudaMallocHost. rewrite Hok. simpl.
  rewrite heap_attrs_emit, heap_attrs_add_block, <- Hw, heap_attrs_length. auto.
Qed.

End Frame.

Lemma host_ok_weaken H p need need' :
  host_ok H p need -> need' <= need -> host_ok H p need'.
Proof.
  intros (b & sp & bytes & Hp & Hb & Hsp & Hneed) Hle.
  exists b, sp, bytes. repeat split; auto. lia.
Qed.

Lemma host_ok_app H extra p need :
  host_ok H p need -> host_ok (H ++ extra) p need.
Proof.
  intros (b & sp & bytes & Hp & Hb & Hsp & Hneed).
  exists b, sp, bytes. repeat split; auto.
  rewrite lookup_app_l; [exact Hb|]. now apply lookup_lt_Some in Hb.
Qed.

Ltac fr_prim :=
  first
    [ apply printf_frame | apply clock_now_frame | apply Timer_elapsed_frame
    | apply uninitialised_float_frame | apply nvtxRangeStart_frame | apply nvtxRangeEnd_frame
    | apply memcpy_frame; solve [auto]
    | apply memset_frame; solve [auto]
    | apply checked__frame; [solve [auto] |
        first [ apply cudaMemcpy_frame | apply cudaEventRecord_frame
              | apply cudaEventSynchronize_frame | apply cudaEventDestroy_frame ] ]
    | apply checked_same_frame; [solve [auto] |
        first [ apply cudaEventCreate_frame | apply cudaEventElapsedTime_frame
              | apply cudaGetDeviceProperties_frame ] ]
    | apply hoare_repeatM; fr_prim ].

Ltac fr_step := eapply hoare_bind; [ fr_prim | intros ?; cbv beta zeta ].


Section Returns.
Variable E : env.

Lemma profileH2HCopies_frame H h_a h_b n desc :
  host_ok H h_a (u32 (n * sizeof_float)) ->
  host_ok H h_b (u32 (n * sizeof_float)) ->
  h_a <> h_b ->
  hoare (attrs_are H) (profileH2HCopies E h_a h_b n desc) (fun _ => attrs_are H).
Proof.
  intros Ha Hb Hne. unfold profileH2HCopies, Timer_new, Timer_reset.
  repeat fr_step. fr_prim.
Qed.

Lemma verify_loop_frame H remaining i h_a h_b report :
  0 <= i ->
  host_ok H h_a (sizeof_float * (i + Z.of_nat remaining)) ->
  host_ok H h_b (sizeof_float * (i + Z.of_nat remaining)) ->
  hoare (attrs_are H) report (fun _ => attrs_are H) ->
  hoare (attrs_are H) (verify_loop remaining i h_a h_b report) (fun _ => attrs_are H).
Proof.
  intros Hi Ha Hb Hr. revert i Hi Ha Hb.
  induction remaining as [|k IH]; intros i Hi Ha Hb; simpl.
  - intros w Hw. exact Hw.
  - eapply hoare_bind.
    { apply load_frame; [|exact Hi]. eapply host_ok_weaken; [exact Ha|]. unfold sizeof_float. lia. }
    intros x. eapply hoare_bind.
    { apply load_frame; [|exact Hi]. eapply host_ok_weaken; [exact Hb|]. unfold sizeof_float. lia. }
    intros y. destruct (Float.ne x y); [exact Hr|].
    apply IH; [lia| |].
    + eapply host_ok_weaken; [exact Ha|]. unfold sizeof_float. lia.
    + eapply host_ok_weaken; [exact Hb|]. unfold sizeof_float. lia.
Qed.

Hypothesis release : no_abort E = true.

Lemma round_trip_frame H (m1 m2 : M cudaError_t) :
  hoare (attrs_are H) m1 (fun _ => attrs_are H) ->
  hoare (attrs_are H) m2 (fun _ => attrs_are H) ->
  hoare (attrs_are H) (checked_ E m1 >> checked_ E m2) (fun _ => attrs_are H).
Proof.
  intros H1 H2. eapply hoare_bind; [apply checked__frame; auto|].
  intros ?. apply checked__frame; auto.
Qed.

Lemma profileCopies_frame H h_a h_b d n desc :
  0 <= n ->
  host_ok H h_a (sizeof_float * n) ->
  host_ok H h_b (sizeof_float * n) ->
  hoare (attrs_are H) (profileCopies E h_a h_b d n desc) (fun _ => attrs_are H).
Proof.
  intros Hn Ha Hb. unfold profileCopies.
  fr_step.
  eapply hoare_bind;
    [apply hoare_repeatM, round_trip_frame; apply cudaMemcpy_frame | intros ?; cbv beta zeta].
  repeat fr_step.
  eapply hoare_bind.
  { apply verify_loop_frame; [lia| | |fr_prim]; rewrite Z2Nat.id by lia; assumption. }
  intros ?. fr_step. fr_prim.
Qed.

Hypothesis allocs : host_allocs_ok E.

Lemma checked_mallocHost_frame H bytes :
  hoare (attrs_are H) (checked E (cudaMallocHost E bytes))
    (fun p w' => p = Some (length H) /\ attrs_are (H ++ [(HostPinned, bytes, true)]) w').
Proof.
  apply (checked_frame E H release (cudaMallocHost E bytes)
           (fun p w' => p = Some (length H) /\ attrs_are (H ++ [(HostPinned, bytes, true)]) w')).
  - apply cudaMallocHost_frame, allocs.
  - intros out a w Hq. exact Hq.
Qed.

Lemma host_ok_last H sp bytes need :
  is_host sp = true -> need <= bytes ->
  host_ok (H ++ [(sp, bytes, true)]) (Some (length H)) need.
Proof.
  intros Hsp Hneed. exists (length H), sp, bytes. repeat split; auto.
  rewrite lookup_app_r by lia. now rewrite Nat.sub_diag.
Qed.

Lemma profileD2DCopies_frame H d_a d_b n :
  0 <= n < 2 ^ 30 ->
  hoare (attrs_are H) (profileD2DCopies E d_a d_b n)
    (fun _ => attrs_are (H ++ [(HostPinned, u32 (n * sizeof_float), true);
                               (HostPinned, u32 (n * sizeof_float), true)])).
Proof.
  intros Hn. unfold profileD2DCopies.
  assert (Hbytes : u32 (n * sizeof_float) = sizeof_float * n).
  { unfold u32, sizeof_float. rewrite Z.mod_small; lia. }
  fr_step.
  eapply hoare_bind;
    [apply hoare_repeatM, round_trip_frame; apply cudaMemcpy_frame | intros ?; cbv beta zeta].
  repeat fr_step.
  eapply hoare_bind_pure; [apply checked_mallocHost_frame|]. intros h_a ->. cbv beta.
  eapply hoare_bind_pure; [apply checked_mallocHost_frame|]. intros h_b ->. cbv beta.
  rewrite <- app_assoc. simpl.
  set (H' := H ++ _).
  assert (Ha : host_ok H' (Some (length H)) (sizeof_float * n)).
  { subst H'. change (H ++ [?x; ?y]) with (H ++ [x] ++ [y]). rewrite app_assoc.
    apply host_ok_app, host_ok_last; [reflexivity|lia]. }
  assert (Hb : host_ok H' (Some (length (H ++ [(HostPinned, u32 (n * sizeof_float), true)])))
                 (sizeof_float * n)).
  { subst H'. change (H ++ [?x; ?y]) with (H ++ [x] ++ [y]). rewrite app_assoc.
    apply host_ok_last; [reflexivity|lia]. }
  repeat fr_step.
  eapply hoare_bind.
  { apply verify_loop_frame; [lia| | |fr_prim]; rewrite Z2Nat.id by lia; assumption. }
  intros ?. fr_step. fr_prim.
Qed.

Lemma outstanding_attrs s w :
  outstanding s w =
  length (List.filter (fun a : space * Z * bool => snd a && space_eqb (fst (fst a)) s)
            (heap_attrs w)).
Proof.
  unfold outstanding, heap_attrs.
  induction (heap w) as [|blk l IH]; simpl; [reflexivity|].
  destruct (blk_live blk && space_eqb (blk_space blk) s); simpl; now rewrite IH.
Qed.
End Returns.

Lemma heap_attrs_release w b blk :
  heap w !! b = Some blk ->
  heap_attrs (set_block b (released blk) w)
  = <[b := (blk_space blk, blk_bytes blk, false)]> (heap_attrs w).
Proof.
  intros Hb. unfold heap_attrs, set_block. simpl. now rewrite list_fmap_insert.
Qed.

Section Cleanup.
Variable E : env.

Lemma malloc_frame H bytes :
  host_allocs_ok E ->
  hoare (attrs_are H) (malloc E bytes)
    (fun p w' => p = Some (length H) /\ attrs_are (H ++ [(HostPageable, bytes, true)]) w').
Proof.
  intros Hok w Hw. unfold attrs_are in *. unfold wp, malloc. rewrite Hok.
  rewrite heap_attrs_emit, heap_attrs_add_block, <- Hw, heap_attrs_length. auto.
Qed.

Lemma cudaMalloc_frame H bytes :
  hoare (attrs_are H) (cudaMalloc E bytes)
    (fun _ w' => exists extra, attrs_are (H ++ extra) w').
Proof.
  intros w Hw. unfold attrs_are in *. unfold wp, cudaMalloc.
  destruct (env_cuda E (step w)).
  - exists [(DeviceMem, bytes, true)].
    now rewrite heap_attrs_emit, heap_attrs_add_block, <- Hw.
  - exists []. now rewrite app_nil_r.
  - exists []. now rewrite app_nil_r.
  - exists []. now rewrite app_nil_r.
  - exists []. now rewrite app_nil_r.
  - exists []. now rewrite app_nil_r.
Qed.

Lemma init_loop_frame H remaining i h_a :
  0 <= i ->
  host_ok H h_a (sizeof_float * (i + Z.of_nat remaining)) ->
  hoare (attrs_are H) (init_loop remaining i h_a) (fun _ => attrs_are H).
Proof.
  intros Hi Ha. revert i Hi Ha.
  induction remaining as [|k IH]; intros i Hi Ha; simpl.
  - intros w Hw. exact Hw.
  - eapply hoare_bind.
    { apply store_frame; [|exact Hi]. eapply host_ok_weaken; [exact Ha|]. unfold sizeof_float. lia. }
    intros ?. apply IH; [lia|].
    eapply host_ok_weaken; [exact Ha|]. unfold sizeof_float. lia.
Qed.

Lemma cuda_release_pageable sp q mk p :
  sp <> HostPageable ->
  hoare (pageable_live p) (cuda_release E sp q mk) (fun _ => pageable_live p).
Proof.
  intros Hsp w Hw. unfold wp, cuda_release.
  destruct (env_cuda E (step w)); try exact Hw.
  destruct (block_at w (space_eqb sp) q 0) as [[b blk]|] eqn:Hq; [|exact Hw].
  destruct Hw as (b' & bytes & -> & Hb' & Hpos).
  exists b', bytes. split; [reflexivity|]. split; [|exact Hpos].
  unfold block_at in Hq. destruct q as [bq|]; [|discriminate].
  destruct (heap w !! bq) as [blkq|] eqn:Hbq; [|discriminate].
  destruct (blk_live blkq && space_eqb sp (blk_space blkq) && (0 <=? blk_bytes blkq)) eqn:Hc;
    [|discriminate].
  injection Hq as <- <-.
  rewrite (heap_attrs_release (emit _ w) bq blkq Hbq).
  rewrite heap_attrs_emit.
  destruct (decide (bq = b')) as [->|Hne].
  - exfalso. unfold heap_attrs in Hb'. rewrite list_lookup_fmap, Hbq in Hb'.
    simpl in Hb'. injection Hb' as Hs _ _.
    rewrite Hs in Hc. destruct sp; simpl in Hc; try congruence;
      rewrite andb_false_r in Hc; discriminate.
  - now rewrite list_lookup_insert_ne.
Qed.

Lemma free_returns p :
  hoare (pageable_live p) (free p) (fun _ _ => True).
Proof.
  intros w (b & bytes & -> & Hb & Hpos). unfold wp, free.
  destruct (block_at_attrs w (space_eqb HostPageable) (Some b) 0 b HostPageable bytes)
    as (blk & Hblk & Hl & Hattrs); auto.
  now rewrite Hblk.
Qed.

Lemma free_frame p p' :
  p <> p' ->
  hoare (fun w => pageable_live p w /\ pageable_live p' w) (free p)
    (fun _ => pageable_live p').
Proof.
  intros Hne w [(b & bytes & -> & Hb & Hpos) (b' & bytes' & -> & Hb' & Hpos')].
  unfold wp, free.
  destruct (block_at_attrs w (space_eqb HostPageable) (Some b) 0 b HostPageable bytes)
    as (blk & Hblk & Hl & Hattrs); auto.
  rewrite Hblk.
  exists b', bytes'. split; [reflexivity|]. split; [|exact Hpos'].
  rewrite (heap_attrs_release (emit _ w) b blk Hl), heap_attrs_emit.
  rewrite list_lookup_insert_ne; [exact Hb'|congruence].
Qed.

Lemma cudaDeviceReset_returns P :
  hoare P (cudaDeviceReset E) (fun _ _ => True).
Proof. intros w _. unfold wp, cudaDeviceReset. now destruct (env_cuda E (step w)). Qed.

Hypothesis release : no_abort E = true.
Hypothesis allocs : host_allocs_ok E.

Lemma memBenchmark_from_returns n w :
  0 <= n < 2 ^ 30 ->
  exists w', memBenchmark_from E n w = Ret 0 w'.
Proof.
  intros Hn.
  assert (Hbytes : u32 (n * sizeof_float) = sizeof_float * n).
  { unfold u32, sizeof_float. rewrite Z.mod_small; lia. }
  cut (hoare (attrs_are (heap_attrs w)) (memBenchmark_from E n) (fun r _ => r = 0)).
  { intros Hh. destruct (hoare_returns _ _ _ w Hh eq_refl) as (a & w' & Hr & ->). eauto. }
  generalize (heap_attrs w). intros H. unfold memBenchmark_from. cbv zeta.
  rewrite Hbytes.
  assert (Hpos : 0 <= sizeof_float * n) by (unfold sizeof_float; lia).
  eapply hoare_bind_pure; [apply malloc_frame, allocs|]. intros h_aPageable Ha. cbv beta.
  eapply hoare_bind_pure; [apply malloc_frame, allocs|]. intros h_bPageable Hb. cbv beta.
  eapply hoare_bind_pure; [apply checked_mallocHost_frame; assumption|].
  intros h_aPinned Hqa. cbv beta.
  eapply hoare_bind_pure; [apply checked_mallocHost_frame; assumption|].
  intros h_bPinned Hqb. cbv beta.
  assert (Ha' : h_aPageable = Some (length H)) by exact Ha.
  assert (Hb' : h_bPageable = Some (length H + 1)%nat).
  { rewrite Hb, length_app. reflexivity. }
  assert (Hqa' : h_aPinned = Some (length H + 2)%nat).
  { rewrite Hqa, !length_app. simpl. f_equal. lia. }
  assert (Hqb' : h_bPinned = Some (length H + 3)%nat).
  { rewrite Hqb, !length_app. simpl. f_equal. lia. }
  clear Ha Hb Hqa Hqb.
  rewrite <- !app_assoc. simpl.
  set (H4 := H ++ _).
  assert (L0 : H4 !! length H = Some (HostPageable, sizeof_float * n, true)).
  { subst H4. rewrite lookup_app_r by lia. now rewrite Nat.sub_diag. }
  assert (L1 : H4 !! (length H + 1)%nat = Some (HostPageable, sizeof_float * n, true)).
  { subst H4. rewrite lookup_app_r by lia.
    now replace (length H + 1 - length H)%nat with 1%nat by lia. }
  assert (L2 : H4 !! (length H + 2)%nat = Some (HostPinned, sizeof_float * n, true)).
  { subst H4. rewrite lookup_app_r by lia.
    now replace (length H + 2 - length H)%nat with 2%nat by lia. }
  assert (L3 : H4 !! (length H + 3)%nat = Some (HostPinned, sizeof_float * n, true)).
  { subst H4. rewrite lookup_app_r by lia.
    now replace (length H + 3 - length H)%nat with 3%nat by lia. }
  assert (Oa : host_ok H4 h_aPageable (sizeof_float * n)).
  { exists (length H), HostPageable, (sizeof_float * n). repeat split; auto. lia. }
  assert (Ob : host_ok H4 h_bPageable (sizeof_float * n)).
  { exists (length H + 1)%nat, HostPageable, (sizeof_float * n). repeat split; auto. lia. }
  assert (Oqa : host_ok H4 h_aPinned (sizeof_float * n)).
  { exists (length H + 2)%nat, HostPinned, (sizeof_float * n). repeat split; auto. lia. }
  assert (Oqb : host_ok H4 h_bPinned (sizeof_float * n)).
  { exists (length H + 3)%nat, HostPinned, (sizeof_float * n). repeat split; auto. lia. }
  clearbody H4.
  eapply hoare_bind_ex.
  { apply (checked_frame E H4 release (cudaMalloc E (sizeof_float * n))
             (fun _ w' => exists extra, attrs_are (H4 ++ extra) w')).
    - apply cudaMalloc_frame.
    - intros out a w0 Hq. exact Hq. }
  intros d_a e1. cbv beta.
  eapply hoare_bind_ex.
  { apply (checked_frame E (H4 ++ e1) release (cudaMalloc E (sizeof_float * n))
             (fun _ w' => exists extra, attrs_are ((H4 ++ e1) ++ extra) w')).
    - apply cudaMalloc_frame.
    - intros out a w0 Hq. exact Hq. }
  intros d_b e2. cbv beta.
  rewrite <- app_assoc.
  assert (L0' := lookup_app_l_Some _ (e1 ++ e2) _ _ L0).
  assert (L1' := lookup_app_l_Some _ (e1 ++ e2) _ _ L1).
  apply (host_ok_app _ (e1 ++ e2)) in Oa, Ob, Oqa, Oqb.
  set (H6 := H4 ++ e1 ++ e2) in *. clearbody H6. clear L0 L1 L2 L3.
  assert (Nab : h_aPageable <> h_bPageable) by (rewrite Ha', Hb'; intros [=]; lia).
  assert (Nqab : h_aPinned <> h_bPinned) by (rewrite Hqa', Hqb'; intros [=]; lia).
  assert (Nqp : h_aPinned <> h_aPageable) by (rewrite Hqa', Ha'; intros [=]; lia).
  eapply hoare_bind.
  { apply init_loop_frame; [lia|]. rewrite Z2Nat.id by lia. exact Oa. }
  intros ?. cbv beta.
  repeat fr_step.
  eapply hoare_bind.
  { apply profileH2HCopies_frame; rewrite ?Hbytes; auto. }
  intros ?. cbv beta. repeat fr_step.
  eapply hoare_bind.
  { apply profileH2HCopies_frame; rewrite ?Hbytes; auto. }
  intros ?. cbv beta. repeat fr_step.
  eapply hoare_bind.
  { apply profileCopies_frame; auto; lia. }
  intros ?. cbv beta. repeat fr_step.
  eapply hoare_bind.
  { apply profileCopies_frame; auto; lia. }
  intros ?. cbv beta. repeat fr_step.
  eapply hoare_bind.
  { apply profileD2DCopies_frame; auto. }
  intros ?. cbv beta. repeat fr_step.
  (* cleanup *)
  eapply hoare_conseq with
    (P' := fun w => pageable_live h_aPageable w /\ pageable_live h_bPageable w)
    (Q' := fun r _ => r = 0); [| |auto].
  2:{ intros w0 Hw0. unfold attrs_are in Hw0. unfold pageable_live. rewrite Hw0.
      split; [exists (length H)|exists (length H + 1)%nat];
        exists (sizeof_float * n); repeat split; auto;
        now apply lookup_app_l_Some. }
  eapply hoare_bind.
  { apply hoare_conj; apply cuda_release_pageable; discriminate. }
  intros ?. cbv beta.
  eapply hoare_bind.
  { apply hoare_conj; apply cuda_release_pageable; discriminate. }
  intros ?. cbv beta.
  eapply hoare_bind.
  { apply hoare_conj; apply cuda_release_pageable; discriminate. }
  intros ?. cbv beta.
  eapply hoare_bind; [apply free_frame, Nab|]. intros ?. cbv beta.
  eapply hoare_bind; [apply free_returns|]. intros ?. cbv beta.
  eapply hoare_bind; [apply cudaDeviceReset_returns|]. intros ?. cbv beta.
  intros w0 _. reflexivity.
Qed.
End Cleanup.

(** ** What the log of a run shows *)

Lemma emitted_app w w' l : log w' = log w ++ l -> emitted w w' = l.
Proof. intros Hl. unfold emitted. rewrite Hl. apply drop_app_length. Qed.

Lemma shaped_returned {A} (m : M A) S w a w' :
  shaped m S -> m w = Ret a w' -> S a (shape (emitted w w')).
Proof.
  intros Hs Hr. destruct (Hs w) as (l & Hl & Hsl). rewrite Hr in Hl, Hsl. simpl in Hl.
  now rewrite (emitted_app _ _ _ Hl).
Qed.

Lemma shaped_always {A} (m : M A) S w :
  shaped m S -> exists a t, S a (shape (emitted w (world_of (m w))) ++ t).
Proof.
  intros Hs. destruct (Hs w) as (l & Hl & Hsl).
  rewrite (emitted_app _ _ _ Hl).
  destruct (m w); eauto. exists a, []. now rewrite app_nil_r.
Qed.

Lemma erase_copy_of a :
  match erase a with
  | Some a' => copy_of a' = copy_of a /\ is_marker a' = is_marker a
  | None => copy_of a = None /\ is_marker a = false
  end.
Proof. destruct a; simpl; auto. Qed.

Lemma warm_up_shape l : warm_up (shape l) = warm_up l.
Proof.
  induction l as [|a l IH]; simpl; [reflexivity|].
  pose proof (erase_copy_of a) as Ha. destruct (erase a) as [a'|].
  - destruct Ha as [Hc Hm]. simpl. rewrite Hc, Hm, IH. reflexivity.
  - destruct Ha as [Hc Hm]. rewrite Hc, Hm. exact IH.
Qed.

Lemma timed_regions_shape timing cur l :
  timed_regions timing cur (shape l) = timed_regions timing cur l.
Proof.
  revert timing cur. induction l as [|a l IH]; intros timing cur; simpl; [reflexivity|].
  pose proof (erase_copy_of a) as Ha. destruct (erase a) as [a'|].
  - destruct Ha as [Hc Hm]. simpl. rewrite Hc, Hm.
    destruct (is_marker a); [destruct timing; now rewrite IH|].
    destruct (copy_of a); apply IH.
  - destruct Ha as [Hc Hm]. rewrite Hc, Hm. apply IH.
Qed.

Lemma sync_scan_shape synced l : sync_scan synced (shape l) = sync_scan synced l.
Proof.
  revert synced. induction l as [|a l IH]; intros synced; simpl; [reflexivity|].
  destruct a; simpl; rewrite ?IH; reflexivity.
Qed.

Lemma filter_shape (f : action -> bool) l :
  (forall a, match erase a with
             | Some a' => f a' = f a /\ (f a = true -> a' = a)
             | None => f a = false
             end) ->
  List.filter f (shape l) = List.filter f l.
Proof.
  intros Hf. induction l as [|a l IH]; simpl; [reflexivity|].
  specialize (Hf a). destruct (erase a) as [a'|]; simpl.
  - destruct Hf as [Hf Ha]. rewrite Hf, IH.
    destruct (f a); [now rewrite Ha|reflexivity].
  - rewrite Hf. exact IH.
Qed.

Lemma headers_shape l : List.filter is_header (shape l) = List.filter is_header l.
Proof. apply filter_shape. intros a. destruct a; simpl; auto; split; auto; discriminate. Qed.

Lemma failure_lines_shape l :
  List.filter is_failure_line (shape l) = List.filter is_failure_line l.
Proof. apply filter_shape. intros a. destruct a; simpl; auto; split; auto; discriminate. Qed.

Lemma sync_scan_app synced l1 l2 :
  sync_scan synced (l1 ++ l2) =
  match sync_scan synced l1 with
  | Some synced' => sync_scan synced' l2
  | None => None
  end.
Proof.
  revert synced. induction l1 as [|a l1 IH]; intros synced; simpl; [reflexivity|].
  destruct a; simpl; try apply IH.
  destruct (existsb (event_eqb stop) synced); [apply IH|reflexivity].
Qed.

Lemma event_eqb_refl e : event_eqb e e = true.
Proof. destruct e; simpl; [apply Nat.eqb_refl|reflexivity]. Qed.

(** The copies of [profileH2HCopies]: 32 to warm up, then 100 timed copies
    of [h_b] into [h_a] and 100 timed copies of [h_a] into [h_b]. *)
Lemma H2H_shape_protocol E h_a h_b n desc t0 t1 t2 t3 :
  let a_from_b := mkCopy cudaMemcpyHostToHost h_a h_b (u32 (n * sizeof_float)) in
  let b_from_a := mkCopy cudaMemcpyHostToHost h_b h_a (u32 (n * sizeof_float)) in
  warm_up (H2H_shape E h_a h_b n desc t0 t1 t2 t3) = repeat a_from_b 32 /\
  timed_regions false [] (H2H_shape E h_a h_b n desc t0 t1 t2 t3)
  = [repeat a_from_b 100; repeat b_from_a 100].
Proof. split; reflexivity. Qed.

Lemma PC_shape_protocol h_a h_b d n desc s e time1 time2 failed :
  let h2d := mkCopy cudaMemcpyHostToDevice d h_a (u32 (n * sizeof_float)) in
  let d2h := mkCopy cudaMemcpyDeviceToHost h_b d (u32 (n * sizeof_float)) in
  warm_up (PC_shape h_a h_b d n desc s e time1 time2 failed)
  = concat (repeat [h2d; d2h] 16) /\
  timed_regions false [] (PC_shape h_a h_b d n desc s e time1 time2 failed)
  = [[h2d]; [d2h]].
Proof. destruct failed; split; reflexivity. Qed.

Lemma D2D_shape_protocol d_a d_b n s e time1 time2 h_a h_b failed :
  let b_from_a := mkCopy cudaMemcpyDeviceToDevice d_b d_a (u32 (n * sizeof_float)) in
  let a_from_b := mkCopy cudaMemcpyDeviceToDevice d_a d_b (u32 (n * sizeof_float)) in
  warm_up (D2D_shape d_a d_b n s e time1 time2 h_a h_b failed)
  = concat (repeat [b_from_a; a_from_b] 16) /\
  timed_regions false [] (D2D_shape d_a d_b n s e time1 time2 h_a h_b failed)
  = [repeat b_from_a 100; repeat a_from_b 100].
Proof. destruct failed; split; reflexivity. Qed.



(** *** Synchronisation *)

Lemma always_synced_app l1 l2 :
  always_synced l1 -> always_synced l2 -> always_synced (l1 ++ l2).
Proof.
  intros H1 H2 synced. rewrite sync_scan_app.
  destruct (H1 synced) as [s1 ->]. apply H2.
Qed.

Lemma always_synced_prefix l t : always_synced (l ++ t) -> always_synced l.
Proof.
  intros H synced. specialize (H synced). rewrite sync_scan_app in H.
  destruct (sync_scan synced l) as [s1|]; [eauto|]. destruct H; discriminate.
Qed.

Lemma always_synced_no_read l : forallb reads_no_time l = true -> always_synced l.
Proof.
  induction l as [|a l IH]; simpl; intros Hl synced; [eauto|].
  apply andb_prop in Hl as [Ha Hl]. destruct a; simpl; try apply (IH Hl); discriminate.
Qed.

(** One timed region of the device routines: record, copies, record,
    synchronise, read. *)
Lemma always_synced_region start stop time body :
  forallb reads_no_time body = true ->
  always_synced
    ([a_cudaEventRecord start cudaSuccess] ++ body ++
     [a_cudaEventRecord stop cudaSuccess;
      a_cudaEventSynchronize stop cudaSuccess;
      a_cudaEventElapsedTime start stop time cudaSuccess]).
Proof.
  intros Hb. apply always_synced_app; [now apply always_synced_no_read|].
  apply always_synced_app; [now apply always_synced_no_read|].
  intros synced. simpl. rewrite event_eqb_refl. simpl. eauto.
Qed.

Lemma forallb_repeat {A} (f : A -> bool) x n : f x = true -> forallb f (repeat x n) = true.
Proof. intros Hx. induction n; simpl; [reflexivity|]. now rewrite Hx. Qed.

Lemma always_synced_H2H E h_a h_b n desc t0 t1 t2 t3 :
  always_synced (H2H_shape E h_a h_b n desc t0 t1 t2 t3).
Proof. apply always_synced_no_read. reflexivity. Qed.

Lemma always_synced_PC h_a h_b d n desc s e time1 time2 failed :
  always_synced (PC_shape h_a h_b d n desc s e time1 time2 failed).
Proof.
  unfold PC_shape. cbv zeta.
  apply always_synced_app; [now apply always_synced_no_read|].
  apply always_synced_app; [now apply always_synced_no_read|].
  set (h2d := a_cudaMemcpy d h_a _ _ _). set (d2h := a_cudaMemcpy h_b d _ _ _).
  change (always_synced
    ([a_cudaEventCreate s cudaSuccess; a_cudaEventCreate e cudaSuccess] ++
     ([a_cudaEventRecord s cudaSuccess] ++ [h2d] ++
      [a_cudaEventRecord e cudaSuccess; a_cudaEventSynchronize e cudaSuccess;
       a_cudaEventElapsedTime s e time1 cudaSuccess]) ++
     [a_printf "  Host to Device bandwidth (GB/s): %.2f\n"
        [ArgDouble (hd_reported (u32 (n * sizeof_float)) time1)]] ++
     ([a_cudaEventRecord s cudaSuccess] ++ [d2h] ++
      [a_cudaEventRecord e cudaSuccess; a_cudaEventSynchronize e cudaSuccess;
       a_cudaEventElapsedTime s e time2 cudaSuccess]) ++
     [a_printf "  Device to Host bandwidth (GB/s): %.2f\n"
        [ArgDouble (hd_reported (u32 (n * sizeof_float)) time2)]] ++
     (if failed then [a_printf "*** %s transfers failed ***" [ArgStr desc]] else []) ++
     [a_cudaEventDestroy s cudaSuccess; a_cudaEventDestroy e cudaSuccess])).
  repeat first
    [ apply always_synced_region; reflexivity
    | apply always_synced_no_read; destruct failed; reflexivity
    | apply always_synced_app ].
Qed.

Lemma always_synced_nil : always_synced [].
Proof. intros synced. simpl. eauto. Qed.

Lemma always_synced_skip a l :
  reads_no_time a = true -> always_synced l -> always_synced (a :: l).
Proof.
  intros Ha Hl. change (always_synced ([a] ++ l)).
  apply always_synced_app; [|exact Hl].
  apply always_synced_no_read. simpl. now rewrite Ha.
Qed.

Lemma always_synced_sync_read start stop time l :
  always_synced l ->
  always_synced (a_cudaEventSynchronize stop cudaSuccess
                 :: a_cudaEventElapsedTime start stop time cudaSuccess :: l).
Proof. intros Hl synced. simpl. rewrite event_eqb_refl. simpl. apply Hl. Qed.

Lemma always_synced_D2D d_a d_b n s e time1 time2 h_a h_b failed :
  always_synced (D2D_shape d_a d_b n s e time1 time2 h_a h_b failed).
Proof.
  unfold D2D_shape. cbv zeta. destruct failed; simpl.
  all: repeat first [ apply always_synced_sync_read
                    | apply always_synced_skip; [reflexivity|]
                    | apply always_synced_nil ].
Qed.

Lemma always_synced_MB E n s : is_MB_shape E n s -> always_synced s.
Proof.
  intros (pa & pb & qa & qb & da & db & name & s1 & s2 & s3 & s4 & s5
          & (t0 & t1 & t2 & t3 & ->) & (t0' & t1' & t2' & t3' & ->)
          & (e1 & e2 & x1 & x2 & f1 & ->) & (e3 & e4 & x3 & x4 & f2 & ->)
          & (e5 & e6 & x5 & x6 & ha & hb & f3 & ->) & ->).
  unfold MB_shape. cbv zeta.
  apply always_synced_app; [apply always_synced_no_read; reflexivity|].
  apply always_synced_app; [apply always_synced_H2H|].
  apply always_synced_app; [apply always_synced_no_read; reflexivity|].
  apply always_synced_app; [apply always_synced_H2H|].
  apply always_synced_app; [apply always_synced_no_read; reflexivity|].
  apply always_synced_app; [apply always_synced_PC|].
  apply always_synced_app; [apply always_synced_no_read; reflexivity|].
  apply always_synced_app; [apply always_synced_PC|].
  apply always_synced_app; [apply always_synced_no_read; reflexivity|].
  apply always_synced_app; [apply always_synced_D2D|].
  apply always_synced_no_read; reflexivity.
Qed.

Lemma sync_before_read_shaped {A} (m : M A) (S : A -> list action -> Prop) w :
  shaped m S -> (forall a s, S a s -> always_synced s) ->
  sync_before_read (emitted w (world_of (m w))) = true.
Proof.
  intros Hs HS. destruct (shaped_always m S w Hs) as (a & t & Ha).
  apply HS, always_synced_prefix in Ha. destruct (Ha []) as [synced' Hsc].
  unfold sync_before_read. rewrite <- sync_scan_shape, Hsc. reflexivity.
Qed.


(** The scan does reject a read that no synchronisation precedes. *)
Example sync_scan_rejects_unsynchronised_read :
  sync_before_read
    [a_cudaEventRecord (Some 0%nat) cudaSuccess;
     a_cudaEventRecord (Some 1%nat) cudaSuccess;
     a_cudaEventElapsedTime (Some 0%nat) (Some 1%nat) Float.zero cudaSuccess] = false
  /\ sync_before_read
    [a_cudaEventRecord (Some 1%nat) cudaSuccess;
     a_cudaEventSynchronize (Some 1%nat) cudaSuccess;
     a_cudaEventRecord (Some 1%nat) cudaSuccess;
     a_cudaEventElapsedTime (Some 0%nat) (Some 1%nat) Float.zero cudaSuccess] = false.
Proof. split; reflexivity. Qed.

(** *** The report and the sizes *)

Lemma copies_shape l : copies (shape l) = copies l.
Proof.
  induction l as [|a l IH]; simpl; [reflexivity|].
  pose proof (erase_copy_of a) as Ha. destruct (erase a) as [a'|].
  - destruct Ha as [Hc _]. simpl. rewrite Hc, IH. reflexivity.
  - destruct Ha as [Hc _]. rewrite Hc. exact IH.
Qed.

Lemma MB_shape_headers E n s :
  is_MB_shape E n s -> List.filter is_header s = report_headers.
Proof.
  intros (pa & pb & qa & qb & da & db & name & s1 & s2 & s3 & s4 & s5
          & (t0 & t1 & t2 & t3 & ->) & (t0' & t1' & t2' & t3' & ->)
          & (e1 & e2 & x1 & x2 & f1 & ->) & (e3 & e4 & x3 & x4 & f2 & ->)
          & (e5 & e6 & x5 & x6 & ha & hb & f3 & ->) & ->).
  destruct f1, f2, f3; reflexivity.
Qed.

Lemma MB_shape_copies E n s :
  is_MB_shape E n s ->
  map cp_bytes (copies s) = repeat (u32 (n * sizeof_float)) 767.
Proof.
  intros (pa & pb & qa & qb & da & db & name & s1 & s2 & s3 & s4 & s5
          & (t0 & t1 & t2 & t3 & ->) & (t0' & t1' & t2' & t3' & ->)
          & (e1 & e2 & x1 & x2 & f1 & ->) & (e3 & e4 & x3 & x4 & f2 & ->)
          & (e5 & e6 & x5 & x6 & ha & hb & f3 & ->) & ->).
  unfold MB_shape, H2H_shape, PC_shape, D2D_shape. cbv zeta.
  generalize (u32 (n * sizeof_float)). intros B.
  destruct f1, f2, f3; reflexivity.
Qed.

Lemma nElements_value : nElements = 4194304.
Proof. reflexivity. Qed.


(** *** Return status *)

Lemma no_wrap_nElements : 0 <= nElements < 2 ^ 30.
Proof. rewrite nElements_value. lia. Qed.

Lemma memBenchmark_returns E w :
  no_abort E = true -> host_allocs_ok E -> exists w', memBenchmark E w = Ret 0 w'.
Proof.
  intros Hrel Hall. unfold memBenchmark.
  apply memBenchmark_from_returns; auto. apply no_wrap_nElements.
Qed.

Lemma E_ok_host_allocs_ok : host_allocs_ok E_ok.
Proof. intros k. reflexivity. Qed.





(** *** Allocations *)

Lemma MB_shape_alloc_calls E n s :
  is_MB_shape E n s ->
  exists h_aPageable h_bPageable h_aPinned h_bPinned d_a d_b h_a h_b,
    let bytes := u32 (n * sizeof_float) in
    List.filter is_alloc_call s
    = [a_malloc bytes h_aPageable; a_malloc bytes h_bPageable;
       a_cudaMallocHost bytes h_aPinned cudaSuccess;
       a_cudaMallocHost bytes h_bPinned cudaSuccess;
       a_cudaMalloc bytes d_a cudaSuccess; a_cudaMalloc bytes d_b cudaSuccess;
       a_cudaMallocHost bytes h_a cudaSuccess; a_cudaMallocHost bytes h_b cudaSuccess] /\
    List.filter is_release_call s
    = [a_cudaFree d_a cudaSuccess;
       a_cudaFreeHost h_aPinned cudaSuccess; a_cudaFreeHost h_bPinned cudaSuccess;
       a_free h_aPageable; a_free h_bPageable].
Proof.
  intros (pa & pb & qa & qb & da & db & name & s1 & s2 & s3 & s4 & s5
          & (t0 & t1 & t2 & t3 & ->) & (t0' & t1' & t2' & t3' & ->)
          & (e1 & e2 & x1 & x2 & f1 & ->) & (e3 & e4 & x3 & x4 & f2 & ->)
          & (e5 & e6 & x5 & x6 & ha & hb & f3 & ->) & ->).
  exists pa, pb, qa, qb, da, db, ha, hb.
  destruct f1, f2, f3; split; reflexivity.
Qed.

Lemma outstanding_app_pinned w w' bytes :
  heap_attrs w' = heap_attrs w ++ [(HostPinned, bytes, true); (HostPinned, bytes, true)] ->
  outstanding HostPinned w' = (outstanding HostPinned w + 2)%nat.
Proof.
  intros Hw. rewrite !outstanding_attrs, Hw, List.filter_app, length_app. reflexivity.
Qed.

(** C2, what the code does. [profileD2DCopies] returns with its two pinned
    host buffers still allocated: the allocations outstanding have grown by
    two. [memBenchmark] makes eight allocation calls and five release calls:
    [d_b] and the two buffers of [profileD2DCopies] are passed to none. *)
Theorem allocations_left_outstanding :
  (forall E d_a d_b n w,
      no_abort E = true -> host_allocs_ok E -> 0 <= n < 2 ^ 30 ->
      exists w',
        profileD2DCopies E d_a d_b n w = Ret tt w' /\
        outstanding HostPinned w' = (outstanding HostPinned w + 2)%nat) /\
  (forall E w r w',
      memBenchmark E w = Ret r w' ->
      exists h_aPageable h_bPageable h_aPinned h_bPinned d_a d_b h_a h_b,
        List.filter is_alloc_call (shape (emitted w w'))
        = [a_malloc 16777216 h_aPageable; a_malloc 16777216 h_bPageable;
           a_cudaMallocHost 16777216 h_aPinned cudaSuccess;
           a_cudaMallocHost 16777216 h_bPinned cudaSuccess;
           a_cudaMalloc 16777216 d_a cudaSuccess; a_cudaMalloc 16777216 d_b cudaSuccess;
           a_cudaMallocHost 16777216 h_a cudaSuccess;
           a_cudaMallocHost 16777216 h_b cudaSuccess] /\
        List.filter is_release_call (shape (emitted w w'))
        = [a_cudaFree d_a cudaSuccess;
           a_cudaFreeHost h_aPinned cudaSuccess; a_cudaFreeHost h_bPinned cudaSuccess;
           a_free h_aPageable; a_free h_bPageable]).
Proof.
  split.
  - intros E d_a d_b n w Hrel Hall Hn.
    destruct (hoare_returns _ _ _ w (profileD2DCopies_frame E Hrel Hall (heap_attrs w) d_a d_b n Hn)
                eq_refl) as ([] & w' & Hr & Hw').
    exists w'. split; [exact Hr|]. eapply outstanding_app_pinned, Hw'.
  - intros E w r w' Hr.
    pose proof (shaped_returned _ _ _ _ _ (memBenchmark_from_shaped E nElements) Hr) as [_ Hs].
    exact (MB_shape_alloc_calls _ _ _ Hs).
Qed.

Lemma allocations_left_outstanding_witness :
  (exists w',
      profileD2DCopies E_ok (Some 2%nat) (Some 3%nat) 2 (w_buffers 2) = Ret tt w' /\
      outstanding HostPinned w' = (outstanding HostPinned (w_buffers 2) + 2)%nat) /\
  (exists w',
     memBenchmark E_ok initial_world = Ret 0 w' /\
     exists h_aPageable h_bPageable h_aPinned h_bPinned d_a d_b h_a h_b,
       List.filter is_alloc_call (shape (emitted initial_world w'))
       = [a_malloc 16777216 h_aPageable; a_malloc 16777216 h_bPageable;
          a_cudaMallocHost 16777216 h_aPinned cudaSuccess;
          a_cudaMallocHost 16777216 h_bPinned cudaSuccess;
          a_cudaMalloc 16777216 d_a cudaSuccess; a_cudaMalloc 16777216 d_b cudaSuccess;
          a_cudaMallocHost 16777216 h_a cudaSuccess;
          a_cudaMallocHost 16777216 h_b cudaSuccess] /\
       List.filter is_release_call (shape (emitted initial_world w'))
       = [a_cudaFree d_a cudaSuccess;
          a_cudaFreeHost h_aPinned cudaSuccess; a_cudaFreeHost h_bPinned cudaSuccess;
          a_free h_aPageable; a_free h_bPageable]).
Proof.
  split.
  - apply (proj1 allocations_left_outstanding E_ok (Some 2%nat) (Some 3%nat) 2 (w_buffers 2)).
    + reflexivity.
    + exact E_ok_host_allocs_ok.
    + lia.
  - destruct (memBenchmark_returns E_ok initial_world eq_refl E_ok_host_allocs_ok) as [w' Hr].
    exists w'. split; [exact Hr|].
    exact (proj2 allocations_left_outstanding E_ok initial_world 0 w' Hr).
Defined.

(** ** Runs in which nothing fails *)

Lemma hoare_keep {A} (m : M A) P Q G :
  hoare P m Q -> keeps G m -> hoare (fun w => P w /\ G w) m (fun a w => Q a w /\ G w).
Proof.
  intros Hm Hk w [Hp Hg]. specialize (Hm w Hp). unfold wp in *.
  destruct (m w) as [a w'| |] eqn:Hr; try contradiction.
  split; [exact Hm|]. exact (Hk w a w' Hr Hg).
Qed.

Lemma keeps_quiet {A} (m : M A) R : quiet m -> mono R -> keeps (on_events R) m.
Proof.
  intros Hq Hm w a w' Hr Hw. destruct (Hq w a w' Hr) as [He Hs].
  unfold on_events in *. rewrite He. eapply Hm; eauto.
Qed.

Lemma keeps_heapless {A} (m : M A) F : heapless m -> keeps (on_heap F) m.
Proof.
  intros Hh w a w' Hr Hw. destruct (Hh w a w' Hr) as [H1 H2].
  unfold on_heap in *. now rewrite H1, H2.
Qed.

Lemma quiet_ret {A} (a : A) : quiet (ret a).
Proof. intros w a' w' [= _ <-]. auto. Qed.

Lemma quiet_bind {A B} (m : M A) (f : A -> M B) :
  quiet m -> (forall a, quiet (f a)) -> quiet (bind m f).
Proof.
  intros Hm Hf w b w' Hr. unfold bind in Hr.
  destruct (m w) as [a w1| |] eqn:Hmw; try discriminate.
  destruct (Hm w a w1 Hmw) as [E1 S1]. destruct (Hf a w1 b w' Hr) as [E2 S2].
  split; [congruence|lia].
Qed.

Lemma quiet_repeatM n body : quiet body -> quiet (repeatM n body).
Proof.
  intros Hb. induction n; simpl; [apply quiet_ret|].
  apply quiet_bind; auto.
Qed.

Lemma heapless_ret {A} (a : A) : heapless (ret a).
Proof. intros w a' w' [= _ <-]. auto. Qed.

Lemma heapless_bind {A B} (m : M A) (f : A -> M B) :
  heapless m -> (forall a, heapless (f a)) -> heapless (bind m f).
Proof.
  intros Hm Hf w b w' Hr. unfold bind in Hr.
  destruct (m w) as [a w1| |] eqn:Hmw; try discriminate.
  destruct (Hm w a w1 Hmw) as [E1 S1]. destruct (Hf a w1 b w' Hr) as [E2 S2].
  split; congruence.
Qed.

Ltac run_cases Hr :=
  repeat match type of Hr with
         | context [match ?x with _ => _ end] => destruct x eqn:?
         | context [if ?x then _ else _] => destruct x eqn:?
         end;
  try discriminate Hr.

Ltac prim_quiet :=
  let w := fresh "w" in let a := fresh "a" in let w' := fresh "w'" in
  let Hr := fresh "Hr" in
  intros w a w' Hr; cbv beta delta [step] in *;
  run_cases Hr; injection Hr as <- <-; simpl;
  rewrite ?length_app; simpl; split; first [reflexivity | lia].

Section Quiet.
Variable E : env.

Lemma printf_quiet fmt args : quiet (printf fmt args).
Proof. unfold printf. prim_quiet. Qed.
Lemma clock_now_quiet : quiet (clock_now E).
Proof. unfold clock_now. prim_quiet. Qed.
Lemma uninitialised_float_quiet : quiet (uninitialised_float E).
Proof. unfold uninitialised_float. prim_quiet. Qed.
Lemma memcpy_quiet dst src bytes : quiet (memcpy dst src bytes).
Proof. unfold memcpy. prim_quiet. Qed.
Lemma load_quiet p i : quiet (load p i).
Proof. unfold load. prim_quiet. Qed.
Lemma checkCuda_quiet r : quiet (checkCuda E r).
Proof. unfold checkCuda. prim_quiet. Qed.
Lemma cudaMemcpy_quiet dst src bytes kind : quiet (cudaMemcpy E dst src bytes kind).
Proof. unfold cudaMemcpy. prim_quiet. Qed.
Lemma cudaMallocHost_quiet bytes : quiet (cudaMallocHost E bytes).
Proof. unfold cudaMallocHost. prim_quiet. Qed.

Lemma Timer_elapsed_quiet beg_ : quiet (Timer_elapsed E beg_).
Proof.
  unfold Timer_elapsed. apply quiet_bind; [apply clock_now_quiet|].
  intros. apply quiet_ret.
Qed.

Lemma checked__quiet call : quiet call -> quiet (checked_ E call).
Proof.
  intros Hc. unfold checked_. apply quiet_bind; [exact Hc|]. intros r.
  apply quiet_bind; [apply checkCuda_quiet|]. intros. apply quiet_ret.
Qed.

Lemma checked_quiet {A} (call : M (cudaError_t * A)) : quiet call -> quiet (checked E call).
Proof.
  intros Hc. unfold checked. apply quiet_bind; [exact Hc|]. intros [r out].
  apply quiet_bind; [apply checkCuda_quiet|]. intros. apply quiet_ret.
Qed.

Lemma verify_loop_quiet remaining i h_a h_b report :
  quiet report -> quiet (verify_loop remaining i h_a h_b report).
Proof.
  intros Hr. revert i. induction remaining as [|k IH]; intros i; simpl.
  - apply quiet_ret.
  - apply quiet_bind; [apply load_quiet|]. intros x.
    apply quiet_bind; [apply load_quiet|]. intros y.
    destruct (Float.ne x y); auto.
Qed.
End Quiet.

Ltac prim_heapless :=
  let w := fresh "w" in let a := fresh "a" in let w' := fresh "w'" in
  let Hr := fresh "Hr" in
  intros w a w' Hr;
  run_cases Hr; injection Hr as <- <-; simpl; split; reflexivity.

Section Heapless.
Variable E : env.

Lemma printf_heapless fmt args : heapless (printf fmt args).
Proof. unfold printf. prim_heapless. Qed.
Lemma clock_now_heapless : heapless (clock_now E).
Proof. unfold clock_now. prim_heapless. Qed.
Lemma uninitialised_float_heapless : heapless (uninitialised_float E).
Proof. unfold uninitialised_float. prim_heapless. Qed.
Lemma load_heapless p i : heapless (load p i).
Proof. unfold load. prim_heapless. Qed.
Lemma checkCuda_heapless r : heapless (checkCuda E r).
Proof. unfold checkCuda. prim_heapless. Qed.
Lemma nvtxRangeStart_heapless msg : heapless (nvtxRangeStart msg).
Proof. unfold nvtxRangeStart. prim_heapless. Qed.
Lemma nvtxRangeEnd_heapless id : heapless (nvtxRangeEnd id).
Proof. unfold nvtxRangeEnd. prim_heapless. Qed.
Lemma cudaEventCreate_heapless : heapless (cudaEventCreate E).
Proof. unfold cudaEventCreate. prim_heapless. Qed.
Lemma cudaEventRecord_heapless e : heapless (cudaEventRecord E e).
Proof. unfold cudaEventRecord. prim_heapless. Qed.
Lemma cudaEventSynchronize_heapless e : heapless (cudaEventSynchronize E e).
Proof. unfold cudaEventSynchronize. prim_heapless. Qed.
Lemma cudaEventElapsedTime_heapless t s e : heapless (cudaEventElapsedTime E t s e).
Proof. unfold cudaEventElapsedTime. prim_heapless. Qed.
Lemma cudaEventDestroy_heapless e : heapless (cudaEventDestroy E e).
Proof. unfold cudaEventDestroy. prim_heapless. Qed.
Lemma cudaGetDeviceProperties_heapless d : heapless (cudaGetDeviceProperties E d).
Proof. unfold cudaGetDeviceProperties. prim_heapless. Qed.

Lemma Timer_elapsed_heapless beg_ : heapless (Timer_elapsed E beg_).
Proof.
  unfold Timer_elapsed. apply heapless_bind; [apply clock_now_heapless|].
  intros. apply heapless_ret.
Qed.

Lemma checked__heapless call : heapless call -> heapless (checked_ E call).
Proof.
  intros Hc. unfold checked_. apply heapless_bind; [exact Hc|]. intros r.
  apply heapless_bind; [apply checkCuda_heapless|]. intros. apply heapless_ret.
Qed.

Lemma checked_heapless {A} (call : M (cudaError_t * A)) :
  heapless call -> heapless (checked E call).
Proof.
  intros Hc. unfold checked. apply heapless_bind; [exact Hc|]. intros [r out].
  apply heapless_bind; [apply checkCuda_heapless|]. intros. apply heapless_ret.
Qed.
End Heapless.

(** *** The events of a timed region, when no call fails *)

Lemma mono_live i : mono (timers_live i).
Proof. intros evs k k' H _. exact H. Qed.
Lemma mono_started i : mono (timers_started i).
Proof. intros evs k k' (k1 & e & H1 & H2 & H3 & H4) Hk. exists k1, e. repeat split; auto. lia. Qed.
Lemma mono_stopped i : mono (timers_stopped i).
Proof. intros evs k k' H _. exact H. Qed.
Lemma mono_completed i : mono (timers_completed i).
Proof. intros evs k k' H _. exact H. Qed.

Lemma checkCuda_success E w : checkCuda E cudaSuccess w = Ret cudaSuccess w.
Proof. unfold checkCuda. now destruct (env_debug E). Qed.

Lemma checked__success E (call : M cudaError_t) w w' :
  call w = Ret cudaSuccess w' -> checked_ E call w = Ret tt w'.
Proof. intros Hc. unfold checked_, bind. now rewrite Hc, checkCuda_success. Qed.

Lemma checked_success {A} E (call : M (cudaError_t * A)) w out w' :
  call w = Ret (cudaSuccess, out) w' -> checked E call w = Ret out w'.
Proof. intros Hc. unfold checked, bind. now rewrite Hc, checkCuda_success. Qed.

Lemma event_at_live w i st :
  events w !! i = Some st -> st <> EvDestroyed -> event_at w (Some i) = Some (i, st).
Proof. intros Hi Hl. unfold event_at. rewrite Hi. now destruct st. Qed.

Section Events.
Variable E : env.
Hypothesis cuda_ok : forall k, env_cuda E k = cudaSuccess.

Lemma create_first :
  hoare (fun _ => True) (checked E (cudaEventCreate E))
    (fun e w => exists i, e = Some i /\ events w !! i = Some EvCreated
                          /\ length (events w) = S i).
Proof.
  intros w _. unfold wp.
  rewrite (checked_success E _ w (Some (length (events w)))
             (emit (a_cudaEventCreate (Some (length (events w))) cudaSuccess)
                (set_events (events w ++ [EvCreated]) w))).
  - exists (length (events w)). simpl. split; [reflexivity|]. split.
    + rewrite lookup_app_r by lia. now rewrite Nat.sub_diag.
    + rewrite length_app. simpl. lia.
  - unfold cudaEventCreate. now rewrite cuda_ok.
Qed.

Lemma create_second i :
  hoare (fun w => events w !! i = Some EvCreated /\ length (events w) = S i)
    (checked E (cudaEventCreate E))
    (fun e w => e = Some (S i) /\ on_events (timers_live i) w).
Proof.
  intros w [Hi Hlen]. unfold wp.
  rewrite (checked_success E _ w (Some (length (events w)))
             (emit (a_cudaEventCreate (Some (length (events w))) cudaSuccess)
                (set_events (events w ++ [EvCreated]) w))).
  - rewrite Hlen. split; [reflexivity|]. unfold on_events. simpl.
    exists EvCreated, EvCreated. repeat split; try discriminate.
    + rewrite lookup_app_l; [exact Hi|lia].
    + rewrite lookup_app_r by lia. now rewrite Hlen, Nat.sub_diag.
  - unfold cudaEventCreate. now rewrite cuda_ok.
Qed.

Lemma record_start i :
  hoare (on_events (timers_live i)) (checked_ E (cudaEventRecord E (Some i)))
    (fun _ => on_events (timers_started i)).
Proof.
  intros w (s & e & Hs & He & Ls & Le). unfold wp.
  erewrite checked__success.
  2:{ unfold cudaEventRecord. rewrite cuda_ok, (event_at_live w i s Hs Ls). reflexivity. }
  unfold on_events, timers_started. simpl.
  exists (step w), e. repeat split; auto.
  - apply list_lookup_insert_eq. now apply lookup_lt_Some in Hs.
  - rewrite list_lookup_insert_ne by lia. exact He.
  - unfold step. simpl. rewrite length_app. lia.
Qed.

Lemma record_stop i :
  hoare (on_events (timers_started i)) (checked_ E (cudaEventRecord E (Some (S i))))
    (fun _ => on_events (timers_stopped i)).
Proof.
  intros w (k1 & e & Hs & He & Le & Hk). unfold wp.
  erewrite checked__success.
  2:{ unfold cudaEventRecord. rewrite cuda_ok, (event_at_live w (S i) e He Le). reflexivity. }
  unfold on_events, timers_stopped. simpl.
  exists k1, (step w). repeat split; auto.
  - rewrite list_lookup_insert_ne by lia. exact Hs.
  - apply list_lookup_insert_eq. now apply lookup_lt_Some in He.
Qed.

Lemma synchronize_stop i :
  hoare (on_events (timers_stopped i)) (checked_ E (cudaEventSynchronize E (Some (S i))))
    (fun _ => on_events (timers_completed i)).
Proof.
  intros w (k1 & k2 & Hs & He & Hk). unfold wp.
  erewrite checked__success.
  2:{ unfold cudaEventSynchronize.
      rewrite cuda_ok, (event_at_live w (S i) _ He ltac:(discriminate)). reflexivity. }
  unfold on_events, timers_completed. simpl.
  rewrite !list_lookup_fmap, Hs, He. simpl.
  rewrite Nat.leb_refl. destruct (Nat.leb_spec k1 k2); [auto|lia].
Qed.

Lemma elapsed_completed i time :
  hoare (on_events (timers_completed i))
    (checked E (cudaEventElapsedTime E time (Some i) (Some (S i))))
    (fun _ => on_events (timers_live i)).
Proof.
  intros w [Hs He]. unfold wp.
  erewrite checked_success.
  2:{ unfold cudaEventElapsedTime.
      rewrite cuda_ok, (event_at_live w i _ Hs ltac:(discriminate)),
        (event_at_live w (S i) _ He ltac:(discriminate)). reflexivity. }
  unfold on_events, timers_live. simpl.
  exists EvCompleted, EvCompleted. repeat split; auto; discriminate.
Qed.

Lemma destroy_both i :
  hoare (on_events (timers_live i))
    (checked_ E (cudaEventDestroy E (Some i)) >> checked_ E (cudaEventDestroy E (Some (S i))))
    (fun _ _ => True).
Proof.
  intros w (s & e & Hs & He & Ls & Le). unfold wp, bind.
  erewrite checked__success.
  2:{ unfold cudaEventDestroy. rewrite cuda_ok, (event_at_live w i s Hs Ls). reflexivity. }
  erewrite checked__success; [exact I|].
  unfold cudaEventDestroy. rewrite cuda_ok.
  erewrite event_at_live; [reflexivity| |exact Le].
  simpl. rewrite list_lookup_insert_ne by lia. exact He.
Qed.
End Events.

(** *** The heap and the wire, when no call fails *)

Lemma holding_incl f n H Zs Zs' W0 m w :
  (forall b, In b Zs' -> In b Zs) ->
  holding f n H Zs W0 m w -> holding f n H Zs' W0 m w.
Proof.
  intros Hin (Ha & Hz & Hw). split; [exact Ha|]. split; [|exact Hw].
  apply List.Forall_forall. intros b Hb.
  rewrite List.Forall_forall in Hz. auto.
Qed.

Lemma copy_data_below k src dst i : 0 <= i < k -> copy_data k src dst i = src i.
Proof.
  intros Hi. unfold copy_data.
  destruct (Z.leb_spec 0 i); [|lia]. destruct (Z.ltb_spec i k); [|lia]. reflexivity.
Qed.

Lemma holding_copy f n H Zs W0 m w d s bd bs kind a :
  holding f n H Zs W0 m w ->
  heap w !! d = Some bd -> heap w !! s = Some bs -> In s Zs ->
  holding f n H (d :: Zs) W0 (S m)
    (sent (mkTransfer kind n (blk_data bs))
       (set_block d (with_data bd (copy_data n (blk_data bs) (blk_data bd))) (emit a w))).
Proof.
  intros (Ha & Hz & rest & Hw & Hlen & Hrest) Hd Hs Hin.
  assert (Hsf : forall i, 0 <= i < n -> blk_data bs i = f i).
  { rewrite List.Forall_forall in Hz. destruct (Hz s Hin) as (blk & Hblk & Hf).
    rewrite Hs in Hblk. injection Hblk as <-. exact Hf. }
  split; [|split].
  - rewrite heap_attrs_sent. rewrite <- Ha. apply (heap_attrs_set_data (emit a w)). exact Hd.
  - simpl. constructor.
    + eexists. split.
      * apply list_lookup_insert_eq. now apply lookup_lt_Some in Hd.
      * intros i Hi. simpl. rewrite copy_data_below by exact Hi. auto.
    + apply List.Forall_forall. intros b Hb.
      destruct (decide (d = b)) as [<-|Hne].
      * eexists. split.
        -- apply list_lookup_insert_eq. now apply lookup_lt_Some in Hd.
        -- intros i Hi. simpl. rewrite copy_data_below by exact Hi. auto.
      * rewrite List.Forall_forall in Hz. destruct (Hz b Hb) as (blk & Hblk & Hf).
        exists blk. split; [|exact Hf]. now rewrite list_lookup_insert_ne.
  - exists (rest ++ [mkTransfer kind n (blk_data bs)]). simpl. split; [|split].
    + rewrite Hw. now rewrite app_assoc.
    + rewrite length_app. simpl. lia.
    + apply Forall_app. split; [exact Hrest|]. constructor; [|constructor].
      split; [reflexivity|exact Hsf].
Qed.

Lemma block_at_of_attrs w ok d sp sz need :
  heap_attrs w !! d = Some (sp, sz, true) -> ok sp = true -> need <= sz ->
  exists blk, block_at w ok (Some d) need = Some (d, blk) /\ heap w !! d = Some blk.
Proof.
  intros Hd Hok Hneed.
  destruct (block_at_attrs w ok (Some d) need d sp sz eq_refl Hd Hok Hneed) as (blk & H1 & H2 & _).
  eauto.
Qed.

Section HeapSide.
Variable E : env.
Hypothesis cuda_ok : forall k, env_cuda E k = cudaSuccess.
Variable f : Z -> spec_float.
Variable n : Z.
Hypothesis n_pos : 0 <= n.

Lemma elems_of_bytes : sizeof_float * n / sizeof_float = n.
Proof. unfold sizeof_float. rewrite Z.mul_comm. apply Z.div_mul. lia. Qed.

Lemma cudaMemcpy_holding H Zs W0 m kind d s spd szd sps szs :
  H !! d = Some (spd, szd, true) -> dst_space kind spd = true -> sizeof_float * n <= szd ->
  H !! s = Some (sps, szs, true) -> src_space kind sps = true -> sizeof_float * n <= szs ->
  In s Zs ->
  hoare (holding f n H Zs W0 m)
    (checked_ E (cudaMemcpy E (Some d) (Some s) (sizeof_float * n) kind))
    (fun _ => holding f n H (d :: Zs) W0 (S m)).
Proof.
  intros Hd Hdk Hdz Hs Hsk Hsz Hin w Hw. unfold wp.
  pose proof Hw as (Ha & _).
  rewrite <- Ha in Hd, Hs.
  destruct (block_at_of_attrs w _ d spd szd _ Hd Hdk Hdz) as (bd & Bd & Ld).
  destruct (block_at_of_attrs w _ s sps szs _ Hs Hsk Hsz) as (bs & Bs & Ls).
  erewrite checked__success.
  2:{ unfold cudaMemcpy. rewrite cuda_ok, Bd, Bs, elems_of_bytes. reflexivity. }
  eapply holding_copy; eauto.
Qed.

Lemma memcpy_holding H Zs W0 m d s spd szd sps szs :
  H !! d = Some (spd, szd, true) -> is_host spd = true -> sizeof_float * n <= szd ->
  H !! s = Some (sps, szs, true) -> is_host sps = true -> sizeof_float * n <= szs ->
  d <> s -> In s Zs ->
  hoare (holding f n H Zs W0 m)
    (memcpy (Some d) (Some s) (sizeof_float * n))
    (fun _ => holding f n H (d :: Zs) W0 (S m)).
Proof.
  intros Hd Hdk Hdz Hs Hsk Hsz Hne Hin w Hw. unfold wp.
  pose proof Hw as (Ha & _).
  rewrite <- Ha in Hd, Hs.
  destruct (block_at_of_attrs w _ d spd szd _ Hd Hdk Hdz) as (bd & Bd & Ld).
  destruct (block_at_of_attrs w _ s sps szs _ Hs Hsk Hsz) as (bs & Bs & Ls).
  unfold memcpy. rewrite Bd, Bs, elems_of_bytes.
  destruct (Nat.eqb_spec d s) as [->|_]; [congruence|]. simpl.
  eapply holding_copy; eauto.
Qed.

Lemma load_holding H Zs W0 m p sp sz i :
  H !! p = Some (sp, sz, true) -> is_host sp = true -> sizeof_float * (i + 1) <= sz ->
  0 <= i ->
  hoare (holding f n H Zs W0 m) (load (Some p) i) (fun _ => holding f n H Zs W0 m).
Proof.
  intros Hp Hh Hsz Hi w Hw. unfold wp.
  pose proof Hw as (Ha & _). rewrite <- Ha in Hp.
  destruct (block_at_of_attrs w _ p sp sz _ Hp Hh Hsz) as (blk & Bp & Lp).
  unfold load. rewrite Bp. destruct (Z.leb_spec 0 i); [exact Hw|lia].
Qed.

Lemma verify_loop_holding H Zs W0 m remaining i a b spa sza spb szb report :
  H !! a = Some (spa, sza, true) -> is_host spa = true ->
  H !! b = Some (spb, szb, true) -> is_host spb = true ->
  0 <= i ->
  sizeof_float * (i + Z.of_nat remaining) <= sza ->
  sizeof_float * (i + Z.of_nat remaining) <= szb ->
  hoare (holding f n H Zs W0 m) report (fun _ => holding f n H Zs W0 m) ->
  hoare (holding f n H Zs W0 m) (verify_loop remaining i (Some a) (Some b) report)
    (fun _ => holding f n H Zs W0 m).
Proof.
  intros Ha Hha Hb Hhb Hi Hsa Hsb Hr. revert i Hi Hsa Hsb.
  induction remaining as [|k IH]; intros i Hi Hsa Hsb; simpl.
  - intros w Hw. exact Hw.
  - eapply hoare_bind.
    { eapply load_holding; eauto. unfold sizeof_float in *. lia. }
    intros x. eapply hoare_bind.
    { eapply load_holding; eauto. unfold sizeof_float in *. lia. }
    intros y. destruct (Float.ne x y); [exact Hr|].
    apply IH; unfold sizeof_float in *; lia.
Qed.

Lemma holding_heapless {A} (m : M A) H Zs W0 k :
  heapless m -> keeps (holding f n H Zs W0 k) m.
Proof.
  intros Hh w a w' Hr (Ha & Hz & Hw). destruct (Hh w a w' Hr) as [H1 H2].
  unfold holding, heap_attrs. rewrite H1, H2. auto.
Qed.
End HeapSide.

Create HintDb quiet.
#[export] Hint Resolve printf_quiet clock_now_quiet uninitialised_float_quiet memcpy_quiet
  load_quiet checkCuda_quiet cudaMemcpy_quiet cudaMallocHost_quiet Timer_elapsed_quiet
  checked__quiet checked_quiet verify_loop_quiet quiet_repeatM quiet_ret
  mono_live mono_started mono_stopped mono_completed : quiet.

Create HintDb heapless.
#[export] Hint Resolve printf_heapless clock_now_heapless uninitialised_float_heapless
  load_heapless checkCuda_heapless nvtxRangeStart_heapless nvtxRangeEnd_heapless
  cudaEventCreate_heapless cudaEventRecord_heapless cudaEventSynchronize_heapless
  cudaEventElapsedTime_heapless cudaEventDestroy_heapless cudaGetDeviceProperties_heapless
  Timer_elapsed_heapless checked__heapless checked_heapless heapless_ret : heapless.

Lemma hoare_keep_l {A} (m : M A) P Q G :
  hoare P m Q -> keeps G m -> hoare (fun w => G w /\ P w) m (fun a w => G w /\ Q a w).
Proof.
  intros Hm Hk. eapply hoare_conseq; [apply (hoare_keep m P Q G Hm Hk)| |]; cbv beta; tauto.
Qed.

Lemma hoare_total {A} (m : M A) G :
  (forall w, exists a w', m w = Ret a w') -> keeps G m -> hoare G m (fun _ => G).
Proof.
  intros Ht Hk w Hw. unfold wp. destruct (Ht w) as (a & w' & Hr). rewrite Hr.
  exact (Hk w a w' Hr Hw).
Qed.

Lemma keeps_and {A} (m : M A) G1 G2 :
  keeps G1 m -> keeps G2 m -> keeps (fun w => G1 w /\ G2 w) m.
Proof. intros H1 H2 w a w' Hr [Hg1 Hg2]. split; eauto. Qed.

Lemma keeps_true {A} (m : M A) : keeps (fun _ => True) m.
Proof. intros w a w' _ _. exact I. Qed.

Lemma hoare_repeatM_count (I : nat -> world -> Prop) body c :
  (forall j, hoare (I j) body (fun _ => I (j + c)%nat)) ->
  forall k j, hoare (I j) (repeatM k body) (fun _ => I (j + k * c)%nat).
Proof.
  intros Hb. induction k as [|k IH]; intros j; simpl.
  - intros w Hw. unfold wp, ret. now rewrite Nat.add_0_r.
  - eapply hoare_bind; [apply Hb|]. intros ?.
    eapply hoare_conseq; [apply (IH (j + c)%nat)|auto|].
    cbv beta. intros _ w Hw. now replace (j + (c + k * c))%nat with (j + c + k * c)%nat by lia.
Qed.

Lemma printf_total fmt args w : exists a w', printf fmt args w = Ret a w'.
Proof. unfold printf. eauto. Qed.
Lemma clock_now_total E w : exists a w', clock_now E w = Ret a w'.
Proof. unfold clock_now. eauto. Qed.
Lemma Timer_elapsed_total E beg_ w : exists a w', Timer_elapsed E beg_ w = Ret a w'.
Proof. unfold Timer_elapsed, bind, clock_now, ret. eauto. Qed.
Lemma uninitialised_float_total E w : exists a w', uninitialised_float E w = Ret a w'.
Proof. unfold uninitialised_float. eauto. Qed.
Lemma nvtxRangeStart_total msg w : exists a w', nvtxRangeStart msg w = Ret a w'.
Proof. unfold nvtxRangeStart. eauto. Qed.
Lemma nvtxRangeEnd_total id w : exists a w', nvtxRangeEnd id w = Ret a w'.
Proof. unfold nvtxRangeEnd. eauto. Qed.

Lemma u32_bytes n : 0 <= n < 2 ^ 30 -> u32 (n * sizeof_float) = sizeof_float * n.
Proof. intros Hn. unfold u32, sizeof_float. rewrite Z.mod_small; lia. Qed.

Lemma holding_step {A} (m : M A) f n H Zs W0 k :
  (forall w, exists a w', m w = Ret a w') -> heapless m ->
  hoare (holding f n H Zs W0 k) m (fun _ => holding f n H Zs W0 k).
Proof. intros Ht Hh. apply hoare_total; [exact Ht|]. now apply holding_heapless. Qed.

Lemma holding_add_block f n H Zs W0 m w blk a :
  holding f n H Zs W0 m w ->
  holding f n (H ++ [attrs blk]) Zs W0 m (emit a (add_block blk w)).
Proof.
  intros (Ha & Hz & Hw). split; [|split].
  - now rewrite heap_attrs_emit, heap_attrs_add_block, Ha.
  - simpl. apply List.Forall_forall. intros x Hx.
    rewrite List.Forall_forall in Hz. destruct (Hz x Hx) as (bx & Lx & Hf).
    exists bx. split; [|exact Hf]. now apply lookup_app_l_Some.
  - exact Hw.
Qed.

Section H2HContents.
Variable E : env.
Variable f : Z -> spec_float.
Variable n : Z.
Hypothesis n_range : 0 <= n < 2 ^ 30.
Variable H : list (space * Z * bool).
Variables a b : nat.
Variables spa spb : space.
Variables sza szb : Z.
Hypothesis Ha : H !! a = Some (spa, sza, true).
Hypothesis Hb : H !! b = Some (spb, szb, true).
Hypothesis host_a : is_host spa = true.
Hypothesis host_b : is_host spb = true.
Hypothesis size_a : sizeof_float * n <= sza.
Hypothesis size_b : sizeof_float * n <= szb.
Hypothesis distinct : a <> b.

Variable Zs : list nat.
Hypothesis b_holds : In b Zs.

Lemma h2h_copy_ab W0 j :
  hoare (holding f n H (a :: Zs) W0 j) (memcpy (Some a) (Some b) (sizeof_float * n))
    (fun _ => holding f n H (a :: Zs) W0 (j + 1)).
Proof.
  eapply hoare_conseq;
    [eapply (memcpy_holding f n H (a :: Zs) W0 j a b); eauto; simpl; auto|auto|].
  cbv beta. intros _ w Hw. rewrite Nat.add_1_r.
  eapply holding_incl; [|exact Hw]. simpl. tauto.
Qed.

Lemma h2h_copy_ba W0 j :
  hoare (holding f n H (a :: Zs) W0 j) (memcpy (Some b) (Some a) (sizeof_float * n))
    (fun _ => holding f n H (a :: Zs) W0 (j + 1)).
Proof.
  eapply hoare_conseq;
    [eapply (memcpy_holding f n H (a :: Zs) W0 j b a); eauto; simpl; auto|auto|].
  cbv beta. intros _ w Hw. rewrite Nat.add_1_r.
  eapply holding_incl; [|exact Hw]. simpl. intuition congruence.
Qed.

Lemma profileH2HCopies_holding desc W0 m :
  hoare (holding f n H Zs W0 m) (profileH2HCopies E (Some a) (Some b) n desc)
    (fun _ => holding f n H (a :: Zs) W0 (m + 232)).
Proof.
  unfold profileH2HCopies, Timer_new, Timer_reset. cbv zeta.
  rewrite (u32_bytes n n_range).
  eapply hoare_bind.
  { apply holding_step; [apply printf_total|auto with heapless]. }
  intros ?. eapply hoare_bind.
  { change (repeatM 32 ?body) with (body >> repeatM 31 body).
    eapply hoare_bind.
    { eapply (memcpy_holding f n H Zs W0 m a b); eauto. }
    intros ?.
    apply (hoare_repeatM_count (holding f n H (a :: Zs) W0) _ 1 (h2h_copy_ab W0)). }
  intros ?. eapply hoare_bind.
  { apply holding_step; [apply clock_now_total|auto with heapless]. }
  intros ?. eapply hoare_bind.
  { apply (hoare_repeatM_count (holding f n H (a :: Zs) W0) _ 1 (h2h_copy_ab W0)). }
  intros ?. eapply hoare_bind.
  { apply holding_step; [apply Timer_elapsed_total|auto with heapless]. }
  intros ?. eapply hoare_bind.
  { apply holding_step; [apply clock_now_total|auto with heapless]. }
  intros ?. eapply hoare_bind.
  { apply (hoare_repeatM_count (holding f n H (a :: Zs) W0) _ 1 (h2h_copy_ba W0)). }
  intros ?. eapply hoare_bind.
  { apply holding_step; [apply Timer_elapsed_total|auto with heapless]. }
  intros ?.
  replace (m + 232)%nat
    with (S m + 31 * 1 + Z.to_nat 100 * 1 + Z.to_nat 100 * 1)%nat by (simpl; lia).
  apply holding_step; [apply printf_total|auto with heapless].
Qed.
End H2HContents.

Lemma hoare_bind_exists {A B X} (m : M A) (f : A -> M B) P
    (F : X -> A -> Prop) (Q : X -> A -> world -> Prop) R :
  hoare P m (fun a w => exists x, F x a /\ Q x a w) ->
  (forall a x, F x a -> hoare (Q x a) (f a) R) ->
  hoare P (bind m f) R.
Proof.
  intros Hm Hf. eapply hoare_bind; [exact Hm|].
  intros a w (x & HF & HQ). exact (Hf a x HF w HQ).
Qed.

Section DeviceContents.
Variable E : env.
Hypothesis cuda_ok : forall k, env_cuda E k = cudaSuccess.
Variable f : Z -> spec_float.
Variable n : Z.
Hypothesis n_range : 0 <= n < 2 ^ 30.

(** A step on the heap keeps what is known of the events, a step on the
    events keeps what is known of the heap, a step on neither keeps both. *)
Lemma heap_step {A} (m : M A) H Zs W0 k H' Zs' k' R :
  hoare (holding f n H Zs W0 k) m (fun _ => holding f n H' Zs' W0 k') ->
  quiet m -> mono R ->
  hoare (fun w => holding f n H Zs W0 k w /\ on_events R w) m
    (fun _ w => holding f n H' Zs' W0 k' w /\ on_events R w).
Proof. intros Hm Hq HR. apply hoare_keep; [exact Hm|]. now apply keeps_quiet. Qed.

Lemma event_step {A} (m : M A) H Zs W0 k (P : world -> Prop) (Q : A -> world -> Prop) :
  hoare P m Q -> heapless m ->
  hoare (fun w => holding f n H Zs W0 k w /\ P w) m
    (fun a w => holding f n H Zs W0 k w /\ Q a w).
Proof. intros Hm Hh. apply hoare_keep_l; [exact Hm|]. now apply holding_heapless. Qed.

Lemma neutral_step {A} (m : M A) H Zs W0 k R :
  (forall w, exists a w', m w = Ret a w') -> heapless m -> quiet m -> mono R ->
  hoare (fun w => holding f n H Zs W0 k w /\ on_events R w) m
    (fun _ w => holding f n H Zs W0 k w /\ on_events R w).
Proof.
  intros Ht Hh Hq HR. apply hoare_total; [exact Ht|].
  apply keeps_and; [now apply holding_heapless|now apply keeps_quiet].
Qed.

(** The two events of a routine are created. *)
Lemma create_timers {B} (k : cudaEvent_t -> cudaEvent_t -> M B) H Zs W0 m R :
  (forall i, hoare (fun w => holding f n H Zs W0 m w /\ on_events (timers_live i) w)
               (k (Some i) (Some (S i))) R) ->
  hoare (holding f n H Zs W0 m)
    (let* startEvent := checked E (cudaEventCreate E) in
     let* stopEvent := checked E (cudaEventCreate E) in
     k startEvent stopEvent) R.
Proof.
  intros Hk.
  eapply (hoare_bind_exists _ _ _
            (fun i e => e = Some i)
            (fun i _ w => holding f n H Zs W0 m w
                          /\ (events w !! i = Some EvCreated /\ length (events w) = S i))).
  { eapply hoare_conseq.
    - apply (event_step _ H Zs W0 m (fun _ => True)); [apply (create_first E cuda_ok)|].
      auto with heapless.
    - cbv beta. auto.
    - cbv beta. intros e w (Hh & i & He & Hev). exists i. auto. }
  intros startEvent i ->.
  eapply (hoare_bind_exists _ _ _
            (fun (_ : unit) e => e = Some (S i))
            (fun _ _ w => holding f n H Zs W0 m w /\ on_events (timers_live i) w)).
  { eapply hoare_conseq.
    - apply (event_step _ H Zs W0 m); [apply (create_second E cuda_ok i)|].
      auto with heapless.
    - cbv beta. auto.
    - cbv beta. intros e w (Hh & He & Hev). exists tt. auto. }
  intros stopEvent _ ->. apply Hk.
Qed.

(** One timed region: record, copies, record, synchronise. *)
Lemma timed_region {B} (body : M unit) (rest : M B) i H Zs W0 m Zs' m' R :
  hoare (holding f n H Zs W0 m) body (fun _ => holding f n H Zs' W0 m') ->
  quiet body ->
  hoare (fun w => holding f n H Zs' W0 m' w /\ on_events (timers_completed i) w) rest R ->
  hoare (fun w => holding f n H Zs W0 m w /\ on_events (timers_live i) w)
    (checked_ E (cudaEventRecord E (Some i)) >>
     body >>
     checked_ E (cudaEventRecord E (Some (S i))) >>
     checked_ E (cudaEventSynchronize E (Some (S i))) >>
     rest) R.
Proof.
  intros Hbody Hq Hrest.
  eapply hoare_bind.
  { apply event_step; [apply (record_start E cuda_ok)|auto with heapless]. }
  intros ?. eapply hoare_bind.
  { apply heap_step; [exact Hbody|exact Hq|apply mono_started]. }
  intros ?. eapply hoare_bind.
  { apply event_step; [apply (record_stop E cuda_ok)|auto with heapless]. }
  intros ?. eapply hoare_bind.
  { apply event_step; [apply (synchronize_stop E cuda_ok)|auto with heapless]. }
  intros ?. exact Hrest.
Qed.

(** The elapsed time is read once the events are complete. *)
Lemma read_elapsed {B} (k : spec_float -> M B) time i H Zs W0 m R :
  (forall t, hoare (fun w => holding f n H Zs W0 m w /\ on_events (timers_live i) w) (k t) R) ->
  hoare (fun w => holding f n H Zs W0 m w /\ on_events (timers_completed i) w)
    (let* t := checked E (cudaEventElapsedTime E time (Some i) (Some (S i))) in k t) R.
Proof.
  intros Hk. eapply hoare_bind.
  { apply event_step; [apply (elapsed_completed E cuda_ok)|auto with heapless]. }
  intros t. apply Hk.
Qed.

Lemma print_step {B} (k : M B) fmt args H Zs W0 m (R' : list ev_state -> nat -> Prop) R :
  mono R' ->
  hoare (fun w => holding f n H Zs W0 m w /\ on_events R' w) k R ->
  hoare (fun w => holding f n H Zs W0 m w /\ on_events R' w) (printf fmt args >> k) R.
Proof.
  intros HR Hk. eapply hoare_bind; [|intros ?; exact Hk].
  apply neutral_step; auto with heapless quiet. apply printf_total.
Qed.

Lemma uninit_step {B} (k : spec_float -> M B) H Zs W0 m (R' : list ev_state -> nat -> Prop) R :
  mono R' ->
  (forall t, hoare (fun w => holding f n H Zs W0 m w /\ on_events R' w) (k t) R) ->
  hoare (fun w => holding f n H Zs W0 m w /\ on_events R' w)
    (let* t := uninitialised_float E in k t) R.
Proof.
  intros HR Hk. eapply hoare_bind; [|intros t; apply Hk].
  apply neutral_step; auto with heapless quiet. apply uninitialised_float_total.
Qed.

(** The events are destroyed at the end of a routine. *)
Lemma destroy_timers i H Zs W0 m :
  hoare (fun w => holding f n H Zs W0 m w /\ on_events (timers_live i) w)
    (checked_ E (cudaEventDestroy E (Some i)) >> checked_ E (cudaEventDestroy E (Some (S i))))
    (fun _ => holding f n H Zs W0 m).
Proof.
  eapply hoare_conseq.
  - apply (event_step _ H Zs W0 m); [apply (destroy_both E cuda_ok i)|].
    apply heapless_bind; auto with heapless.
  - cbv beta. auto.
  - cbv beta. tauto.
Qed.

Section Copies.
Variable H : list (space * Z * bool).
Variables a b d : nat.
Variables spa spb : space.
Variables sza szb szd : Z.
Hypothesis Ha : H !! a = Some (spa, sza, true).
Hypothesis Hb : H !! b = Some (spb, szb, true).
Hypothesis Hd : H !! d = Some (DeviceMem, szd, true).
Hypothesis host_a : is_host spa = true.
Hypothesis host_b : is_host spb = true.
Hypothesis size_a : sizeof_float * n <= sza.
Hypothesis size_b : sizeof_float * n <= szb.
Hypothesis size_d : sizeof_float * n <= szd.

Lemma h2d_holding Zs W0 j :
  In a Zs ->
  hoare (holding f n H Zs W0 j)
    (checked_ E (cudaMemcpy E (Some d) (Some a) (sizeof_float * n) cudaMemcpyHostToDevice))
    (fun _ => holding f n H (d :: Zs) W0 (S j)).
Proof. intros Hin. eapply (cudaMemcpy_holding E cuda_ok f n); eauto. Qed.

Lemma d2h_holding Zs W0 j :
  In d Zs ->
  hoare (holding f n H Zs W0 j)
    (checked_ E (cudaMemcpy E (Some b) (Some d) (sizeof_float * n) cudaMemcpyDeviceToHost))
    (fun _ => holding f n H (b :: Zs) W0 (S j)).
Proof. intros Hin. eapply (cudaMemcpy_holding E cuda_ok f n); eauto. Qed.

Lemma round_trip_holding Zs W0 j :
  In a Zs ->
  hoare (holding f n H Zs W0 j)
    (checked_ E (cudaMemcpy E (Some d) (Some a) (sizeof_float * n) cudaMemcpyHostToDevice) >>
     checked_ E (cudaMemcpy E (Some b) (Some d) (sizeof_float * n) cudaMemcpyDeviceToHost))
    (fun _ => holding f n H (b :: d :: Zs) W0 (j + 2)).
Proof.
  intros Hin. eapply hoare_bind; [apply h2d_holding, Hin|]. intros ?.
  rewrite Nat.add_comm. apply d2h_holding. simpl. auto.
Qed.

Lemma warm_up_holding Zs W0 j :
  In a Zs ->
  hoare (holding f n H Zs W0 j)
    (repeatM 16
       (checked_ E (cudaMemcpy E (Some d) (Some a) (sizeof_float * n) cudaMemcpyHostToDevice) >>
        checked_ E (cudaMemcpy E (Some b) (Some d) (sizeof_float * n) cudaMemcpyDeviceToHost)))
    (fun _ => holding f n H (b :: d :: Zs) W0 (j + 32)).
Proof.
  intros Hin. change (repeatM 16 ?body) with (body >> repeatM 15 body).
  eapply hoare_bind; [apply round_trip_holding, Hin|]. intros ?.
  replace (j + 32)%nat with (j + 2 + 15 * 2)%nat by lia.
  apply (hoare_repeatM_count (holding f n H (b :: d :: Zs) W0) _ 2).
  intros k. eapply hoare_conseq.
  - apply (round_trip_holding (b :: d :: Zs) W0 k). simpl. auto.
  - auto.
  - cbv beta. intros _ w Hw. eapply holding_incl; [|exact Hw]. simpl. tauto.
Qed.

Lemma profileCopies_holding desc Zs W0 m :
  In a Zs ->
  hoare (holding f n H Zs W0 m)
    (profileCopies E (Some a) (Some b) (Some d) n desc)
    (fun _ => holding f n H (b :: d :: Zs) W0 (m + 34)).
Proof.
  intros Hin. unfold profileCopies. cbv zeta.
  rewrite (u32_bytes n n_range).
  eapply hoare_bind.
  { apply holding_step; [apply printf_total|auto with heapless]. }
  intros ?. eapply hoare_bind; [apply warm_up_holding, Hin|]. intros ?.
  apply create_timers. intros i.
  eapply timed_region.
  { apply (h2d_holding (b :: d :: Zs) W0 (m + 32)). simpl. auto. }
  { auto with quiet. }
  apply uninit_step; [apply mono_completed|]. intros t0.
  apply read_elapsed. intros t1.
  apply print_step; [apply mono_live|].
  eapply timed_region.
  { apply (d2h_holding (d :: b :: d :: Zs) W0 (S (m + 32))). simpl. auto. }
  { auto with quiet. }
  apply read_elapsed. intros t2.
  apply print_step; [apply mono_live|].
  eapply hoare_bind.
  { apply heap_step; [|auto with quiet|apply mono_live].
    eapply verify_loop_holding; eauto; try lia.
    - rewrite Z2Nat.id by lia. exact size_a.
    - rewrite Z2Nat.id by lia. exact size_b.
    - apply holding_step; [apply printf_total|auto with heapless]. }
  intros ?.
  replace (m + 34)%nat with (S (S (m + 32)))%nat by lia.
  eapply hoare_conseq.
  - apply (destroy_timers i H (b :: d :: b :: d :: Zs) W0 (S (S (m + 32)))).
  - cbv beta. intros w Hw. exact Hw.
  - cbv beta. intros _ w Hw. eapply holding_incl; [|exact Hw].
    simpl. tauto.
Qed.
End Copies.
Hypothesis allocs : host_allocs_ok E.

Lemma mallocHost_step bytes H Zs W0 m R :
  mono R ->
  hoare (fun w => holding f n H Zs W0 m w /\ on_events R w)
    (checked E (cudaMallocHost E bytes))
    (fun p w => p = Some (length H) /\
                (holding f n (H ++ [(HostPinned, bytes, true)]) Zs W0 m w /\ on_events R w)).
Proof.
  intros HR w [Hh Hr]. unfold wp.
  erewrite checked_success.
  2:{ unfold cudaMallocHost. rewrite allocs. reflexivity. }
  pose proof Hh as (Ha & _).
  split; [now rewrite <- Ha, heap_attrs_length|]. split.
  - apply (holding_add_block f n H Zs W0 m w
             (mkBlock HostPinned bytes true (env_garbage E (length (heap w))))). exact Hh.
  - unfold on_events in *. simpl. eapply HR; [exact Hr|].
    unfold step. simpl. rewrite length_app. lia.
Qed.

Section DeviceCopies.
Variable H : list (space * Z * bool).
Variables da db : nat.
Variables sza szb : Z.
Hypothesis Hda : H !! da = Some (DeviceMem, sza, true).
Hypothesis Hdb : H !! db = Some (DeviceMem, szb, true).
Hypothesis size_a : sizeof_float * n <= sza.
Hypothesis size_b : sizeof_float * n <= szb.

Lemma d2d_ab Zs W0 j :
  In da Zs ->
  hoare (holding f n H Zs W0 j)
    (checked_ E (cudaMemcpy E (Some db) (Some da) (sizeof_float * n) cudaMemcpyDeviceToDevice))
    (fun _ => holding f n H (db :: Zs) W0 (S j)).
Proof. intros Hin. eapply (cudaMemcpy_holding E cuda_ok f n); eauto. Qed.

Lemma d2d_ba Zs W0 j :
  In db Zs ->
  hoare (holding f n H Zs W0 j)
    (checked_ E (cudaMemcpy E (Some da) (Some db) (sizeof_float * n) cudaMemcpyDeviceToDevice))
    (fun _ => holding f n H (da :: Zs) W0 (S j)).
Proof. intros Hin. eapply (cudaMemcpy_holding E cuda_ok f n); eauto. Qed.

Lemma d2d_ab_inv Zs W0 j :
  In da Zs ->
  hoare (holding f n H (db :: Zs) W0 j)
    (checked_ E (cudaMemcpy E (Some db) (Some da) (sizeof_float * n) cudaMemcpyDeviceToDevice))
    (fun _ => holding f n H (db :: Zs) W0 (j + 1)).
Proof.
  intros Hin. eapply hoare_conseq.
  - apply (d2d_ab (db :: Zs) W0 j). simpl. auto.
  - auto.
  - cbv beta. intros _ w Hw. rewrite Nat.add_1_r.
    eapply holding_incl; [|exact Hw]. simpl. tauto.
Qed.

Lemma d2d_ba_inv Zs W0 j :
  In da Zs ->
  hoare (holding f n H (db :: Zs) W0 j)
    (checked_ E (cudaMemcpy E (Some da) (Some db) (sizeof_float * n) cudaMemcpyDeviceToDevice))
    (fun _ => holding f n H (db :: Zs) W0 (j + 1)).
Proof.
  intros Hin. eapply hoare_conseq.
  - apply (d2d_ba (db :: Zs) W0 j). simpl. auto.
  - auto.
  - cbv beta. intros _ w Hw. rewrite Nat.add_1_r.
    eapply holding_incl; [|exact Hw]. simpl. intuition congruence.
Qed.

Lemma d2d_warm_up Zs W0 j :
  In da Zs ->
  hoare (holding f n H Zs W0 j)
    (repeatM 16
       (checked_ E (cudaMemcpy E (Some db) (Some da) (sizeof_float * n) cudaMemcpyDeviceToDevice) >>
        checked_ E (cudaMemcpy E (Some da) (Some db) (sizeof_float * n) cudaMemcpyDeviceToDevice)))
    (fun _ => holding f n H (db :: Zs) W0 (j + 32)).
Proof.
  intros Hin. change (repeatM 16 ?body) with (body >> repeatM 15 body).
  eapply hoare_bind.
  { eapply hoare_bind; [apply d2d_ab, Hin|]. intros ?.
    replace (S j) with (j + 1)%nat by lia. apply d2d_ba_inv, Hin. }
  intros ?.
  replace (j + 32)%nat with (j + 1 + 1 + 15 * 2)%nat by lia.
  apply (hoare_repeatM_count (holding f n H (db :: Zs) W0) _ 2).
  intros k. eapply hoare_bind; [apply d2d_ab_inv, Hin|]. intros ?.
  replace (k + 2)%nat with (k + 1 + 1)%nat by lia. apply d2d_ba_inv, Hin.
Qed.

Lemma profileD2DCopies_holding Zs W0 m :
  In da Zs ->
  hoare (holding f n H Zs W0 m)
    (profileD2DCopies E (Some da) (Some db) n)
    (fun _ => holding f n
                (H ++ [(HostPinned, sizeof_float * n, true);
                       (HostPinned, sizeof_float * n, true)])
                (S (length H) :: length H :: db :: Zs) W0 (m + 234)).
Proof.
  intros Hin. unfold profileD2DCopies. cbv zeta.
  rewrite (u32_bytes n n_range).
  eapply hoare_bind.
  { apply holding_step; [apply printf_total|auto with heapless]. }
  intros ?. eapply hoare_bind; [apply d2d_warm_up, Hin|]. intros ?.
  apply create_timers. intros i.
  eapply timed_region.
  { apply (hoare_repeatM_count (holding f n H (db :: Zs) W0) _ 1).
    intros k. apply d2d_ab_inv, Hin. }
  { auto with quiet. }
  apply uninit_step; [apply mono_completed|]. intros t0.
  apply read_elapsed. intros time1.
  eapply timed_region.
  { apply (hoare_repeatM_count (holding f n H (db :: Zs) W0) _ 1).
    intros k. apply d2d_ba_inv, Hin. }
  { auto with quiet. }
  apply uninit_step; [apply mono_completed|]. intros t1.
  apply read_elapsed. intros time2.
  apply print_step; [apply mono_live|].
  eapply hoare_bind_pure; [apply mallocHost_step, mono_live|]. intros h_a ->. cbv beta.
  eapply hoare_bind_pure; [apply mallocHost_step, mono_live|]. intros h_b ->. cbv beta.
  rewrite <- app_assoc. simpl. rewrite length_app. simpl.
  replace (length H + 1)%nat with (S (length H)) by lia.
  set (H' := H ++ _).
  assert (La : H' !! length H = Some (HostPinned, sizeof_float * n, true)).
  { subst H'. rewrite lookup_app_r by lia. now rewrite Nat.sub_diag. }
  assert (Lb : H' !! S (length H) = Some (HostPinned, sizeof_float * n, true)).
  { subst H'. rewrite lookup_app_r by lia.
    now replace (S (length H) - length H)%nat with 1%nat by lia. }
  assert (Lda : H' !! da = Some (DeviceMem, sza, true)) by now apply lookup_app_l_Some.
  assert (Ldb : H' !! db = Some (DeviceMem, szb, true)) by now apply lookup_app_l_Some.
  clearbody H'.
  eapply hoare_bind.
  { apply heap_step; [|auto with quiet|apply mono_live].
    eapply (cudaMemcpy_holding E cuda_ok f n H' (db :: Zs) W0 _
              cudaMemcpyDeviceToHost (length H) da); eauto; try reflexivity; try lia.
    simpl. auto. }
  intros ?. eapply hoare_bind.
  { apply heap_step; [|auto with quiet|apply mono_live].
    eapply (cudaMemcpy_holding E cuda_ok f n H' (length H :: db :: Zs) W0 _
              cudaMemcpyDeviceToHost (S (length H)) db); eauto; try reflexivity; try lia.
    simpl. auto. }
  intros ?. eapply hoare_bind.
  { apply heap_step; [|auto with quiet|apply mono_live].
    eapply verify_loop_holding; eauto; try reflexivity; try lia.
    - rewrite Z2Nat.id by lia. lia.
    - rewrite Z2Nat.id by lia. lia.
    - apply holding_step; [apply printf_total|auto with heapless]. }
  intros ?.
  eapply hoare_conseq.
  - apply destroy_timers.
  - cbv beta. intros w Hw. exact Hw.
  - cbv beta. intros _ w Hw.
    replace (m + 234)%nat
      with (S (S (m + 32 + Z.to_nat 100 * 1 + Z.to_nat 100 * 1)))%nat by (simpl; lia).
    exact Hw.
Qed.
End DeviceCopies.
End DeviceContents.

(** ** The verdict of the comparison, in every run *)

Lemma ends_step {A B} (m : M A) (f : A -> M B) V :
  steady m -> (forall a, ends (f a) V) -> ends (bind m f) V.
Proof.
  intros Hm Hf w b w' Hr. unfold bind in Hr.
  destruct (m w) as [a w1| |] eqn:Hmw; try discriminate.
  destruct (Hm w a w1 Hmw) as [HF HL]. rewrite <- HF, <- HL. exact (Hf a w1 b w' Hr).
Qed.

Lemma ends_shift {A B} (m : M A) (f : A -> M B) (P : A -> nat -> nat -> Prop) V :
  (forall w a w1, m w = Ret a w1 ->
     failure_lines w1 = failure_lines w /\ P a (length (heap w)) (length (heap w1))) ->
  (forall a, ends (f a) (fun F k1 w' => forall k, P a k k1 -> V F k w')) ->
  ends (bind m f) V.
Proof.
  intros Hm Hf w b w' Hr. unfold bind in Hr.
  destruct (m w) as [a w1| |] eqn:Hmw; try discriminate.
  destruct (Hm w a w1 Hmw) as [HF HP]. rewrite <- HF.
  exact (Hf a w1 b w' Hr (length (heap w)) HP).
Qed.

Lemma ends_last {A B} (m : M A) (f : A -> M B) V :
  ends m V -> (forall a, steady (f a)) -> (forall a, heapless (f a)) ->
  (forall F k w1 w2, failure_lines w2 = failure_lines w1 -> heap w2 = heap w1 ->
                     V F k w1 -> V F k w2) ->
  ends (bind m f) V.
Proof.
  intros Hm Hs Hh HV w b w' Hr. unfold bind in Hr.
  destruct (m w) as [a w1| |] eqn:Hmw; try discriminate.
  destruct (Hs a w1 b w' Hr) as [HF _]. destruct (Hh a w1 b w' Hr) as [HH _].
  exact (HV _ _ w1 w' HF HH (Hm w a w1 Hmw)).
Qed.

Lemma verdict_stable F line a b n w1 w2 :
  failure_lines w2 = failure_lines w1 -> heap w2 = heap w1 ->
  verdict F line a b n w1 -> verdict F line a b n w2.
Proof.
  intros HF HH. unfold verdict, agree_at, differ_at, peek. now rewrite HF, HH.
Qed.

Lemma steady_ret {A} (a : A) : steady (ret a).
Proof. intros w a' w' [= _ <-]. auto. Qed.

Lemma steady_bind {A B} (m : M A) (f : A -> M B) :
  steady m -> (forall a, steady (f a)) -> steady (bind m f).
Proof.
  intros Hm Hf w b w' Hr. unfold bind in Hr.
  destruct (m w) as [a w1| |] eqn:Hmw; try discriminate.
  destruct (Hm w a w1 Hmw) as [E1 S1]. destruct (Hf a w1 b w' Hr) as [E2 S2].
  split; congruence.
Qed.

Lemma steady_repeatM n body : steady body -> steady (repeatM n body).
Proof.
  intros Hb. induction n; simpl; [apply steady_ret|].
  apply steady_bind; auto.
Qed.

Lemma failure_lines_emit a w :
  failure_lines (emit a w)
  = failure_lines w ++ (if is_failure_line a then [a] else []).
Proof. unfold failure_lines. simpl. now rewrite List.filter_app. Qed.

Ltac prim_steady :=
  let w := fresh "w" in let a := fresh "a" in let w' := fresh "w'" in
  let Hr := fresh "Hr" in
  intros w a w' Hr;
  run_cases Hr; injection Hr as <- <-; unfold failure_lines; simpl;
  rewrite ?List.filter_app; simpl; rewrite ?app_nil_r, ?length_insert;
  split; reflexivity.

Section Steady.
Variable E : env.

Lemma printf_steady fmt args :
  is_failure_line (a_printf fmt args) = false -> steady (printf fmt args).
Proof.
  intros Hf w a w' [= _ <-]. rewrite failure_lines_emit, Hf, app_nil_r. auto.
Qed.
Lemma uninitialised_float_steady : steady (uninitialised_float E).
Proof. unfold uninitialised_float. prim_steady. Qed.
Lemma checkCuda_steady r : steady (checkCuda E r).
Proof. unfold checkCuda. prim_steady. Qed.
Lemma cudaMemcpy_steady dst src bytes kind : steady (cudaMemcpy E dst src bytes kind).
Proof. unfold cudaMemcpy. prim_steady. Qed.
Lemma cudaEventCreate_steady : steady (cudaEventCreate E).
Proof. unfold cudaEventCreate. prim_steady. Qed.
Lemma cudaEventRecord_steady e : steady (cudaEventRecord E e).
Proof. unfold cudaEventRecord. prim_steady. Qed.
Lemma cudaEventSynchronize_steady e : steady (cudaEventSynchronize E e).
Proof. unfold cudaEventSynchronize. prim_steady. Qed.
Lemma cudaEventElapsedTime_steady t s e : steady (cudaEventElapsedTime E t s e).
Proof. unfold cudaEventElapsedTime. prim_steady. Qed.
Lemma cudaEventDestroy_steady e : steady (cudaEventDestroy E e).
Proof. unfold cudaEventDestroy. prim_steady. Qed.

Lemma checked__steady call : steady call -> steady (checked_ E call).
Proof.
  intros Hc. unfold checked_. apply steady_bind; [exact Hc|]. intros r.
  apply steady_bind; [apply checkCuda_steady|]. intros. apply steady_ret.
Qed.

Lemma checked_steady {A} (call : M (cudaError_t * A)) : steady call -> steady (checked E call).
Proof.
  intros Hc. unfold checked. apply steady_bind; [exact Hc|]. intros [r out].
  apply steady_bind; [apply checkCuda_steady|]. intros. apply steady_ret.
Qed.

Lemma checked_mallocHost_allocated bytes w p w1 :
  checked E (cudaMallocHost E bytes) w = Ret p w1 ->
  failure_lines w1 = failure_lines w /\ allocated p (length (heap w)) (length (heap w1)).
Proof.
  unfold checked, bind. intros Hr.
  destruct (cudaMallocHost E bytes w) as [[r q] w0| |] eqn:Hm; try discriminate.
  destruct (checkCuda E r w0) as [r' w2| |] eqn:Hc; try discriminate.
  unfold ret in Hr. injection Hr as <- <-.
  destruct (checkCuda_steady r w0 r' w2 Hc) as [F2 L2]. rewrite F2, L2.
  unfold cudaMallocHost in Hm.
  destruct (env_host_alloc_ok E (step w)); injection Hm as <- <- <-.
  - split; [now rewrite failure_lines_emit, app_nil_r|].
    left. split; [reflexivity|]. simpl. rewrite length_app. simpl. lia.
  - split; [now rewrite failure_lines_emit, app_nil_r|]. right. auto.
Qed.
End Steady.

Create HintDb steady.
#[export] Hint Resolve steady_ret steady_bind steady_repeatM uninitialised_float_steady
  checkCuda_steady cudaMemcpy_steady cudaEventCreate_steady cudaEventRecord_steady
  cudaEventSynchronize_steady cudaEventElapsedTime_steady cudaEventDestroy_steady
  checked__steady checked_steady : steady.
#[export] Hint Extern 1 (steady (printf _ _)) => (apply printf_steady; reflexivity) : steady.

Lemma load_returns p i w x w1 :
  load p i w = Ret x w1 -> w1 = w /\ exists b, p = Some b /\ peek w b i = Some x.
Proof.
  unfold load, block_at. intros Hr. destruct p as [b|]; [|discriminate].
  destruct (heap w !! b) as [blk|] eqn:Hb; [|discriminate].
  destruct (blk_live blk && is_host (blk_space blk)
            && (sizeof_float * (i + 1) <=? blk_bytes blk)); [|discriminate].
  destruct (0 <=? i); [|discriminate]. injection Hr as <- <-.
  split; [reflexivity|]. exists b. split; [reflexivity|]. unfold peek. now rewrite Hb.
Qed.

Lemma verify_loop_verdict k h_a h_b fmt args :
  forall i w w',
    verify_loop k i h_a h_b (printf fmt args) w = Ret tt w' ->
    (w' = w /\
     forall j, i <= j < i + Z.of_nat k ->
               exists a b, h_a = Some a /\ h_b = Some b /\ agree_at w a b j) \/
    (w' = emit (a_printf fmt args) w /\
     exists j a b, i <= j < i + Z.of_nat k /\ h_a = Some a /\ h_b = Some b /\
                   differ_at w a b j).
Proof.
  induction k as [|k IH]; intros i w w' Hr.
  - left. injection Hr as <-. split; [reflexivity|]. intros; lia.
  - change (verify_loop (S k) i h_a h_b (printf fmt args))
      with (let* x := load h_a i in
            let* y := load h_b i in
            if Float.ne x y then printf fmt args
            else verify_loop k (i + 1) h_a h_b (printf fmt args)) in Hr.
    unfold bind in Hr.
    destruct (load h_a i w) as [x w1| |] eqn:Ha; try discriminate.
    destruct (load_returns _ _ _ _ _ Ha) as (-> & a & Ea & Pa).
    destruct (load h_b i w) as [y w1| |] eqn:Hb; try discriminate.
    destruct (load_returns _ _ _ _ _ Hb) as (-> & b & Eb & Pb).
    destruct (Float.ne x y) eqn:Hne.
    + right. unfold printf in Hr. injection Hr as <-. split; [reflexivity|].
      exists i, a, b. repeat split; auto; try lia. exists x, y. auto.
    + destruct (IH (i + 1) w w' Hr) as [[-> Hag]|[-> (j & a' & b' & Hj & Ea' & Eb' & Hd)]].
      * left. split; [reflexivity|]. intros j Hj.
        destruct (Z.eq_dec j i) as [->|Hji].
        -- exists a, b. repeat split; auto. exists x, y. auto.
        -- apply Hag. lia.
      * right. split; [reflexivity|]. exists j, a', b'. repeat split; auto; lia.
Qed.

Lemma verify_loop_ends n a b fmt args :
  is_failure_line (a_printf fmt args) = true ->
  ends (verify_loop (Z.to_nat n) 0 (Some a) (Some b) (printf fmt args))
    (fun F _ w' => verdict F (a_printf fmt args) a b n w').
Proof.
  intros Hline w [] w' Hr.
  destruct (verify_loop_verdict _ _ _ _ _ _ _ _ Hr)
    as [[-> Hag]|[-> (j & a' & b' & Hj & Ea & Eb & Hd)]].
  - left. split; [reflexivity|]. intros j Hj.
    destruct (Hag j ltac:(lia)) as (a' & b' & Ea & Eb & H).
    injection Ea as <-. injection Eb as <-. exact H.
  - right. split; [now rewrite failure_lines_emit, Hline|].
    injection Ea as <-. injection Eb as <-. exists j. split; [lia|exact Hd].
Qed.

Ltac ends_prefix := repeat (apply ends_step; [solve [auto 6 with steady]|intros ?]).

Lemma destroy_pair_steady E s e :
  steady (checked_ E (cudaEventDestroy E s) >> checked_ E (cudaEventDestroy E e)).
Proof. auto 6 with steady. Qed.

Lemma destroy_pair_heapless E s e :
  heapless (checked_ E (cudaEventDestroy E s) >> checked_ E (cudaEventDestroy E e)).
Proof. apply heapless_bind; auto with heapless. Qed.

Lemma profileCopies_ends E a b d n desc :
  ends (profileCopies E (Some a) (Some b) d n desc)
    (fun F _ w' =>
       verdict F (a_printf "*** %s transfers failed ***" [ArgStr desc]) a b n w').
Proof.
  unfold profileCopies. cbv zeta. ends_prefix.
  apply ends_last.
  - now apply verify_loop_ends.
  - intros _. apply destroy_pair_steady.
  - intros _. apply destroy_pair_heapless.
  - intros F k w1 w2. apply verdict_stable.
Qed.

Lemma verify_loop_ends_any n h_a h_b fmt args :
  is_failure_line (a_printf fmt args) = true ->
  ends (verify_loop (Z.to_nat n) 0 h_a h_b (printf fmt args))
    (fun F k2 w' =>
       forall k1, allocated h_b k1 k2 -> forall k, allocated h_a k k1 ->
                  verdict F (a_printf fmt args) k (S k) n w').
Proof.
  intros Hline w [] w' Hr k1 Hb k Ha.
  destruct (verify_loop_verdict _ _ _ _ _ _ _ _ Hr)
    as [[-> Hag]|[-> (j & a' & b' & Hj & Ea & Eb & Hd)]].
  - left. split; [reflexivity|]. intros j Hj.
    destruct (Hag j ltac:(lia)) as (a' & b' & Ea & Eb & H).
    destruct Ha as [[Ea' ->]|[Ea' _]]; [|congruence].
    destruct Hb as [[Eb' _]|[Eb' _]]; [|congruence].
    rewrite Ea in Ea'. rewrite Eb in Eb'. injection Ea' as <-. injection Eb' as <-. exact H.
  - right. split; [now rewrite failure_lines_emit, Hline|].
    destruct Ha as [[Ea' ->]|[Ea' _]]; [|congruence].
    destruct Hb as [[Eb' _]|[Eb' _]]; [|congruence].
    rewrite Ea in Ea'. rewrite Eb in Eb'. injection Ea' as <-. injection Eb' as <-.
    exists j. split; [lia|exact Hd].
Qed.

Lemma profileD2DCopies_ends E d_a d_b n :
  ends (profileD2DCopies E d_a d_b n)
    (fun F k w' =>
       verdict F (a_printf "*** Device to device transfers failed ***" []) k (S k) n w').
Proof.
  unfold profileD2DCopies. cbv zeta. ends_prefix.
  apply (ends_shift _ _ allocated); [apply checked_mallocHost_allocated|]. intros h_a.
  apply (ends_shift _ _ allocated); [apply checked_mallocHost_allocated|]. intros h_b.
  ends_prefix.
  apply ends_last.
  - now apply verify_loop_ends_any.
  - intros _. apply destroy_pair_steady.
  - intros _. apply destroy_pair_heapless.
  - intros F k w1 w2 HF HH HV k1 Hb k0 Ha. eapply verdict_stable; eauto.
Qed.

Lemma holding_peek f n H Zs W0 m w x i :
  holding f n H Zs W0 m w -> In x Zs -> 0 <= i < n -> peek w x i = Some (f i).
Proof.
  intros (_ & Hz & _) Hx Hi. rewrite List.Forall_forall in Hz.
  destruct (Hz x Hx) as (blk & Hb & Hf). unfold peek. rewrite Hb. now rewrite Hf.
Qed.

(** *** Lines, wire and allocations through the suite *)

Lemma steady_silent {A} (m : M A) : steady m -> silent m.
Proof. intros Hm w a w' Hr. exact (proj1 (Hm w a w' Hr)). Qed.

Lemma silent_ret {A} (a : A) : silent (ret a).
Proof. intros w a' w' [= _ <-]. reflexivity. Qed.

Lemma silent_bind {A B} (m : M A) (f : A -> M B) :
  silent m -> (forall a, silent (f a)) -> silent (bind m f).
Proof.
  intros Hm Hf w b w' Hr. unfold bind in Hr.
  destruct (m w) as [a w1| |] eqn:Hmw; try discriminate.
  rewrite (Hf a w1 b w' Hr). exact (Hm w a w1 Hmw).
Qed.

Lemma keeps_lines {A} (m : M A) L : silent m -> keeps (fun w => failure_lines w = L) m.
Proof. intros Hm w a w' Hr Hw. now rewrite (Hm w a w' Hr). Qed.

Ltac prim_silent :=
  let w := fresh "w" in let a := fresh "a" in let w' := fresh "w'" in
  let Hr := fresh "Hr" in
  intros w a w' Hr;
  run_cases Hr; injection Hr as <- <-; unfold failure_lines; simpl;
  rewrite ?List.filter_app; simpl; rewrite ?app_nil_r; reflexivity.

Section Silent.
Variable E : env.

Lemma malloc_silent bytes : silent (malloc E bytes).
Proof. unfold malloc. prim_silent. Qed.
Lemma cudaMallocHost_silent bytes : silent (cudaMallocHost E bytes).
Proof. unfold cudaMallocHost. prim_silent. Qed.
Lemma cudaMalloc_silent bytes : silent (cudaMalloc E bytes).
Proof. unfold cudaMalloc. prim_silent. Qed.
Lemma store_silent p i v : silent (store p i v).
Proof. unfold store. prim_silent. Qed.
Lemma memcpy_silent dst src bytes : silent (memcpy dst src bytes).
Proof. unfold memcpy. prim_silent. Qed.
Lemma memset_silent dst c bytes : silent (memset dst c bytes).
Proof. unfold memset. prim_silent. Qed.
Lemma clock_now_silent : silent (clock_now E).
Proof. unfold clock_now. prim_silent. Qed.
Lemma nvtxRangeStart_silent msg : silent (nvtxRangeStart msg).
Proof. unfold nvtxRangeStart. prim_silent. Qed.
Lemma nvtxRangeEnd_silent id : silent (nvtxRangeEnd id).
Proof. unfold nvtxRangeEnd. prim_silent. Qed.
Lemma cudaGetDeviceProperties_silent d : silent (cudaGetDeviceProperties E d).
Proof. unfold cudaGetDeviceProperties. prim_silent. Qed.
Lemma cuda_release_silent sp q mk :
  (forall r, is_failure_line (mk r) = false) -> silent (cuda_release E sp q mk).
Proof.
  intros Hmk w a w' Hr. unfold cuda_release in Hr.
  run_cases Hr; injection Hr as <- <-;
    change (failure_lines (set_block ?b ?blk ?w0)) with (failure_lines w0);
    now rewrite failure_lines_emit, Hmk, app_nil_r.
Qed.
Lemma free_silent p : silent (free p).
Proof. unfold free. prim_silent. Qed.
Lemma cudaDeviceReset_silent : silent (cudaDeviceReset E).
Proof. unfold cudaDeviceReset. prim_silent. Qed.

Lemma printf_silent fmt args :
  is_failure_line (a_printf fmt args) = false -> silent (printf fmt args).
Proof. intros Hf. now apply steady_silent, printf_steady. Qed.

Lemma checked_silent {A} (call : M (cudaError_t * A)) : silent call -> silent (checked E call).
Proof.
  intros Hc. unfold checked. apply silent_bind; [exact Hc|]. intros [r out].
  apply silent_bind; [apply steady_silent, checkCuda_steady|]. intros. apply silent_ret.
Qed.

Lemma init_loop_silent k i p : silent (init_loop k i p).
Proof.
  revert i. induction k as [|k IH]; intros i; simpl; [apply silent_ret|].
  apply silent_bind; [apply store_silent|]. intros _. apply IH.
Qed.

Lemma profileH2HCopies_silent h_a h_b n desc : silent (profileH2HCopies E h_a h_b n desc).
Proof.
  unfold profileH2HCopies, Timer_new, Timer_reset, Timer_elapsed. cbv zeta.
  assert (Hrep : forall k body, silent body -> silent (repeatM k body)).
  { intros k body Hb. induction k; simpl; [apply silent_ret|]. apply silent_bind; auto. }
  repeat first [apply silent_bind; [|intros ?] | apply Hrep | apply memcpy_silent
               | apply clock_now_silent | apply silent_ret
               | (apply printf_silent; reflexivity)].
Qed.
End Silent.

Create HintDb silent.
#[export] Hint Resolve silent_ret malloc_silent cudaMallocHost_silent cudaMalloc_silent
  memcpy_silent memset_silent nvtxRangeStart_silent nvtxRangeEnd_silent
  cudaGetDeviceProperties_silent free_silent cudaDeviceReset_silent checked_silent
  init_loop_silent profileH2HCopies_silent : silent.
#[export] Hint Extern 1 (silent (printf _ _)) => (apply printf_silent; reflexivity) : silent.
#[export] Hint Extern 1 (silent (cuda_release _ _ _ _)) =>
  (apply cuda_release_silent; intros ?; reflexivity) : silent.

Lemma hoare_keep_pure {A} (m : M A) P (F : A -> Prop) (Q : A -> world -> Prop) G :
  hoare P m (fun a w => F a /\ Q a w) -> keeps G m ->
  hoare (fun w => P w /\ G w) m (fun a w => F a /\ (Q a w /\ G w)).
Proof.
  intros Hm Hk. eapply hoare_conseq; [apply (hoare_keep m _ _ G Hm Hk)|auto|].
  cbv beta. tauto.
Qed.

Lemma hoare_ends {A} (m : M A) P Q V (G : world -> Prop) :
  hoare P m Q -> ends m V ->
  (forall w a w', P w -> G w -> Q a w' -> V (failure_lines w) (length (heap w)) w' -> G w') ->
  hoare (fun w => P w /\ G w) m (fun a w => Q a w /\ G w).
Proof.
  intros Hm He Himp w [Hp Hg]. specialize (Hm w Hp). unfold wp in *.
  destruct (m w) as [a w'| |] eqn:Hr; try contradiction.
  split; [exact Hm|]. exact (Himp w a w' Hp Hg Hm (He w a w' Hr)).
Qed.

Lemma hoare_wire_kept {A} (k : M A) f n H Zs W0 m (G : world -> Prop) R :
  (forall rest, length rest = m -> Forall (carries f n) rest ->
     hoare (fun w => ((heap_attrs w = H /\ Forall (holds f n (heap w)) Zs)
                      /\ wire w = W0 ++ rest) /\ G w) k R) ->
  hoare (fun w => holding f n H Zs W0 m w /\ G w) k R.
Proof.
  intros Hk w [(Ha & Hz & rest & Hw & Hl & Hf) Hg]. apply (Hk rest Hl Hf). auto.
Qed.

Lemma verdict_holding f n H Zs W0 m w' F line a b :
  holding f n H Zs W0 m w' -> In a Zs -> In b Zs ->
  (forall j, 0 <= j < n -> Float.ne (f j) (f j) = false) ->
  verdict F line a b n w' -> failure_lines w' = F.
Proof.
  intros Hh Ha Hb Hf [[HF _]|[_ (j & Hj & x & y & Px & Py & Hne)]]; [exact HF|].
  rewrite (holding_peek _ _ _ _ _ _ _ _ _ Hh Ha Hj) in Px.
  rewrite (holding_peek _ _ _ _ _ _ _ _ _ Hh Hb Hj) in Py.
  injection Px as <-. injection Py as <-. rewrite (Hf j Hj) in Hne. discriminate.
Qed.

Lemma reset_attrs_block blk : attrs (reset_block blk) = reset_attrs (attrs blk).
Proof. destruct blk as [sp sz l d]. destruct sp; reflexivity. Qed.

Lemma outstanding_reset s H :
  length (List.filter (fun a : space * Z * bool => snd a && space_eqb (fst (fst a)) s)
            (map reset_attrs H))
  = match s with
    | HostPageable =>
        length (List.filter (fun a : space * Z * bool => snd a && space_eqb (fst (fst a)) s) H)
    | _ => 0%nat
    end.
Proof.
  induction H as [|[[sp sz] l] H IH]; simpl; [now destruct s|].
  destruct s, sp, l; simpl; rewrite IH; reflexivity.
Qed.

Section Release.
Variable E : env.
Hypothesis cuda_ok : forall k, env_cuda E k = cudaSuccess.

Lemma cuda_release_suffix sp mk H L k sz :
  L !! k = Some (sp, sz, true) -> 0 <= sz ->
  hoare (attrs_are (H ++ L)) (cuda_release E sp (Some (length H + k)%nat) mk)
    (fun _ => attrs_are (H ++ <[k := (sp, sz, false)]> L)).
Proof.
  intros Hk Hsz w Hw. unfold attrs_are in *. unfold wp, cuda_release. rewrite cuda_ok.
  assert (Hl : heap_attrs w !! (length H + k)%nat = Some (sp, sz, true)).
  { rewrite Hw, lookup_app_r by lia.
    now replace (length H + k - length H)%nat with k by lia. }
  destruct (block_at_attrs w (space_eqb sp) (Some (length H + k)%nat) 0 _ sp sz eq_refl Hl)
    as (blk & Hb & Hh & Hat); [now destruct sp|exact Hsz|].
  rewrite Hb.
  rewrite (heap_attrs_release (emit _ w) _ blk Hh), heap_attrs_emit, Hw.
  injection Hat as -> -> _. now rewrite insert_app_r.
Qed.

Lemma free_suffix H L k sz :
  L !! k = Some (HostPageable, sz, true) -> 0 <= sz ->
  hoare (attrs_are (H ++ L)) (free (Some (length H + k)%nat))
    (fun _ => attrs_are (H ++ <[k := (HostPageable, sz, false)]> L)).
Proof.
  intros Hk Hsz w Hw. unfold attrs_are in *. unfold wp, free.
  assert (Hl : heap_attrs w !! (length H + k)%nat = Some (HostPageable, sz, true)).
  { rewrite Hw, lookup_app_r by lia.
    now replace (length H + k - length H)%nat with k by lia. }
  destruct (block_at_attrs w (space_eqb HostPageable) (Some (length H + k)%nat) 0 _
              HostPageable sz eq_refl Hl) as (blk & Hb & Hh & Hat); [reflexivity|exact Hsz|].
  rewrite Hb.
  rewrite (heap_attrs_release (emit _ w) _ blk Hh), heap_attrs_emit, Hw.
  injection Hat as -> -> _. now rewrite insert_app_r.
Qed.

Lemma cudaDeviceReset_attrs H :
  hoare (attrs_are H) (cudaDeviceReset E) (fun _ => attrs_are (map reset_attrs H)).
Proof.
  intros w Hw. unfold attrs_are in *. unfold wp, cudaDeviceReset. rewrite cuda_ok.
  rewrite heap_attrs_emit. unfold heap_attrs in *. simpl. rewrite <- Hw, !map_map.
  apply map_ext. intros blk. apply reset_attrs_block.
Qed.
End Release.

(** *** The suite, when no call fails *)

Lemma memset_float_zero : memset_float 0 = Float.zero.
Proof. reflexivity. Qed.

Lemma hoare_wire {A} (k : M A) f n H Zs W0 m R :
  (forall rest, length rest = m -> Forall (carries f n) rest ->
     hoare (fun w => (heap_attrs w = H /\ Forall (holds f n (heap w)) Zs) /\ wire w = W0 ++ rest) k R) ->
  hoare (holding f n H Zs W0 m) k R.
Proof.
  intros Hk w (Ha & Hz & rest & Hw & Hl & Hf). apply (Hk rest Hl Hf). auto.
Qed.

Lemma holding_fresh f n H W w : heap_attrs w = H -> wire w = W -> holding f n H [] W 0 w.
Proof.
  intros Ha Hw. split; [exact Ha|]. split; [constructor|].
  exists []. rewrite app_nil_r. auto.
Qed.

Lemma holding_nothing f H W0 a x w :
  H !! a = Some x -> holding f 0 H [] W0 0 w -> holding f 0 H [a] W0 0 w.
Proof.
  intros Hx (Ha & _ & Hw). split; [exact Ha|]. split; [|exact Hw].
  constructor; [|constructor]. rewrite <- Ha in Hx. unfold heap_attrs in Hx.
  rewrite list_lookup_fmap in Hx. destruct (heap w !! a) as [blk|] eqn:Hb; [|discriminate].
  exists blk. split; [exact Hb|]. intros i Hi. lia.
Qed.

Lemma cuda_release_wire E sp q mk (P : list transfer -> Prop) :
  keeps (fun w => P (wire w)) (cuda_release E sp q mk).
Proof.
  intros w a w' Hr Hw. unfold cuda_release in Hr.
  destruct (env_cuda E (step w)); try (injection Hr as <- <-; exact Hw).
  destruct (block_at w (space_eqb sp) q 0) as [[b blk]|]; injection Hr as <- <-; exact Hw.
Qed.

Lemma free_wire p (P : list transfer -> Prop) : keeps (fun w => P (wire w)) (free p).
Proof.
  intros w a w' Hr Hw. unfold free in Hr. destruct p as [b|].
  - destruct (block_at w (space_eqb HostPageable) (Some b) 0) as [[b' blk]|];
      [injection Hr as <- <-; exact Hw|discriminate].
  - injection Hr as <- <-. exact Hw.
Qed.

Lemma cudaDeviceReset_wire E (P : list transfer -> Prop) :
  keeps (fun w => P (wire w)) (cudaDeviceReset E).
Proof.
  intros w a w' Hr Hw. unfold cudaDeviceReset in Hr.
  destruct (env_cuda E (step w)); injection Hr as <- <-; exact Hw.
Qed.

Section SuiteContents.
Variable E : env.
Hypothesis allocs : host_allocs_ok E.
Hypothesis cuda_ok : forall k, env_cuda E k = cudaSuccess.

Lemma malloc_holding f n H Zs W0 m bytes :
  hoare (holding f n H Zs W0 m) (malloc E bytes)
    (fun p w => p = Some (length H) /\
                holding f n (H ++ [(HostPageable, bytes, true)]) Zs W0 m w).
Proof.
  intros w Hh. unfold wp, malloc. rewrite allocs.
  pose proof Hh as (Ha & _). split; [now rewrite <- Ha, heap_attrs_length|].
  apply (holding_add_block f n H Zs W0 m w
           (mkBlock HostPageable bytes true (env_garbage E (length (heap w))))). exact Hh.
Qed.

Lemma cudaMallocHost_holding f n H Zs W0 m bytes :
  hoare (holding f n H Zs W0 m) (checked E (cudaMallocHost E bytes))
    (fun p w => p = Some (length H) /\
                holding f n (H ++ [(HostPinned, bytes, true)]) Zs W0 m w).
Proof.
  intros w Hh. unfold wp.
  erewrite checked_success.
  2:{ unfold cudaMallocHost. rewrite allocs. reflexivity. }
  pose proof Hh as (Ha & _). split; [now rewrite <- Ha, heap_attrs_length|].
  apply (holding_add_block f n H Zs W0 m w
           (mkBlock HostPinned bytes true (env_garbage E (length (heap w))))). exact Hh.
Qed.

Lemma cudaMalloc_holding f n H Zs W0 m bytes :
  hoare (holding f n H Zs W0 m) (checked E (cudaMalloc E bytes))
    (fun p w => p = Some (length H) /\
                holding f n (H ++ [(DeviceMem, bytes, true)]) Zs W0 m w).
Proof.
  intros w Hh. unfold wp.
  erewrite checked_success.
  2:{ unfold cudaMalloc. rewrite cuda_ok. reflexivity. }
  pose proof Hh as (Ha & _). split; [now rewrite <- Ha, heap_attrs_length|].
  apply (holding_add_block f n H Zs W0 m w
           (mkBlock DeviceMem bytes true (env_garbage E (length (heap w))))). exact Hh.
Qed.

Lemma store_holding f H W0 a sp sz i :
  H !! a = Some (sp, sz, true) -> is_host sp = true -> sizeof_float * (i + 1) <= sz ->
  0 <= i ->
  hoare (holding f i H [a] W0 0) (store (Some a) i (f i))
    (fun _ => holding f (i + 1) H [a] W0 0).
Proof.
  intros Ha Hh Hsz Hi w Hw. unfold wp.
  pose proof Hw as (Hat & Hz & Hwire). rewrite <- Hat in Ha.
  destruct (block_at_of_attrs w _ a sp sz _ Ha Hh Hsz) as (blk & Bp & Lp).
  unfold store. rewrite Bp. destruct (Z.leb_spec 0 i); [|lia].
  split; [|split].
  - rewrite <- Hat. apply heap_attrs_set_data. exact Lp.
  - constructor; [|constructor]. eexists. split.
    + simpl. apply list_lookup_insert_eq. now apply lookup_lt_Some in Lp.
    + intros j Hj. simpl. destruct (Z.eqb_spec j i) as [->|Hne]; [reflexivity|].
      rewrite List.Forall_forall in Hz.
      destruct (Hz a (or_introl eq_refl)) as (blk' & L' & Hf).
      rewrite Lp in L'. injection L' as <-. apply Hf. lia.
  - destruct Hwire as (rest & Hw1 & Hl & _). destruct rest; [|discriminate].
    exists []. simpl. auto.
Qed.

Lemma init_loop_holding H W0 a sp sz k :
  H !! a = Some (sp, sz, true) -> is_host sp = true ->
  forall i, 0 <= i -> sizeof_float * (i + Z.of_nat k) <= sz ->
  hoare (holding Float.b32_of_Z i H [a] W0 0) (init_loop k i (Some a))
    (fun _ => holding Float.b32_of_Z (i + Z.of_nat k) H [a] W0 0).
Proof.
  intros Ha Hh. induction k as [|k IH]; intros i Hi Hsz.
  - simpl. intros w Hw. unfold wp, ret. now rewrite Z.add_0_r.
  - change (init_loop (S k) i (Some a))
      with (store (Some a) i (Float.b32_of_Z i) >> init_loop k (i + 1) (Some a)).
    eapply hoare_bind.
    { apply (store_holding Float.b32_of_Z H W0 a sp sz i Ha Hh); [|exact Hi].
      unfold sizeof_float in *. lia. }
    intros ?. replace (i + Z.of_nat (S k)) with (i + 1 + Z.of_nat k) by lia.
    apply IH; [lia|]. unfold sizeof_float in *. lia.
Qed.

Lemma memset_holding n H Zs W0 m d sp sz :
  0 <= n ->
  H !! d = Some (sp, sz, true) -> is_host sp = true -> sizeof_float * n <= sz ->
  hoare (holding (fun _ => Float.zero) n H Zs W0 m) (memset (Some d) 0 (sizeof_float * n))
    (fun _ => holding (fun _ => Float.zero) n H (d :: Zs) W0 m).
Proof.
  intros Hn Hd Hh Hsz w Hw. unfold wp.
  pose proof Hw as (Hat & Hz & Hwire). rewrite <- Hat in Hd.
  destruct (block_at_of_attrs w _ d sp sz _ Hd Hh Hsz) as (blk & Bp & Lp).
  unfold memset. rewrite Bp, (elems_of_bytes n).
  assert (Hnew : holds (fun _ => Float.zero) n
                   (<[d := with_data blk (copy_data n (fun _ => memset_float 0) (blk_data blk))]>
                      (heap w)) d).
  { eexists. split; [apply list_lookup_insert_eq; now apply lookup_lt_Some in Lp|].
    intros i Hi. simpl. now rewrite copy_data_below. }
  split; [|split].
  - rewrite <- Hat. apply (heap_attrs_set_data (emit _ w)). exact Lp.
  - simpl. constructor; [exact Hnew|].
    apply List.Forall_forall. intros b Hb.
    destruct (decide (d = b)) as [<-|Hne]; [exact Hnew|].
    rewrite List.Forall_forall in Hz. destruct (Hz b Hb) as (blk' & Hblk & Hf).
    exists blk'. split; [|exact Hf]. now rewrite list_lookup_insert_ne.
  - exact Hwire.
Qed.

Lemma getDeviceProperties_total device w :
  exists a w', checked E (cudaGetDeviceProperties E device) w = Ret a w'.
Proof.
  eexists _, _. apply checked_success. unfold cudaGetDeviceProperties.
  rewrite cuda_ok. reflexivity.
Qed.

Ltac calm_step :=
  eapply hoare_bind;
  [apply holding_step;
   [first [apply printf_total | apply nvtxRangeStart_total | apply nvtxRangeEnd_total
          | apply getDeviceProperties_total]
   |auto with heapless]
  |intros ?].

Ltac kept := apply keeps_lines; auto 6 with silent.

Ltac calm_kept :=
  eapply hoare_bind;
  [apply hoare_keep;
   [apply holding_step;
    [first [apply printf_total | apply nvtxRangeStart_total | apply nvtxRangeEnd_total
           | apply getDeviceProperties_total]
    |auto with heapless]
   |kept]
  |intros ?].

Lemma memBenchmark_from_run n w :
  0 <= n < 2 ^ 30 ->
  exists w' setup rest,
    memBenchmark_from E n w = Ret 0 w' /\
    wire w' = wire w ++ setup :: rest /\
    carries Float.b32_of_Z n setup /\
    length rest = 766%nat /\
    Forall (carries (fun _ => Float.zero) n) rest /\
    failure_lines w' = failure_lines w /\
    heap_attrs w' = map reset_attrs (heap_attrs w) ++ suite_blocks (sizeof_float * n).
Proof.
  intros Hn.
  set (L := failure_lines w).
  set (G := fun w0 : world => failure_lines w0 = L).
  cut (hoare (fun w0 => holding Float.b32_of_Z 0 (heap_attrs w) [] (wire w) 0 w0 /\ G w0)
         (memBenchmark_from E n)
         (fun r w' => r = 0 /\ exists setup rest,
              wire w' = wire w ++ setup :: rest /\
              carries Float.b32_of_Z n setup /\
              length rest = 766%nat /\
              Forall (carries (fun _ => Float.zero) n) rest /\
              failure_lines w' = L /\
              heap_attrs w'
              = map reset_attrs (heap_attrs w) ++ suite_blocks (sizeof_float * n))).
  { intros Hh.
    destruct (hoare_returns _ _ _ w Hh
                (conj (holding_fresh _ _ _ _ w eq_refl eq_refl) eq_refl))
      as (a & w' & Hr & -> & setup & rest & Hq).
    exists w', setup, rest. auto. }
  clearbody L. generalize (heap_attrs w) (wire w). intros H W0.
  unfold memBenchmark_from. cbv zeta. rewrite (u32_bytes n Hn).
  eapply hoare_bind_pure; [apply hoare_keep_pure; [apply malloc_holding|kept]|].
  intros h_aPageable ->. cbv beta.
  eapply hoare_bind_pure; [apply hoare_keep_pure; [apply malloc_holding|kept]|].
  intros h_bPageable ->. cbv beta.
  eapply hoare_bind_pure; [apply hoare_keep_pure; [apply cudaMallocHost_holding|kept]|].
  intros h_aPinned ->. cbv beta.
  eapply hoare_bind_pure; [apply hoare_keep_pure; [apply cudaMallocHost_holding|kept]|].
  intros h_bPinned ->. cbv beta.
  eapply hoare_bind_pure; [apply hoare_keep_pure; [apply cudaMalloc_holding|kept]|].
  intros d_a ->. cbv beta.
  eapply hoare_bind_pure; [apply hoare_keep_pure; [apply cudaMalloc_holding|kept]|].
  intros d_b ->. cbv beta.
  rewrite <- !app_assoc. rewrite !length_app. simpl.
  set (sz := sizeof_float * n).
  set (a := length H).
  replace (a + 1 + 1 + 1 + 1 + 1)%nat with (a + 5)%nat by lia.
  replace (a + 1 + 1 + 1 + 1)%nat with (a + 4)%nat by lia.
  replace (a + 1 + 1 + 1)%nat with (a + 3)%nat by lia.
  replace (a + 1 + 1)%nat with (a + 2)%nat by lia.
  set (H6 := H ++ _).
  assert (E6 : H6 = H ++ [(HostPageable, sz, true); (HostPageable, sz, true);
                          (HostPinned, sz, true); (HostPinned, sz, true);
                          (DeviceMem, sz, true); (DeviceMem, sz, true)]) by reflexivity.
  assert (Ea : a = length H) by reflexivity.
  assert (L0 : H6 !! a = Some (HostPageable, sz, true)).
  { subst H6 a. rewrite lookup_app_r by lia. now rewrite Nat.sub_diag. }
  assert (L1 : H6 !! (a + 1)%nat = Some (HostPageable, sz, true)).
  { subst H6 a. rewrite lookup_app_r by lia.
    now replace (length H + 1 - length H)%nat with 1%nat by lia. }
  assert (L2 : H6 !! (a + 2)%nat = Some (HostPinned, sz, true)).
  { subst H6 a. rewrite lookup_app_r by lia.
    now replace (length H + 2 - length H)%nat with 2%nat by lia. }
  assert (L3 : H6 !! (a + 3)%nat = Some (HostPinned, sz, true)).
  { subst H6 a. rewrite lookup_app_r by lia.
    now replace (length H + 3 - length H)%nat with 3%nat by lia. }
  assert (L4 : H6 !! (a + 4)%nat = Some (DeviceMem, sz, true)).
  { subst H6 a. rewrite lookup_app_r by lia.
    now replace (length H + 4 - length H)%nat with 4%nat by lia. }
  assert (L5 : H6 !! (a + 5)%nat = Some (DeviceMem, sz, true)).
  { subst H6 a. rewrite lookup_app_r by lia.
    now replace (length H + 5 - length H)%nat with 5%nat by lia. }
  assert (Hlen : length H6 = (a + 6)%nat).
  { subst H6 a. rewrite length_app. simpl. lia. }
  clearbody H6 a.
  assert (Hsz : sizeof_float * n <= sz) by (subst sz; lia).
  assert (Hpos : 0 <= sz) by (subst sz; unfold sizeof_float; lia).
  (* initialisation *)
  eapply hoare_bind.
  { apply hoare_keep; [|kept].
    eapply hoare_conseq.
    - apply (init_loop_holding H6 W0 a HostPageable sz (Z.to_nat n) L0 eq_refl 0); [lia|].
      rewrite Z2Nat.id by lia. exact Hsz.
    - intros w0. apply holding_nothing with (x := (HostPageable, sz, true)). exact L0.
    - cbv beta. intros ? w0 Hw0. rewrite Z2Nat.id, Z.add_0_l in Hw0 by lia. exact Hw0. }
  intros ?. eapply hoare_bind.
  { apply hoare_keep; [|kept].
    eapply (memcpy_holding Float.b32_of_Z n H6 [a] W0 0%nat (a + 2)%nat a);
      eauto; try reflexivity; try lia. simpl. auto. }
  intros ?. apply hoare_wire_kept. intros [|setup [|? ?]] Hl Hsetup; try discriminate.
  apply List.Forall_inv in Hsetup.
  eapply hoare_conseq with
    (P' := fun w0 => holding (fun _ => Float.zero) n H6 [] (W0 ++ [setup]) 0 w0 /\ G w0)
    (Q' := fun r w' => r = 0 /\
             exists rest, wire w' = (W0 ++ [setup]) ++ rest /\ length rest = 766%nat /\
                          Forall (carries (fun _ => Float.zero) n) rest /\
                          failure_lines w' = L /\
                          heap_attrs w' = map reset_attrs H ++ suite_blocks sz).
  2:{ intros w0 [[[Ha ?] Hw] Hg]. split; [now apply holding_fresh|exact Hg]. }
  2:{ cbv beta. intros r w' (-> & rest & Hw & Hl' & Hrest & HL & HA). split; [reflexivity|].
      exists setup, rest. rewrite <- app_assoc in Hw. auto 8. }
  set (W1 := W0 ++ [setup]). clearbody W1. clear Hl Hsetup.
  set (z := fun _ : Z => Float.zero).
  assert (Hz : forall j, 0 <= j < n -> Float.ne (z j) (z j) = false) by (intros; reflexivity).
  eapply hoare_bind.
  { apply hoare_keep; [|kept].
    apply (memset_holding n H6 [] W1 0%nat (a + 1)%nat HostPageable sz); auto; lia. }
  intros ?. eapply hoare_bind.
  { apply hoare_keep; [|kept].
    apply (memset_holding n H6 [(a + 1)%nat] W1 0%nat (a + 3)%nat HostPinned sz); auto; lia. }
  intros ?.
  calm_kept. calm_kept. calm_kept. calm_kept.
  eapply hoare_bind.
  { apply hoare_keep; [|kept].
    eapply (profileH2HCopies_holding E z n Hn H6 a (a + 1)%nat); eauto;
      try reflexivity; try lia. simpl. auto. }
  intros ?. calm_kept. calm_kept.
  eapply hoare_bind.
  { apply hoare_keep; [|kept].
    eapply (profileH2HCopies_holding E z n Hn H6 (a + 2)%nat (a + 3)%nat); eauto;
      try reflexivity; try lia. simpl. auto. }
  intros ?. calm_kept. calm_kept.
  eapply hoare_bind.
  { eapply hoare_ends.
    - eapply (profileCopies_holding E cuda_ok z n Hn H6 a (a + 1)%nat (a + 4)%nat); eauto;
        try reflexivity; try lia. simpl. auto.
    - apply profileCopies_ends.
    - cbv beta. intros w0 ? w1 Hp Hg Hq Hv. unfold G. rewrite <- Hg.
      eapply verdict_holding; [exact Hq| | |exact Hz|exact Hv]; simpl; auto. }
  intros ?. calm_kept. calm_kept.
  eapply hoare_bind.
  { eapply hoare_ends.
    - eapply (profileCopies_holding E cuda_ok z n Hn H6 (a + 2)%nat (a + 3)%nat (a + 4)%nat);
        eauto; try reflexivity; try lia. simpl. auto.
    - apply profileCopies_ends.
    - cbv beta. intros w0 ? w1 Hp Hg Hq Hv. unfold G. rewrite <- Hg.
      eapply verdict_holding; [exact Hq| | |exact Hz|exact Hv]; simpl; auto 8. }
  intros ?. calm_kept. calm_kept.
  eapply hoare_bind.
  { eapply hoare_ends.
    - eapply (profileD2DCopies_holding E cuda_ok z n Hn allocs H6 (a + 4)%nat (a + 5)%nat);
        eauto; try lia. simpl. auto.
    - apply profileD2DCopies_ends.
    - cbv beta. intros w0 ? w1 Hp Hg Hq Hv. unfold G. rewrite <- Hg.
      assert (Hk : length (heap w0) = length H6).
      { destruct Hp as (Hat & _). now rewrite <- Hat, heap_attrs_length. }
      rewrite Hk in Hv.
      eapply verdict_holding; [exact Hq| | |exact Hz|exact Hv]; simpl; auto. }
  intros ?. calm_kept. calm_kept.
  (* cleanup *)
  apply hoare_wire_kept. intros rest Hl Hrest.
  set (K := fun w0 : world => wire w0 = W1 ++ rest).
  subst H6 a. rewrite <- app_assoc. simpl.
  eapply hoare_conseq with
    (P' := fun w0 =>
             (attrs_are (H ++ [(HostPageable, sz, true); (HostPageable, sz, true);
                               (HostPinned, sz, true); (HostPinned, sz, true);
                               (DeviceMem, sz, true); (DeviceMem, sz, true);
                               (HostPinned, sz, true); (HostPinned, sz, true)]) w0
              /\ K w0) /\ G w0)
    (Q' := fun r w0 =>
             r = 0 /\ (attrs_are (map reset_attrs H ++ suite_blocks sz) w0 /\ K w0) /\ G w0).
  2:{ intros w0 [[[Ha ?] Hw] Hg]. auto. }
  2:{ cbv beta. intros r w0 (-> & [Ha Hw] & Hg). split; [reflexivity|]. exists rest.
      split; [exact Hw|]. split; [exact Hl|]. auto. }
  unfold cudaFree, cudaFreeHost.
  eapply hoare_bind.
  { apply hoare_keep; [apply hoare_keep|kept].
    - apply (cuda_release_suffix E cuda_ok DeviceMem _ H _ 4 sz); [reflexivity|exact Hpos].
    - apply (cuda_release_wire E _ _ _ (fun W => W = W1 ++ rest)). }
  intros ?. cbv beta. simpl. eapply hoare_bind.
  { apply hoare_keep; [apply hoare_keep|kept].
    - apply (cuda_release_suffix E cuda_ok HostPinned _ H _ 2 sz); [reflexivity|exact Hpos].
    - apply (cuda_release_wire E _ _ _ (fun W => W = W1 ++ rest)). }
  intros ?. cbv beta. simpl. eapply hoare_bind.
  { apply hoare_keep; [apply hoare_keep|kept].
    - apply (cuda_release_suffix E cuda_ok HostPinned _ H _ 3 sz); [reflexivity|exact Hpos].
    - apply (cuda_release_wire E _ _ _ (fun W => W = W1 ++ rest)). }
  intros ?. cbv beta. simpl.
  replace (Some (length H)) with (Some (length H + 0)%nat) by (f_equal; lia).
  eapply hoare_bind.
  { apply hoare_keep; [apply hoare_keep|kept].
    - apply (free_suffix H _ 0 sz); [reflexivity|exact Hpos].
    - apply (free_wire _ (fun W => W = W1 ++ rest)). }
  intros ?. cbv beta. simpl. eapply hoare_bind.
  { apply hoare_keep; [apply hoare_keep|kept].
    - apply (free_suffix H _ 1 sz); [reflexivity|exact Hpos].
    - apply (free_wire _ (fun W => W = W1 ++ rest)). }
  intros ?. cbv beta. simpl. eapply hoare_bind.
  { apply hoare_keep; [apply hoare_keep|kept].
    - apply (cudaDeviceReset_attrs E cuda_ok).
    - apply (cudaDeviceReset_wire E (fun W => W = W1 ++ rest)). }
  intros ?. cbv beta. intros w0 [[Ha Hw] Hg]. unfold wp, ret.
  split; [reflexivity|]. split; [|exact Hg]. split; [|exact Hw].
  unfold attrs_are in *. rewrite Ha, map_app. reflexivity.
Qed.

Lemma memBenchmark_from_wire n w :
  0 <= n < 2 ^ 30 ->
  exists w' setup rest,
    memBenchmark_from E n w = Ret 0 w' /\
    wire w' = wire w ++ setup :: rest /\
    carries Float.b32_of_Z n setup /\
    length rest = 766%nat /\
    Forall (carries (fun _ => Float.zero) n) rest.
Proof.
  intros Hn.
  destruct (memBenchmark_from_run n w Hn) as (w' & setup & rest & H1 & H2 & H3 & H4 & H5 & _).
  exists w', setup, rest. auto.
Qed.
End SuiteContents.

Lemma peek_attrs w x sp sz l i :
  heap_attrs w !! x = Some (sp, sz, l) ->
  exists blk, heap w !! x = Some blk /\ peek w x i = Some (blk_data blk i).
Proof.
  unfold heap_attrs. rewrite list_lookup_fmap. intros Hx.
  destruct (heap w !! x) as [blk|] eqn:Hb; [|discriminate].
  exists blk. split; [reflexivity|]. unfold peek. now rewrite Hb.
Qed.

(** C3, as the code has it. The byte count of a routine is the 32-bit
    [n * sizeof(float)]. For [n] below 2^30 and two distinct live host
    buffers of [n] floats, [profileH2HCopies] returns and both buffers then
    hold what [h_b] held before the call: the warm-up and the first timed
    phase copy [h_b] over [h_a]. In [memBenchmark], when no call fails, the
    first transfer carries the values [(float)i] into the pinned source, and
    every one of the 766 transfers of the five routines that follow carries
    zeros only. *)
Theorem h2h_keeps_destination_and_suite_moves_zeros :
  (forall E a b n desc w spa sza spb szb,
      0 <= n < 2 ^ 30 ->
      heap_attrs w !! a = Some (spa, sza, true) -> is_host spa = true ->
      sizeof_float * n <= sza ->
      heap_attrs w !! b = Some (spb, szb, true) -> is_host spb = true ->
      sizeof_float * n <= szb ->
      a <> b ->
      exists w',
        profileH2HCopies E (Some a) (Some b) n desc w = Ret tt w' /\
        forall i, 0 <= i < n ->
          peek w b i <> None /\ peek w' a i = peek w b i /\ peek w' b i = peek w b i) /\
  (forall E w,
      fault_free E ->
      exists w' setup rest,
        memBenchmark E w = Ret 0 w' /\
        wire w' = wire w ++ setup :: rest /\
        carries Float.b32_of_Z nElements setup /\
        length rest = 766%nat /\
        Forall (carries (fun _ => Float.zero) nElements) rest).
Proof.
  split.
  - intros E a b n desc w spa sza spb szb Hn Ha Hha Hsa Hb Hhb Hsb Hne.
    destruct (peek_attrs w b spb szb true 0 Hb) as (blk & Lb & _).
    assert (Hpre : holding (blk_data blk) n (heap_attrs w) [b] (wire w) 0 w).
    { split; [reflexivity|]. split.
      - constructor; [|constructor]. exists blk. auto.
      - exists []. rewrite app_nil_r. auto. }
    destruct (hoare_returns _ _ _ w
                (profileH2HCopies_holding E (blk_data blk) n Hn (heap_attrs w) a b
                   spa spb sza szb Ha Hb Hha Hhb Hsa Hsb Hne [b] (or_introl eq_refl)
                   desc (wire w) 0%nat) Hpre)
      as ([] & w' & Hr & Hpost).
    exists w'. split; [exact Hr|]. intros i Hi.
    assert (Pb : peek w b i = Some (blk_data blk i)) by (unfold peek; now rewrite Lb).
    rewrite Pb. split; [discriminate|].
    split; eapply holding_peek; eauto; simpl; auto.
  - intros E w [Hall Hcuda]. unfold memBenchmark.
    apply memBenchmark_from_wire; auto. apply no_wrap_nElements.
Qed.

Lemma h2h_keeps_destination_and_suite_moves_zeros_witness :
  (exists w',
     profileH2HCopies E_ok (Some 0%nat) (Some 1%nat) 2 "Pageable" (w_buffers 2) = Ret tt w' /\
     forall i, 0 <= i < 2 ->
       peek (w_buffers 2) 1 i <> None /\
       peek w' 0 i = peek (w_buffers 2) 1 i /\ peek w' 1 i = peek (w_buffers 2) 1 i) /\
  (exists w' setup rest,
     memBenchmark E_ok initial_world = Ret 0 w' /\
     wire w' = wire initial_world ++ setup :: rest /\
     carries Float.b32_of_Z nElements setup /\
     length rest = 766%nat /\
     Forall (carries (fun _ => Float.zero) nElements) rest).
Proof.
  split.
  - apply (proj1 h2h_keeps_destination_and_suite_moves_zeros E_ok 0%nat 1%nat 2
             "Pageable"%string (w_buffers 2) HostPageable 8 HostPageable 8);
      try reflexivity; try lia; try discriminate.
  - apply (proj2 h2h_keeps_destination_and_suite_moves_zeros E_ok initial_world).
    split; intros k; reflexivity.
Defined.

(** With 2^30 elements the byte count wraps to 0, nothing is copied, and
    [h_a] still holds its own values, not those of [h_b]. *)
Lemma h2h_keeps_destination_counterexample :
  let w := w_buffers (2 ^ 30) in
  let w' := world_of (profileH2HCopies E_ok (Some 0%nat) (Some 1%nat) (2 ^ 30) "Pageable" w) in
  profileH2HCopies E_ok (Some 0%nat) (Some 1%nat) (2 ^ 30) "Pageable" w = Ret tt w' /\
  u32 (2 ^ 30 * sizeof_float) = 0 /\
  peek w 1 1 = Some Float.zero /\
  peek w' 0 1 = Some (Float.b32_of_Z 1) /\
  peek w' 0 1 <> peek w 1 1.
Proof.
  cbv zeta.
  assert (Oa : host_ok (heap_attrs (w_buffers (2 ^ 30))) (Some 0%nat)
                 (u32 (2 ^ 30 * sizeof_float))).
  { exists 0%nat, HostPageable, (sizeof_float * 2 ^ 30).
    repeat split; auto. vm_compute. discriminate. }
  assert (Ob : host_ok (heap_attrs (w_buffers (2 ^ 30))) (Some 1%nat)
                 (u32 (2 ^ 30 * sizeof_float))).
  { exists 1%nat, HostPageable, (sizeof_float * 2 ^ 30).
    repeat split; auto. vm_compute. discriminate. }
  destruct (hoare_world_of _ _ _ (w_buffers (2 ^ 30))
              (profileH2HCopies_frame E_ok _ (Some 0%nat) (Some 1%nat) (2 ^ 30)
                 "Pageable"%string Oa Ob ltac:(discriminate)) eq_refl) as [[] Hr].
  split; [exact Hr|].
  split; [reflexivity|]. split; [reflexivity|].
  assert (Hp : peek (world_of (profileH2HCopies E_ok (Some 0%nat) (Some 1%nat) (2 ^ 30)
                                 "Pageable" (w_buffers (2 ^ 30)))) 0 1
               = Some (Float.b32_of_Z 1)) by (vm_compute; reflexivity).
  split; [exact Hp|]. rewrite Hp. vm_compute. discriminate.
Qed.

(** ** The figures a run prints *)

Lemma figures_app l1 l2 : figures (l1 ++ l2) = figures l1 ++ figures l2.
Proof.
  induction l1 as [|a l1 IH]; simpl; [reflexivity|].
  destruct (figure_of a); simpl; now rewrite IH.
Qed.

Lemma figures_shape l : figures (shape l) = figures l.
Proof.
  induction l as [|a l IH]; simpl; [reflexivity|].
  destruct a; simpl; rewrite ?IH; reflexivity.
Qed.

Lemma figures_repeat a k : figure_of a = None -> figures (repeat a k) = [].
Proof. intros Ha. induction k as [|k IH]; simpl; [reflexivity|]. now rewrite Ha. Qed.

Lemma figures_H2H E h_a h_b n desc t0 t1 t2 t3 :
  figures (H2H_shape E h_a h_b n desc t0 t1 t2 t3)
  = [Float.b64_of_b32
       (h2h_reported (u32 (n * sizeof_float))
          (Float.b32_of_b64 (elapsed_seconds E t0 t1))
          (Float.b32_of_b64 (elapsed_seconds E t2 t3)))].
Proof.
  unfold H2H_shape. cbv zeta. rewrite !figures_app, !figures_repeat by reflexivity.
  reflexivity.
Qed.

Lemma figures_concat_repeat l k : figures l = [] -> figures (concat (repeat l k)) = [].
Proof.
  intros Hl. induction k as [|k IH]; simpl; [reflexivity|].
  now rewrite figures_app, Hl, IH.
Qed.

Lemma figures_PC h_a h_b d n desc s e time1 time2 failed :
  figures (PC_shape h_a h_b d n desc s e time1 time2 failed)
  = [hd_reported (u32 (n * sizeof_float)) time1; hd_reported (u32 (n * sizeof_float)) time2].
Proof.
  unfold PC_shape. cbv zeta.
  rewrite !figures_app, figures_concat_repeat by reflexivity.
  destruct failed; reflexivity.
Qed.

Lemma figures_D2D d_a d_b n s e time1 time2 h_a h_b failed :
  figures (D2D_shape d_a d_b n s e time1 time2 h_a h_b failed)
  = [Float.b64_of_b32 (d2d_reported (u32 (n * sizeof_float)) time1 time2)].
Proof.
  unfold D2D_shape. cbv zeta.
  rewrite !figures_app, figures_concat_repeat, !figures_repeat by reflexivity.
  destruct failed; reflexivity.
Qed.

(** *** C1: the host-to-host routine compares nothing *)

Lemma H2H_shape_failure_lines E h_a h_b n desc t0 t1 t2 t3 :
  List.filter is_failure_line (H2H_shape E h_a h_b n desc t0 t1 t2 t3) = [].
Proof.
  unfold H2H_shape. cbv zeta.
  assert (Hr : forall a k, is_failure_line a = false ->
                           List.filter is_failure_line (repeat a k) = []).
  { intros a k Ha. induction k as [|k IH]; simpl; [reflexivity|]. now rewrite Ha. }
  rewrite !List.filter_app, !Hr by reflexivity. reflexivity.
Qed.

(** C1, as the code has it. [profileH2HCopies] ends with the bandwidth
    line: however a run ends, it has printed no failure line. With 2^30
    elements the byte count wraps to 0, the run returns, the buffers differ
    at index 1 and nothing is reported, where a comparison as in
    [profileCopies] would have printed its failure line. *)
Theorem profileH2HCopies_compares_nothing :
  (forall E h_a h_b n desc w,
      List.filter is_failure_line
        (emitted w (world_of (profileH2HCopies E h_a h_b n desc w))) = []) /\
  (let w := w_buffers (2 ^ 30) in
   let w' := world_of (profileH2HCopies E_ok (Some 0%nat) (Some 1%nat) (2 ^ 30) "Pageable" w) in
   profileH2HCopies E_ok (Some 0%nat) (Some 1%nat) (2 ^ 30) "Pageable" w = Ret tt w' /\
   peek w' 0 1 = Some (Float.b32_of_Z 1) /\
   peek w' 1 1 = Some Float.zero /\
   Float.ne (Float.b32_of_Z 1) Float.zero = true).
Proof.
  split.
  - intros E h_a h_b n desc w.
    destruct (shaped_always _ _ w (profileH2HCopies_shaped E h_a h_b n desc))
      as ([] & t & t0 & t1 & t2 & t3 & Hs).
    pose proof (H2H_shape_failure_lines E h_a h_b n desc t0 t1 t2 t3) as Hf.
    rewrite <- Hs, List.filter_app, failure_lines_shape in Hf.
    now apply app_eq_nil in Hf.
  - cbv zeta.
    assert (Oa : host_ok (heap_attrs (w_buffers (2 ^ 30))) (Some 0%nat)
                   (u32 (2 ^ 30 * sizeof_float))).
    { exists 0%nat, HostPageable, (sizeof_float * 2 ^ 30).
      repeat split; auto. vm_compute. discriminate. }
    assert (Ob : host_ok (heap_attrs (w_buffers (2 ^ 30))) (Some 1%nat)
                   (u32 (2 ^ 30 * sizeof_float))).
    { exists 1%nat, HostPageable, (sizeof_float * 2 ^ 30).
      repeat split; auto. vm_compute. discriminate. }
    destruct (hoare_world_of _ _ _ (w_buffers (2 ^ 30))
                (profileH2HCopies_frame E_ok _ (Some 0%nat) (Some 1%nat) (2 ^ 30)
                   "Pageable"%string Oa Ob ltac:(discriminate)) eq_refl) as [[] Hr].
    split; [exact Hr|].
    split; [vm_compute; reflexivity|]. split; vm_compute; reflexivity.
Qed.

(** The sibling routine on buffers that differ: in a release build in
    which every CUDA call fails nothing is copied, and [profileCopies]
    prints its failure line and returns. *)
Example profileCopies_reports_mismatch :
  let w := w_buffers 2 in
  let w' := world_of (profileCopies E_cuda_down (Some 0%nat) (Some 1%nat) (Some 2%nat) 2
                        "Pageable" w) in
  profileCopies E_cuda_down (Some 0%nat) (Some 1%nat) (Some 2%nat) 2 "Pageable" w = Ret tt w' /\
  List.filter is_failure_line (emitted w w')
  = [a_printf "*** %s transfers failed ***" [ArgStr "Pageable"]].
Proof.
  cbv zeta.
  assert (Oa : host_ok (heap_attrs (w_buffers 2)) (Some 0%nat) 8).
  { exists 0%nat, HostPageable, 8. repeat split; auto. reflexivity. }
  assert (Ob : host_ok (heap_attrs (w_buffers 2)) (Some 1%nat) 8).
  { exists 1%nat, HostPageable, 8. repeat split; auto. reflexivity. }
  destruct (hoare_world_of _ _ _ (w_buffers 2)
              (profileCopies_frame E_cuda_down eq_refl _ (Some 0%nat) (Some 1%nat) (Some 2%nat) 2
                 "Pageable"%string ltac:(lia) Oa Ob) eq_refl) as [[] Hr].
  split; [exact Hr|]. vm_compute. reflexivity.
Qed.

(** *** C4, C5, C6: the arithmetic of the figures *)

Lemma lit_e_pos k : (0 <= k)%Z -> (0 < lit_e (F := Q) k)%Q.
Proof.
  intros Hk. simpl. apply Qinv_lt_0_compat.
  change 0%Q with (inject_Z 0). rewrite <- Zlt_Qlt. apply Z.pow_pos_nonneg; lia.
Qed.

Lemma of_int_pos z : (0 < z)%Z -> (0 < of_int (F := Q) z)%Q.
Proof. intros Hz. simpl. change 0%Q with (inject_Z 0). now rewrite <- Zlt_Qlt. Qed.

Lemma Qdiv_pos a b : (0 < a)%Q -> (0 < b)%Q -> (0 < a / b)%Q.
Proof.
  intros Ha Hb. unfold Qdiv. apply Qmult_lt_0_compat; [exact Ha|].
  now apply Qinv_lt_0_compat.
Qed.

Lemma band_round_trip_pos k iters bytes (t : Q) :
  (0 <= k)%Z -> (0 < iters)%Z -> (0 < bytes)%Z -> (0 < t)%Q ->
  (0 < band_round_trip k iters bytes t)%Q.
Proof.
  intros Hk Hi Hb Ht. unfold band_round_trip.
  change (@fdiv Q _) with Qdiv. change (@fmul Q _) with Qmult.
  apply Qdiv_pos; [|exact Ht].
  apply Qmult_lt_0_compat; [|now apply lit_e_pos].
  apply Qmult_lt_0_compat; [|now apply of_int_pos].
  apply Qmult_lt_0_compat; apply of_int_pos; lia.
Qed.

Lemma band_one_way_pos bytes (t : Q) :
  (0 < bytes)%Z -> (0 < t)%Q -> (0 < band_one_way bytes t)%Q.
Proof.
  intros Hb Ht. unfold band_one_way.
  change (@fdiv Q _) with Qdiv. change (@fmul Q _) with Qmult.
  apply Qdiv_pos; [|exact Ht].
  apply Qmult_lt_0_compat; [now apply of_int_pos|apply lit_e_pos; lia].
Qed.

Lemma band_mean_pos (b1 b2 : Q) : (0 < b1)%Q -> (0 < b2)%Q -> (0 < band_mean b1 b2)%Q.
Proof.
  intros H1 H2. unfold band_mean.
  change (@fdiv Q _) with Qdiv. change (@fadd Q _) with Qplus.
  apply Qdiv_pos; [|reflexivity].
  rewrite <- (Qplus_0_l 0). apply Qplus_lt_le_compat; [exact H1|now apply Qlt_le_weak].
Qed.

Lemma mean_minus_at_mean k iters bytes (t1 t2 : Q) :
  (0 < t1)%Q -> (0 < t2)%Q ->
  (band_mean (band_round_trip k iters bytes t1) (band_round_trip k iters bytes t2)
   - spec_bandwidth_at_mean_time k iters bytes t1 t2
   == band_round_trip k iters bytes 1 * ((t1 - t2) * (t1 - t2) / (2 * t1 * t2 * (t1 + t2))))%Q.
Proof.
  intros H1 H2.
  assert (H12 : (0 < t1 + t2)%Q).
  { rewrite <- (Qplus_0_l 0). apply Qplus_lt_le_compat; [exact H1|now apply Qlt_le_weak]. }
  unfold band_mean, spec_bandwidth_at_mean_time, band_round_trip.
  change (@fdiv Q _) with Qdiv. change (@fmul Q _) with Qmult. change (@fadd Q _) with Qplus.
  change (@of_int Q _ 2) with (2%Q). change (@of_int Q _ 1) with (1%Q).
  generalize (@of_int Q _ iters) (@of_int Q _ bytes) (@lit_e Q _ k). intros qi qb ql.
  field. repeat split; intros Hz; rewrite Hz in *; 
    first [apply (Qlt_irrefl 0); assumption | idtac].
Qed.

Lemma Qsquare_pos (d : Q) : ~ (d == 0)%Q -> (0 < d * d)%Q.
Proof.
  intros Hd. destruct (Q_dec d 0) as [[Hlt|Hgt]|Heq]; [| |contradiction].
  - setoid_replace (d * d)%Q with ((- d) * (- d))%Q using relation Qeq by ring.
    assert (0 < - d)%Q by (apply Qlt_minus_iff in Hlt; now rewrite Qplus_0_l in Hlt).
    now apply Qmult_lt_0_compat.
  - now apply Qmult_lt_0_compat.
Qed.

Lemma at_mean_below_mean k iters bytes (t1 t2 : Q) :
  (0 <= k)%Z -> (0 < iters)%Z -> (0 < bytes)%Z -> (0 < t1)%Q -> (0 < t2)%Q ->
  ~ (t1 == t2)%Q ->
  (spec_bandwidth_at_mean_time k iters bytes t1 t2
   < band_mean (band_round_trip k iters bytes t1) (band_round_trip k iters bytes t2))%Q.
Proof.
  intros Hk Hi Hb H1 H2 Hne. apply Qlt_minus_iff.
  change (?a + - ?b)%Q with (a - b)%Q.
  rewrite (mean_minus_at_mean k iters bytes t1 t2 H1 H2).
  apply Qmult_lt_0_compat; [apply band_round_trip_pos; auto; reflexivity|].
  apply Qdiv_pos.
  - apply Qsquare_pos. intros Hz. apply Hne.
    setoid_replace t1 with ((t1 - t2) + t2)%Q using relation Qeq by ring. rewrite Hz. ring.
  - repeat apply Qmult_lt_0_compat; auto; try reflexivity.
    rewrite <- (Qplus_0_l 0). apply Qplus_lt_le_compat; [exact H1|now apply Qlt_le_weak].
Qed.

Lemma at_mean_equals_mean k iters bytes (t1 t2 : Q) :
  (0 < t1)%Q -> (0 < t2)%Q -> (t1 == t2)%Q ->
  (band_mean (band_round_trip k iters bytes t1) (band_round_trip k iters bytes t2)
   == spec_bandwidth_at_mean_time k iters bytes t1 t2)%Q.
Proof.
  intros H1 H2 Heq.
  pose proof (mean_minus_at_mean k iters bytes t1 t2 H1 H2) as Hd.
  assert (Hz : (t1 - t2 == 0)%Q) by (rewrite Heq; ring).
  rewrite Hz in Hd.
  setoid_replace (band_mean (band_round_trip k iters bytes t1) (band_round_trip k iters bytes t2))
    with ((band_mean (band_round_trip k iters bytes t1) (band_round_trip k iters bytes t2)
           - spec_bandwidth_at_mean_time k iters bytes t1 t2)
          + spec_bandwidth_at_mean_time k iters bytes t1 t2)%Q using relation Qeq by ring.
  rewrite Hd. unfold Qdiv. ring.
Qed.

Lemma readings_shape l : readings (shape l) = readings l.
Proof.
  induction l as [|a l IH]; simpl; [reflexivity|].
  destruct a; simpl; rewrite ?IH; reflexivity.
Qed.

Lemma readings_H2H E h_a h_b n desc t0 t1 t2 t3 :
  readings (H2H_shape E h_a h_b n desc t0 t1 t2 t3)
  = [Clock t0; Clock t1; Clock t2; Clock t3;
     Figure (Float.b64_of_b32
               (h2h_reported (u32 (n * sizeof_float))
                  (Float.b32_of_b64 (elapsed_seconds E t0 t1))
                  (Float.b32_of_b64 (elapsed_seconds E t2 t3))))].
Proof. reflexivity. Qed.

Lemma readings_PC h_a h_b d n desc s e time1 time2 failed :
  readings (PC_shape h_a h_b d n desc s e time1 time2 failed)
  = [Elapsed time1; Figure (hd_reported (u32 (n * sizeof_float)) time1);
     Elapsed time2; Figure (hd_reported (u32 (n * sizeof_float)) time2)].
Proof. destruct failed; reflexivity. Qed.

Lemma readings_D2D d_a d_b n s e time1 time2 h_a h_b failed :
  readings (D2D_shape d_a d_b n s e time1 time2 h_a h_b failed)
  = [Elapsed time1; Elapsed time2;
     Figure (Float.b64_of_b32 (d2d_reported (u32 (n * sizeof_float)) time1 time2))].
Proof. destruct failed; reflexivity. Qed.

Lemma profileH2HCopies_readings E h_a h_b n desc w w' :
  profileH2HCopies E h_a h_b n desc w = Ret tt w' ->
  exists t0 t1 t2 t3,
    readings (emitted w w')
    = [Clock t0; Clock t1; Clock t2; Clock t3;
       Figure (Float.b64_of_b32
                 (h2h_reported (u32 (n * sizeof_float))
                    (Float.b32_of_b64 (elapsed_seconds E t0 t1))
                    (Float.b32_of_b64 (elapsed_seconds E t2 t3))))].
Proof.
  intros Hr.
  pose proof (shaped_returned _ _ _ _ _ (profileH2HCopies_shaped E h_a h_b n desc) Hr)
    as (t0 & t1 & t2 & t3 & Hs).
  exists t0, t1, t2, t3. rewrite <- readings_shape, Hs. apply readings_H2H.
Qed.

Lemma profileCopies_readings E h_a h_b d n desc w w' :
  profileCopies E h_a h_b d n desc w = Ret tt w' ->
  exists time1 time2,
    readings (emitted w w')
    = [Elapsed time1; Figure (hd_reported (u32 (n * sizeof_float)) time1);
       Elapsed time2; Figure (hd_reported (u32 (n * sizeof_float)) time2)].
Proof.
  intros Hr.
  pose proof (shaped_returned _ _ _ _ _ (profileCopies_shaped E h_a h_b d n desc) Hr)
    as (s & e & time1 & time2 & failed & Hs).
  exists time1, time2. rewrite <- readings_shape, Hs. apply readings_PC.
Qed.

Lemma profileD2DCopies_readings E d_a d_b n w w' :
  profileD2DCopies E d_a d_b n w = Ret tt w' ->
  exists time1 time2,
    readings (emitted w w')
    = [Elapsed time1; Elapsed time2;
       Figure (Float.b64_of_b32 (d2d_reported (u32 (n * sizeof_float)) time1 time2))].
Proof.
  intros Hr.
  pose proof (shaped_returned _ _ _ _ _ (profileD2DCopies_shaped E d_a d_b n) Hr)
    as (s & e & time1 & time2 & h_a & h_b & failed & Hs).
  exists time1, time2. rewrite <- readings_shape, Hs. apply readings_D2D.
Qed.

(** C4, as the code has it. A run of [profileD2DCopies] that returns has
    read two elapsed times, one from each call of [cudaEventElapsedTime],
    and has printed one figure: the mean of the two bandwidths, the first
    computed from the first time read and the second from the second, in
    [float]. In exact arithmetic and for positive times and sizes the mean
    of the two bandwidths equals the bandwidth at the mean of the two times
    exactly when the two times are equal, and is larger when they differ. *)
Theorem d2d_figure_is_mean_of_bandwidths :
  (forall E d_a d_b n w w',
      profileD2DCopies E d_a d_b n w = Ret tt w' ->
      exists time1 time2,
        readings (emitted w w')
        = [Elapsed time1; Elapsed time2;
           Figure (Float.b64_of_b32
                     (b32 (band_mean
                             (band_round_trip 6 100 (u32 (n * sizeof_float)) (B32 time1))
                             (band_round_trip 6 100 (u32 (n * sizeof_float)) (B32 time2)))))]) /\
  (forall k iters bytes (t1 t2 : Q),
      (0 <= k)%Z -> (0 < iters)%Z -> (0 < bytes)%Z -> (0 < t1)%Q -> (0 < t2)%Q ->
      ((t1 == t2)%Q ->
       (band_mean (band_round_trip k iters bytes t1) (band_round_trip k iters bytes t2)
        == spec_bandwidth_at_mean_time k iters bytes t1 t2)%Q) /\
      (~ (t1 == t2)%Q ->
       (spec_bandwidth_at_mean_time k iters bytes t1 t2
        < band_mean (band_round_trip k iters bytes t1) (band_round_trip k iters bytes t2))%Q)).
Proof.
  split.
  - intros E d_a d_b n w w' Hr. exact (profileD2DCopies_readings E d_a d_b n w w' Hr).
  - intros k iters bytes t1 t2 Hk Hi Hb H1 H2. split.
    + now apply at_mean_equals_mean.
    + now apply at_mean_below_mean.
Qed.

Lemma d2d_figure_is_mean_of_bandwidths_witness :
  (exists time1 time2,
     readings (emitted (w_buffers 2)
                 (world_of (profileD2DCopies E_ok (Some 2%nat) (Some 3%nat) 2 (w_buffers 2))))
     = [Elapsed time1; Elapsed time2;
        Figure (Float.b64_of_b32
                  (b32 (band_mean
                          (band_round_trip 6 100 (u32 (2 * sizeof_float)) (B32 time1))
                          (band_round_trip 6 100 (u32 (2 * sizeof_float)) (B32 time2)))))]) /\
  (band_mean (band_round_trip 6 100 16777216 (2 # 1)) (band_round_trip 6 100 16777216 (2 # 1))
   == spec_bandwidth_at_mean_time 6 100 16777216 (2 # 1) (2 # 1))%Q /\
  (spec_bandwidth_at_mean_time 6 100 16777216 (1 # 1) (3 # 1)
   < band_mean (band_round_trip 6 100 16777216 (1 # 1)) (band_round_trip 6 100 16777216 (3 # 1)))%Q.
Proof.
  destruct d2d_figure_is_mean_of_bandwidths as [H1 H2].
  split; [|split].
  - destruct (hoare_world_of _ _ _ (w_buffers 2)
                (profileD2DCopies_frame E_ok eq_refl ltac:(intros k; reflexivity) _
                   (Some 2%nat) (Some 3%nat) 2 ltac:(lia)) eq_refl) as [[] Hr].
    exact (H1 _ _ _ _ _ _ Hr).
  - apply (H2 6 100 16777216 (2 # 1) (2 # 1)); try reflexivity; discriminate.
  - apply (H2 6 100 16777216 (1 # 1) (3 # 1)); try reflexivity; discriminate.
Defined.

(** With event timings of 1 ms and then 3 ms a run on two floats returns,
    having read 1 and 3 and printed the mean of the two bandwidths, which is
    not the bandwidth at the mean time of 2 ms. With 16777216 bytes and the
    same times the code computes 2236.96 where the formula at the mean time
    gives 1677.72, with the unit factor of the code or, as the last value,
    without it. *)
Lemma d2d_figure_counterexample :
  let t1 := Float.b32_of_Z 1 in
  let t2 := Float.b32_of_Z 3 in
  let w := w_buffers 2 in
  let w' := world_of (profileD2DCopies E_unequal_times (Some 2%nat) (Some 3%nat) 2 w) in
  profileD2DCopies E_unequal_times (Some 2%nat) (Some 3%nat) 2 w = Ret tt w' /\
  readings (emitted w w')
  = [Elapsed t1; Elapsed t2; Figure (Float.b64_of_b32 (S754_finite false 9162597 (-33)))] /\
  b32 (spec_bandwidth_at_mean_time 6 100 8 (B32 t1) (B32 t2))
  = S754_finite false 13743895 (-34) /\
  d2d_reported 16777216 t1 t2 = S754_finite false 9162597 (-12) /\
  b32 (spec_bandwidth_at_mean_time 6 100 16777216 (B32 t1) (B32 t2))
  = S754_finite false 13743895 (-13) /\
  b32 (spec_bandwidth_at_mean_time 0 100 16777216 (B32 t1) (B32 t2))
  = S754_finite false 13107200 7 /\
  Float.ne (d2d_reported 16777216 t1 t2)
    (b32 (spec_bandwidth_at_mean_time 6 100 16777216 (B32 t1) (B32 t2))) = true /\
  Float.ne (d2d_reported 16777216 t1 t2)
    (b32 (spec_bandwidth_at_mean_time 0 100 16777216 (B32 t1) (B32 t2))) = true.
Proof.
  cbv zeta.
  destruct (hoare_world_of _ _ _ (w_buffers 2)
              (profileD2DCopies_frame E_unequal_times eq_refl ltac:(intros k; reflexivity) _
                 (Some 2%nat) (Some 3%nat) 2 ltac:(lia)) eq_refl) as [[] Hr].
  split; [exact Hr|]. repeat split; vm_compute; reflexivity.
Qed.

Lemma SFdiv_by_zero prec emax x s : is_number (SFdiv prec emax x (S754_zero s)) = false.
Proof. destruct x; reflexivity. Qed.

Lemma SFdiv_by_nan prec emax x : is_number (SFdiv prec emax x S754_nan) = false.
Proof. destruct x; reflexivity. Qed.

Lemma mean_of_no_number x y :
  is_number x = false -> is_number (b32 (band_mean (B32 x) (B32 y))) = false.
Proof.
  intros Hx. destruct x as [| [|] | |]; try discriminate;
    destruct y as [| [|] | |[|]]; reflexivity.
Qed.

Lemma mean_with_no_number x y :
  is_number y = false -> is_number (b32 (band_mean (B32 x) (B32 y))) = false.
Proof.
  intros Hy. destruct y as [| [|] | |]; try discriminate;
    destruct x as [| [|] | |[|]]; reflexivity.
Qed.

Lemma widened_no_number x : is_number x = false -> is_number (Float.b64_of_b32 x) = false.
Proof. destruct x; try discriminate; reflexivity. Qed.

(** The time [Timer::elapsed] gives when the clock has not advanced: a
    zero, or no number at all with a clock of no ticks per second. *)
Lemma elapsed_seconds_same E t :
  (exists s, Float.b32_of_b64 (elapsed_seconds E t t) = S754_zero s) \/
  Float.b32_of_b64 (elapsed_seconds E t t) = S754_nan.
Proof.
  unfold elapsed_seconds. rewrite Z.sub_diag.
  change (Float.b64_of_Z 0) with (S754_zero false).
  destruct (Float.b64_of_Z (env_ticks_per_second E)) as [s|s| |s m e]; simpl; eauto.
Qed.

Lemma round_trip_no_time k iters bytes E t :
  is_number (b32 (band_round_trip k iters bytes
                    (B32 (Float.b32_of_b64 (elapsed_seconds E t t))))) = false.
Proof.
  unfold band_round_trip. cbn [fdiv Arith_binary32 b32].
  destruct (elapsed_seconds_same E t) as [[s ->] | ->].
  - apply SFdiv_by_zero.
  - apply SFdiv_by_nan.
Qed.




Lemma same_unit iters bytes (t : Q) :
  ~ (t == 0)%Q ->
  (band_round_trip 9 iters bytes t == band_round_trip 6 iters bytes (1000 * t))%Q.
Proof.
  intros Ht. unfold band_round_trip.
  change (@fdiv Q _) with Qdiv. change (@fmul Q _) with Qmult.
  change (@lit_e Q _ 9) with (1 # 1000000000)%Q. change (@lit_e Q _ 6) with (1 # 1000000)%Q.
  generalize (@of_int Q _ 2) (@of_int Q _ iters) (@of_int Q _ bytes). intros q2 qi qb.
  field. exact Ht.
Qed.

Lemma one_way_unit bytes (t : Q) :
  ~ (t == 0)%Q ->
  (band_one_way bytes (1000 * t) == of_int bytes * lit_e 9 / t)%Q.
Proof.
  intros Ht. unfold band_one_way.
  change (@fdiv Q _) with Qdiv. change (@fmul Q _) with Qmult.
  change (@lit_e Q _ 9) with (1 # 1000000000)%Q. change (@lit_e Q _ 6) with (1 # 1000000)%Q.
  generalize (@of_int Q _ bytes). intros qb.
  field. exact Ht.
Qed.

Lemma round_trip_counts_twice k iters bytes (t : Q) :
  ~ (t == 0)%Q ->
  (band_round_trip k iters bytes t
   == 2 * of_int iters * (of_int bytes * lit_e k / t))%Q.
Proof.
  intros Ht. unfold band_round_trip.
  change (@fdiv Q _) with Qdiv. change (@fmul Q _) with Qmult.
  change (@of_int Q _ 2) with 2%Q.
  generalize (@of_int Q _ iters) (@of_int Q _ bytes) (@lit_e Q _ k). intros qi qb ql.
  field. exact Ht.
Qed.

(** C6, as the code has it. In exact arithmetic the two conventions are
    one unit: 1e-9 with a time in seconds and 1e-6 with the same time in
    milliseconds give the same value, in gigabytes per second. The
    host-to-host and the device-to-device formula count every byte of each
    of the [iters] copies twice, read and write; the host-device formula
    counts the bytes of its one copy once. In [float], where [1e-9] and
    [1e-6] are rounded each on its own, the figures of [profileH2HCopies]
    and of [profileD2DCopies] for one duration are the same number for
    16777216 bytes in one second, and one unit in the last place apart for
    60 bytes in one second (13194139 and 13194140 times 2^-40) and for
    16777216 bytes in 5/1024 s (11258998 and 11258999 times 2^-14); the
    [float] nearest to 1e-6 exceeds 1000 times the [float] nearest to 1e-9
    by 232 * 2^-53. *)
Theorem bandwidth_formulas_share_one_unit :
  (forall iters bytes (t : Q),
      ~ (t == 0)%Q ->
      (band_round_trip 9 iters bytes t == band_round_trip 6 iters bytes (1000 * t))%Q /\
      (band_one_way bytes (1000 * t) == of_int bytes * lit_e 9 / t)%Q /\
      (band_round_trip 6 iters bytes (1000 * t)
       == 2 * of_int iters * band_one_way bytes (1000 * t))%Q) /\
  (let second := Float.b32_of_Z 1 in
   let milliseconds := Float.b32_of_Z 1000 in
   h2h_reported 16777216 second second = S754_finite false 14073748 (-22) /\
   d2d_reported 16777216 milliseconds milliseconds = S754_finite false 14073748 (-22) /\
   h2h_reported 60 second second = S754_finite false 13194139 (-40) /\
   d2d_reported 60 milliseconds milliseconds = S754_finite false 13194140 (-40)) /\
  (let seconds := S754_finite false 10485760 (-31) in
   let milliseconds := S754_finite false 10240000 (-21) in
   (float_value seconds == 5 # 1024)%Q /\
   (float_value milliseconds == 1000 * float_value seconds)%Q /\
   h2h_reported 16777216 seconds seconds = S754_finite false 11258998 (-14) /\
   d2d_reported 16777216 milliseconds milliseconds = S754_finite false 11258999 (-14)) /\
  (float_value (Float.lit32 6) - 1000 * float_value (Float.lit32 9)
   == 232 * Qpower 2 (-53))%Q.
Proof.
  split; [|split; [|split]]; [| | |vm_compute; reflexivity].
  - intros iters bytes t Ht.
    assert (Ht' : ~ (1000 * t == 0)%Q).
    { intros Hz. apply Ht.
      setoid_replace t with ((1000 * t) / 1000)%Q using relation Qeq by (field; discriminate).
      rewrite Hz. reflexivity. }
    split; [now apply same_unit|]. split; [now apply one_way_unit|].
    rewrite (round_trip_counts_twice 6 iters bytes (1000 * t) Ht'). reflexivity.
  - cbv zeta. repeat split; vm_compute; reflexivity.
  - cbv zeta. repeat split; vm_compute; reflexivity.
Qed.

Lemma bandwidth_formulas_share_one_unit_witness :
  (band_round_trip 9 100 16777216 (1 # 1) == band_round_trip 6 100 16777216 (1000 * (1 # 1)))%Q /\
  (band_one_way 16777216 (1000 * (1 # 1)) == of_int 16777216 * lit_e 9 / (1 # 1))%Q /\
  (band_round_trip 6 100 16777216 (1000 * (1 # 1))
   == 2 * of_int 100 * band_one_way 16777216 (1000 * (1 # 1)))%Q.
Proof.
  apply (proj1 bandwidth_formulas_share_one_unit 100 16777216 (1 # 1)). discriminate.
Defined.

(** In [float], for the bytes and iterations of the suite and a duration
    of one second, the formula in seconds and the formula in milliseconds
    give the same figure, 3.36, and so do the two routines that print
    them. *)
Lemma bandwidth_units_counterexample :
  let second := Float.b32_of_Z 1 in
  let milliseconds := Float.b32_of_Z 1000 in
  b32 (band_round_trip 9 100 16777216 (B32 second)) = S754_finite false 14073748 (-22) /\
  b32 (band_round_trip 6 100 16777216 (B32 milliseconds)) = S754_finite false 14073748 (-22) /\
  h2h_reported 16777216 second second = d2d_reported 16777216 milliseconds milliseconds.
Proof. cbv zeta. repeat split; vm_compute; reflexivity. Qed.

(** * Further properties of the routines *)

(** ** What the log of the suite shows besides *)

Lemma range_scan_shape cur outside l : range_scan cur outside (shape l) = range_scan cur outside l.
Proof.
  revert cur outside. induction l as [|a l IH]; intros cur outside; [reflexivity|].
  destruct a; simpl; rewrite ?IH; try reflexivity;
    destruct cur as [[msg k]|]; rewrite ?IH; reflexivity.
Qed.

Lemma lines_shape l : lines (shape l) = lines l.
Proof.
  induction l as [|a l IH]; [reflexivity|].
  destruct a; simpl; rewrite ?IH; reflexivity.
Qed.

Lemma size_line_shape l : List.filter is_size_line (shape l) = List.filter is_size_line l.
Proof. apply filter_shape. intros a. destruct a; simpl; auto; split; auto; discriminate. Qed.

Lemma filter_shape_nil (f : action -> bool) l :
  (forall a, match erase a with
             | Some a' => f a' = f a
             | None => f a = false
             end) ->
  List.filter f (shape l) = [] -> List.filter f l = [].
Proof.
  intros Hf. induction l as [|a l IH]; simpl; [auto|].
  specialize (Hf a). destruct (erase a) as [a'|]; simpl.
  - rewrite Hf. destruct (f a); [discriminate|exact IH].
  - rewrite Hf. exact IH.
Qed.

Lemma memory_calls_shape_nil l :
  List.filter is_memory_call (shape l) = [] -> List.filter is_memory_call l = [].
Proof. apply filter_shape_nil. intros a. destruct a; reflexivity. Qed.

Ltac open_MB_shape Hs :=
  destruct Hs as (pa & pb & qa & qb & da & db & name & s1 & s2 & s3 & s4 & s5
                  & (t0 & t1 & t2 & t3 & ->) & (t0' & t1' & t2' & t3' & ->)
                  & (e1 & e2 & x1 & x2 & f1 & ->) & (e3 & e4 & x3 & x4 & f2 & ->)
                  & (e5 & e6 & x5 & x6 & ha & hb & f3 & ->) & ->).

Lemma MB_shape_ranges E n s :
  is_MB_shape E n s -> range_scan None 0 s = (report_ranges, 1%nat).
Proof.
  intros Hs. open_MB_shape Hs.
  unfold MB_shape, H2H_shape, PC_shape, D2D_shape. cbv zeta.
  generalize (u32 (n * sizeof_float)). intros B.
  destruct f1, f2, f3; reflexivity.
Qed.

Lemma MB_shape_kinds E n s :
  is_MB_shape E n s ->
  map cp_kind (copies s)
  = repeat cudaMemcpyHostToHost 465
    ++ concat (repeat [cudaMemcpyHostToDevice; cudaMemcpyDeviceToHost] 34)
    ++ repeat cudaMemcpyDeviceToDevice 232
    ++ [cudaMemcpyDeviceToHost; cudaMemcpyDeviceToHost].
Proof.
  intros Hs. open_MB_shape Hs.
  unfold MB_shape, H2H_shape, PC_shape, D2D_shape. cbv zeta.
  generalize (u32 (n * sizeof_float)). intros B.
  destruct f1, f2, f3; reflexivity.
Qed.

Lemma MB_shape_lines E n s :
  is_MB_shape E n s ->
  lines s = report_lines /\
  List.filter is_size_line s
  = [a_printf "Transfer size (MB): %d\n" [ArgInt (u32 (n * sizeof_float) / (1024 * 1024))]].
Proof.
  intros Hs. open_MB_shape Hs.
  unfold MB_shape, H2H_shape, PC_shape, D2D_shape. cbv zeta.
  generalize (u32 (n * sizeof_float)). intros B.
  destruct f1, f2, f3; split; reflexivity.
Qed.

Lemma count_kind_map k l :
  count_kind k l = length (List.filter (fun x => kind_eqb x k) (map cp_kind (copies l))).
Proof.
  unfold count_kind. induction (copies l) as [|c cs IH]; simpl; [reflexivity|].
  destruct (kind_eqb (cp_kind c) k); simpl; now rewrite IH.
Qed.



(** X2. A run of the suite that returns has made 767 copies: 465 from host
    to host, 34 from host to device, 36 from device to host, two of them
    the read-back of [profileD2DCopies], and 232 from device to device. *)
Theorem suite_copies_by_direction E w r w' :
  memBenchmark E w = Ret r w' ->
  length (copies (emitted w w')) = 767%nat /\
  count_kind cudaMemcpyHostToHost (emitted w w') = 465%nat /\
  count_kind cudaMemcpyHostToDevice (emitted w w') = 34%nat /\
  count_kind cudaMemcpyDeviceToHost (emitted w w') = 36%nat /\
  count_kind cudaMemcpyDeviceToDevice (emitted w w') = 232%nat.
Proof.
  intros Hr.
  pose proof (shaped_returned _ _ _ _ _ (memBenchmark_from_shaped E nElements) Hr) as [_ Hs].
  apply MB_shape_kinds in Hs. rewrite copies_shape in Hs.
  rewrite !count_kind_map, <- (length_map cp_kind), Hs.
  repeat split; reflexivity.
Qed.

Lemma suite_copies_by_direction_witness :
  exists w',
    memBenchmark E_ok initial_world = Ret 0 w' /\
    length (copies (emitted initial_world w')) = 767%nat /\
    count_kind cudaMemcpyHostToHost (emitted initial_world w') = 465%nat /\
    count_kind cudaMemcpyHostToDevice (emitted initial_world w') = 34%nat /\
    count_kind cudaMemcpyDeviceToHost (emitted initial_world w') = 36%nat /\
    count_kind cudaMemcpyDeviceToDevice (emitted initial_world w') = 232%nat.
Proof.
  destruct (memBenchmark_returns E_ok initial_world eq_refl E_ok_host_allocs_ok) as [w' Hr].
  exists w'. split; [exact Hr|].
  exact (suite_copies_by_direction E_ok initial_world 0 w' Hr).
Defined.

(** X3. A run of the suite that returns has printed, failure lines aside,
    fifteen lines in a fixed order: the device, the transfer size, the
    five blocks of the report and a final newline. The size printed is 16,
    the byte count divided by 1024 * 1024. *)
Theorem suite_prints_fixed_lines E w r w' :
  memBenchmark E w = Ret r w' ->
  lines (emitted w w') = report_lines /\
  List.filter is_size_line (emitted w w')
  = [a_printf "Transfer size (MB): %d\n" [ArgInt 16]].
Proof.
  intros Hr.
  pose proof (shaped_returned _ _ _ _ _ (memBenchmark_from_shaped E nElements) Hr) as [_ Hs].
  apply MB_shape_lines in Hs. rewrite lines_shape, size_line_shape in Hs. exact Hs.
Qed.

Lemma suite_prints_fixed_lines_witness :
  exists w',
    memBenchmark E_ok initial_world = Ret 0 w' /\
    lines (emitted initial_world w') = report_lines /\
    List.filter is_size_line (emitted initial_world w')
    = [a_printf "Transfer size (MB): %d\n" [ArgInt 16]].
Proof.
  destruct (memBenchmark_returns E_ok initial_world eq_refl E_ok_host_allocs_ok) as [w' Hr].
  exists w'. split; [exact Hr|].
  exact (suite_prints_fixed_lines E_ok initial_world 0 w' Hr).
Defined.

(** ** Events and memory calls of the routines *)

Lemma event_ops_app l1 l2 : event_ops (l1 ++ l2) = event_ops l1 ++ event_ops l2.
Proof.
  induction l1 as [|a l1 IH]; [reflexivity|].
  simpl. destruct (event_op_of a); simpl; now rewrite IH.
Qed.

Lemma event_ops_shape l : event_ops (shape l) = event_ops l.
Proof.
  induction l as [|a l IH]; [reflexivity|].
  destruct a; simpl; rewrite ?IH; reflexivity.
Qed.

Lemma PC_shape_event_ops h_a h_b d n desc s e time1 time2 failed :
  event_ops (PC_shape h_a h_b d n desc s e time1 time2 failed) = routine_event_ops s e.
Proof. destruct failed; reflexivity. Qed.

Lemma D2D_shape_event_ops d_a d_b n s e time1 time2 h_a h_b failed :
  event_ops (D2D_shape d_a d_b n s e time1 time2 h_a h_b failed) = routine_event_ops s e.
Proof. destruct failed; reflexivity. Qed.

(** *** Runs that return, in any build *)

Lemma after_bind {A B} (m : M A) (f : A -> M B) P Q R :
  after P m Q -> (forall a, after (Q a) (f a) R) -> after P (bind m f) R.
Proof.
  intros Hm Hf w b w' Hw Hr. unfold bind in Hr.
  destruct (m w) as [a w1| |] eqn:Hmw; try discriminate.
  exact (Hf a w1 b w' (Hm w a w1 Hw Hmw) Hr).
Qed.

Lemma after_bind_pure {A B} (m : M A) (f : A -> M B) P (F : A -> Prop) Q R :
  after P m (fun a w => F a /\ Q w) ->
  (forall a, F a -> after Q (f a) R) ->
  after P (bind m f) R.
Proof.
  intros Hm Hf. eapply after_bind; [exact Hm|].
  intros a w b w' [HF HQ]. now apply Hf.
Qed.

Lemma after_hoare {A} (m : M A) P Q : hoare P m Q -> after P m Q.
Proof.
  intros H w a w' Hw Hr. specialize (H w Hw). unfold wp in H. now rewrite Hr in H.
Qed.

Lemma after_quiet {A} (m : M A) R :
  quiet m -> mono R -> after (on_events R) m (fun _ => on_events R).
Proof. intros Hq Hm w a w' Hw Hr. exact (keeps_quiet m R Hq Hm w a w' Hr Hw). Qed.

Lemma mono_events_count k : mono (events_count k).
Proof. intros evs i j H _. exact H. Qed.

Lemma mono_last_two R i : mono (R i) -> mono (last_two R i).
Proof. intros HR evs k k' [H1 H2] Hk. split; [exact (HR evs k k' H1 Hk)|exact H2]. Qed.

Lemma same_events_count_ret {A} (a : A) : same_events_count (ret a).
Proof. intros w a' w' [= _ <-]. reflexivity. Qed.

Lemma same_events_count_bind {A B} (m : M A) (f : A -> M B) :
  same_events_count m -> (forall a, same_events_count (f a)) ->
  same_events_count (bind m f).
Proof.
  intros Hm Hf w b w' Hr. unfold bind in Hr.
  destruct (m w) as [a w1| |] eqn:Hmw; try discriminate.
  rewrite (Hf a w1 b w' Hr). exact (Hm w a w1 Hmw).
Qed.

Lemma same_events_count_quiet {A} (m : M A) : quiet m -> same_events_count m.
Proof. intros Hq w a w' Hr. now rewrite (proj1 (Hq w a w' Hr)). Qed.

Ltac prim_same_count :=
  let w := fresh "w" in let a := fresh "a" in let w' := fresh "w'" in
  let Hr := fresh "Hr" in
  intros w a w' Hr;
  run_cases Hr; injection Hr as <- <-; simpl;
  rewrite ?length_insert, ?length_map; reflexivity.

Section SameCount.
Variable E : env.

Lemma cudaEventRecord_same_count e : same_events_count (cudaEventRecord E e).
Proof. unfold cudaEventRecord. prim_same_count. Qed.
Lemma cudaEventSynchronize_same_count e : same_events_count (cudaEventSynchronize E e).
Proof. unfold cudaEventSynchronize. prim_same_count. Qed.
Lemma cudaEventElapsedTime_same_count t s e :
  same_events_count (cudaEventElapsedTime E t s e).
Proof. unfold cudaEventElapsedTime. prim_same_count. Qed.
Lemma cudaEventDestroy_same_count e : same_events_count (cudaEventDestroy E e).
Proof. unfold cudaEventDestroy. prim_same_count. Qed.

Lemma checked__same_count call : same_events_count call -> same_events_count (checked_ E call).
Proof.
  intros Hc. unfold checked_. apply same_events_count_bind; [exact Hc|]. intros r.
  apply same_events_count_bind; [apply same_events_count_quiet, checkCuda_quiet|].
  intros. apply same_events_count_ret.
Qed.

Lemma checked_same_count {A} (call : M (cudaError_t * A)) :
  same_events_count call -> same_events_count (checked E call).
Proof.
  intros Hc. unfold checked. apply same_events_count_bind; [exact Hc|]. intros [r out].
  apply same_events_count_bind; [apply same_events_count_quiet, checkCuda_quiet|].
  intros. apply same_events_count_ret.
Qed.
End SameCount.

Lemma last_two_step {A} (R R' : nat -> list ev_state -> nat -> Prop) i (m : M A) :
  hoare (on_events (R i)) m (fun _ => on_events (R' i)) -> same_events_count m ->
  after (on_events (last_two R i)) m (fun _ => on_events (last_two R' i)).
Proof.
  intros Hm Hc w a w' [HR Hl] Hr. split.
  - exact (after_hoare m _ _ Hm w a w' HR Hr).
  - rewrite (Hc w a w' Hr). exact Hl.
Qed.

Section OwnEvents.
Variable E : env.
Hypothesis cuda_ok : forall k, env_cuda E k = cudaSuccess.

Lemma create_first_of k :
  after (on_events (events_count k)) (checked E (cudaEventCreate E))
    (fun e w => e = Some k /\
                (events w !! k = Some EvCreated /\ length (events w) = S k)).
Proof.
  intros w e w' Hk Hr. unfold on_events, events_count in Hk.
  rewrite (checked_success E _ w (Some (length (events w)))
             (emit (a_cudaEventCreate (Some (length (events w))) cudaSuccess)
                (set_events (events w ++ [EvCreated]) w))) in Hr.
  - injection Hr as <- <-. simpl. rewrite Hk. split; [reflexivity|]. split.
    + rewrite lookup_app_r by lia. now rewrite Hk, Nat.sub_diag.
    + rewrite length_app. simpl. lia.
  - unfold cudaEventCreate. now rewrite cuda_ok.
Qed.

Lemma create_second_of i :
  after (fun w => events w !! i = Some EvCreated /\ length (events w) = S i)
    (checked E (cudaEventCreate E))
    (fun e w => e = Some (S i) /\ on_events (last_two timers_live i) w).
Proof.
  intros w e w' [Hi Hlen] Hr.
  rewrite (checked_success E _ w (Some (length (events w)))
             (emit (a_cudaEventCreate (Some (length (events w))) cudaSuccess)
                (set_events (events w ++ [EvCreated]) w))) in Hr.
  - injection Hr as <- <-. rewrite Hlen. split; [reflexivity|].
    unfold on_events, last_two. simpl. split.
    + exists EvCreated, EvCreated. repeat split; try discriminate.
      * rewrite lookup_app_l; [exact Hi|lia].
      * rewrite lookup_app_r by lia. now rewrite Hlen, Nat.sub_diag.
    + rewrite length_app. simpl. lia.
  - unfold cudaEventCreate. now rewrite cuda_ok.
Qed.

Lemma destroy_both_of i :
  after (on_events (last_two timers_live i))
    (checked_ E (cudaEventDestroy E (Some i)) >> checked_ E (cudaEventDestroy E (Some (S i))))
    (fun _ w => own_timers_destroyed i (events w)).
Proof.
  intros w a w' [(s & e & Hs & He & Ls & Le) Hlen] Hr. unfold bind in Hr.
  erewrite checked__success in Hr.
  2:{ unfold cudaEventDestroy. rewrite cuda_ok, (event_at_live w i s Hs Ls). reflexivity. }
  erewrite checked__success in Hr.
  2:{ unfold cudaEventDestroy. rewrite cuda_ok.
      erewrite event_at_live; [reflexivity| |exact Le].
      simpl. rewrite list_lookup_insert_ne by lia. exact He. }
  injection Hr as Hw'. subst w'. unfold own_timers_destroyed. simpl.
  rewrite !length_insert. split; [exact Hlen|]. split.
  - rewrite list_lookup_insert_ne by lia. apply list_lookup_insert_eq. lia.
  - apply list_lookup_insert_eq. rewrite length_insert. lia.
Qed.

Ltac ev_quiet :=
  eapply after_bind;
  [ apply after_quiet;
    [ solve [ auto 6 with quiet
            | apply quiet_repeatM; first [apply quiet_bind; [|intros ?]|idtac];
              auto 6 with quiet ]
    | first [ apply mono_events_count
            | apply mono_last_two; solve [auto with quiet] ] ]
  | intros ?; cbv beta zeta ].

Ltac ev_call :=
  eapply after_bind;
  [ apply last_two_step;
    [ first [ apply record_start | apply record_stop | apply synchronize_stop
            | apply elapsed_completed ]; exact cuda_ok
    | first [ apply checked__same_count | apply checked_same_count ];
      first [ apply cudaEventRecord_same_count | apply cudaEventSynchronize_same_count
            | apply cudaEventElapsedTime_same_count ] ]
  | intros ?; cbv beta zeta ].

Ltac ev_create k :=
  eapply after_bind_pure; [apply (create_first_of k) | intros ? ->; cbv beta zeta];
  eapply after_bind_pure; [apply (create_second_of k) | intros ? ->; cbv beta zeta].

Lemma profileCopies_own_events h_a h_b d n desc k :
  after (on_events (events_count k)) (profileCopies E h_a h_b d n desc)
    (fun _ w => own_timers_destroyed k (events w)).
Proof.
  unfold profileCopies. cbv zeta.
  do 2 ev_quiet. ev_create k.
  repeat first [ev_quiet | ev_call].
  apply destroy_both_of.
Qed.

Lemma profileD2DCopies_own_events d_a d_b n k :
  after (on_events (events_count k)) (profileD2DCopies E d_a d_b n)
    (fun _ w => own_timers_destroyed k (events w)).
Proof.
  unfold profileD2DCopies. cbv zeta.
  do 2 ev_quiet. ev_create k.
  repeat first [ev_quiet | ev_call].
  apply destroy_both_of.
Qed.
End OwnEvents.

(** X4. Every run of [profileCopies] or [profileD2DCopies] that returns,
    in any build and whatever the runtime answered, has made these calls on
    events and no other, in this order: [cudaEventCreate] twice; then, once
    for each of its two timed regions, [cudaEventRecord] on the first event,
    [cudaEventRecord] on the second, [cudaEventSynchronize] on the second
    and [cudaEventElapsedTime] on the pair; and last [cudaEventDestroy] on
    the first and on the second. When no CUDA call fails, such a run has
    added exactly two events to the table, and both are destroyed when it
    returns. *)
Theorem device_routines_destroy_their_events E w w' :
  (forall h_a h_b d n desc,
      profileCopies E h_a h_b d n desc w = Ret tt w' ->
      (exists s e, event_ops (emitted w w') = routine_event_ops s e) /\
      ((forall k, env_cuda E k = cudaSuccess) ->
       own_timers_destroyed (length (events w)) (events w'))) /\
  (forall d_a d_b n,
      profileD2DCopies E d_a d_b n w = Ret tt w' ->
      (exists s e, event_ops (emitted w w') = routine_event_ops s e) /\
      ((forall k, env_cuda E k = cudaSuccess) ->
       own_timers_destroyed (length (events w)) (events w'))).
Proof.
  split.
  - intros h_a h_b d n desc Hr. split.
    + pose proof (shaped_returned _ _ _ _ _ (profileCopies_shaped E h_a h_b d n desc) Hr)
        as (s & e & time1 & time2 & failed & Hs).
      exists s, e. rewrite <- event_ops_shape, Hs. apply PC_shape_event_ops.
    + intros Hok.
      exact (profileCopies_own_events E Hok h_a h_b d n desc _ w tt w' eq_refl Hr).
  - intros d_a d_b n Hr. split.
    + pose proof (shaped_returned _ _ _ _ _ (profileD2DCopies_shaped E d_a d_b n) Hr)
        as (s & e & time1 & time2 & h_a & h_b & failed & Hs).
      exists s, e. rewrite <- event_ops_shape, Hs. apply D2D_shape_event_ops.
    + intros Hok.
      exact (profileD2DCopies_own_events E Hok d_a d_b n _ w tt w' eq_refl Hr).
Qed.

Lemma device_routines_destroy_their_events_witness :
  (let w' := world_of (profileCopies E_ok (Some 0%nat) (Some 1%nat) (Some 2%nat) 2 "Pageable"
                         (w_buffers 2)) in
   (exists s e, event_ops (emitted (w_buffers 2) w') = routine_event_ops s e) /\
   own_timers_destroyed 0 (events w')) /\
  (let w' := world_of (profileD2DCopies E_ok (Some 2%nat) (Some 3%nat) 2 (w_buffers 2)) in
   (exists s e, event_ops (emitted (w_buffers 2) w') = routine_event_ops s e) /\
   own_timers_destroyed 0 (events w')).
Proof.
  assert (Oa : host_ok (heap_attrs (w_buffers 2)) (Some 0%nat) 8).
  { exists 0%nat, HostPageable, 8. repeat split; auto. reflexivity. }
  assert (Ob : host_ok (heap_attrs (w_buffers 2)) (Some 1%nat) 8).
  { exists 1%nat, HostPageable, 8. repeat split; auto. reflexivity. }
  split.
  - destruct (hoare_world_of _ _ _ (w_buffers 2)
                (profileCopies_frame E_ok eq_refl _ (Some 0%nat) (Some 1%nat) (Some 2%nat) 2
                   "Pageable"%string ltac:(lia) Oa Ob) eq_refl) as [[] Hr].
    destruct (proj1 (device_routines_destroy_their_events E_ok _ _) _ _ _ _ _ Hr) as [H1 H2].
    split; [exact H1|]. apply H2. intros k. reflexivity.
  - destruct (hoare_world_of _ _ _ (w_buffers 2)
                (profileD2DCopies_frame E_ok eq_refl ltac:(intros k; reflexivity) _
                   (Some 2%nat) (Some 3%nat) 2 ltac:(lia)) eq_refl) as [[] Hr].
    destruct (proj2 (device_routines_destroy_their_events E_ok _ _) _ _ _ Hr) as [H1 H2].
    split; [exact H1|]. apply H2. intros k. reflexivity.
Defined.

(** Without the hypothesis the events can outlive the call: in a release
    build in which the two calls of [cudaEventDestroy] fail, [profileCopies]
    returns, having made the same calls, and leaves both events as they were
    after the last synchronisation. *)
Example profileCopies_failed_destroy_leaves_events :
  let w := w_buffers 2 in
  let w' := world_of (profileCopies E_late_failure (Some 0%nat) (Some 1%nat) (Some 2%nat) 2
                        "Pageable" w) in
  profileCopies E_late_failure (Some 0%nat) (Some 1%nat) (Some 2%nat) 2 "Pageable" w
  = Ret tt w' /\
  event_ops (emitted w w') = routine_event_ops (Some 0%nat) (Some 1%nat) /\
  events w' = [EvCompleted; EvCompleted].
Proof.
  cbv zeta.
  assert (Oa : host_ok (heap_attrs (w_buffers 2)) (Some 0%nat) 8).
  { exists 0%nat, HostPageable, 8. repeat split; auto. reflexivity. }
  assert (Ob : host_ok (heap_attrs (w_buffers 2)) (Some 1%nat) 8).
  { exists 1%nat, HostPageable, 8. repeat split; auto. reflexivity. }
  destruct (hoare_world_of _ _ _ (w_buffers 2)
              (profileCopies_frame E_late_failure eq_refl _ (Some 0%nat) (Some 1%nat)
                 (Some 2%nat) 2 "Pageable"%string ltac:(lia) Oa Ob) eq_refl) as [[] Hr].
  split; [exact Hr|]. split; vm_compute; reflexivity.
Qed.

Lemma H2H_shape_memory_calls E h_a h_b n desc t0 t1 t2 t3 :
  List.filter is_memory_call (H2H_shape E h_a h_b n desc t0 t1 t2 t3) = [].
Proof. reflexivity. Qed.

Lemma PC_shape_memory_calls h_a h_b d n desc s e time1 time2 failed :
  List.filter is_memory_call (PC_shape h_a h_b d n desc s e time1 time2 failed) = [].
Proof. destruct failed; reflexivity. Qed.

(** X5. [profileH2HCopies] and [profileCopies] work on the buffers they
    are given: however a run ends, it has called none of [malloc],
    [cudaMallocHost], [cudaMalloc], [free], [cudaFreeHost] and [cudaFree]. *)
Theorem copies_between_given_buffers_only E w :
  (forall h_a h_b n desc,
      List.filter is_memory_call
        (emitted w (world_of (profileH2HCopies E h_a h_b n desc w))) = []) /\
  (forall h_a h_b d n desc,
      List.filter is_memory_call
        (emitted w (world_of (profileCopies E h_a h_b d n desc w))) = []).
Proof.
  split.
  - intros h_a h_b n desc.
    destruct (shaped_always _ _ w (profileH2HCopies_shaped E h_a h_b n desc))
      as ([] & t & t0 & t1 & t2 & t3 & Hs).
    pose proof (H2H_shape_memory_calls E h_a h_b n desc t0 t1 t2 t3) as Hf.
    rewrite <- Hs, List.filter_app in Hf. apply app_eq_nil in Hf as [Hf _].
    now apply memory_calls_shape_nil.
  - intros h_a h_b d n desc.
    destruct (shaped_always _ _ w (profileCopies_shaped E h_a h_b d n desc))
      as ([] & t & s & e & time1 & time2 & failed & Hs).
    pose proof (PC_shape_memory_calls h_a h_b d n desc s e time1 time2 failed) as Hf.
    rewrite <- Hs, List.filter_app in Hf. apply app_eq_nil in Hf as [Hf _].
    now apply memory_calls_shape_nil.
Qed.

(** ** checkCuda *)

(** X6. [checkCuda] passes its argument through: when it returns, it
    returns the status it was given. It stops the run exactly when DEBUG (or
    _DEBUG) is defined, [assert] is live and the status is a failure; it
    prints on stderr exactly when DEBUG is defined and the status is a
    failure; it never touches the heap, the events or the wire. *)
Theorem checkCuda_passes_status_through E r w :
  (forall a w', checkCuda E r w = Ret a w' -> a = r) /\
  ((exists w', checkCuda E r w = Abort w') <->
   env_debug E = true /\ env_ndebug E = false /\ is_success r = false) /\
  emitted w (world_of (checkCuda E r w))
  = (if env_debug E && negb (is_success r)
     then [a_fprintf_stderr "CUDA Runtime Error: %s\n" r] else []) /\
  heap (world_of (checkCuda E r w)) = heap w /\
  events (world_of (checkCuda E r w)) = events w /\
  wire (world_of (checkCuda E r w)) = wire w.
Proof.
  assert (He : forall a, emitted w (emit a w) = [a]).
  { intros a. now apply emitted_app. }
  assert (Hn : emitted w w = []).
  { apply emitted_app. now rewrite app_nil_r. }
  unfold checkCuda.
  destruct (env_debug E), (is_success r), (env_ndebug E); simpl.
  all: split; [intros a w' Hx; congruence|].
  all: split;
    [split;
     [intros [w' Hx]; first [discriminate Hx | repeat split; reflexivity]
     |intros (H1 & H2 & H3); first [congruence | eexists; reflexivity]]|].
  all: repeat split; first [exact (He _) | exact Hn].
Qed.

Lemma checkCuda_passes_status_through_witness :
  checkCuda E_ok cudaErrorUnknown initial_world = Ret cudaErrorUnknown initial_world /\
  cudaErrorUnknown = cudaErrorUnknown.
Proof.
  split; [reflexivity|].
  exact (proj1 (checkCuda_passes_status_through E_ok cudaErrorUnknown initial_world)
           cudaErrorUnknown initial_world eq_refl).
Defined.

(** ** The comparison loop *)

Lemma block_at_host_block w p blk need need' :
  host_block w p blk need -> need' <= need ->
  block_at w is_host (Some p) need' = Some (p, blk).
Proof.
  intros (Hp & Hl & Hh & Hb) Hn. unfold block_at. rewrite Hp, Hl, Hh. simpl.
  destruct (Z.leb_spec need' (blk_bytes blk)); [reflexivity|lia].
Qed.

Lemma load_host_block w p blk need i :
  host_block w p blk need -> 0 <= i -> sizeof_float * (i + 1) <= need ->
  load (Some p) i w = Ret (blk_data blk i) w.
Proof.
  intros Hp Hi Hn. unfold load. rewrite (block_at_host_block w p blk need _ Hp Hn).
  destruct (Z.leb_spec 0 i); [reflexivity|lia].
Qed.

Lemma verify_loop_equal remaining a b report w A B :
  forall i,
    host_block w a A (sizeof_float * (i + Z.of_nat remaining)) ->
    host_block w b B (sizeof_float * (i + Z.of_nat remaining)) ->
    0 <= i ->
    (forall j, i <= j < i + Z.of_nat remaining ->
               Float.ne (blk_data A j) (blk_data B j) = false) ->
    verify_loop remaining i (Some a) (Some b) report w = Ret tt w.
Proof.
  induction remaining as [|k IH]; intros i Ha Hb Hi Heq; [reflexivity|].
  change (verify_loop (S k) i (Some a) (Some b) report)
    with (let* x := load (Some a) i in
          let* y := load (Some b) i in
          if Float.ne x y then report else verify_loop k (i + 1) (Some a) (Some b) report).
  unfold bind.
  rewrite (load_host_block w a A _ i Ha Hi) by (unfold sizeof_float; lia).
  rewrite (load_host_block w b B _ i Hb Hi) by (unfold sizeof_float; lia).
  rewrite Heq by lia.
  replace (i + Z.of_nat (S k)) with (i + 1 + Z.of_nat k) in * by lia.
  apply IH; auto; try lia. intros j Hj. apply Heq. lia.
Qed.

Lemma verify_loop_differ remaining a b report w A B :
  forall i j,
    host_block w a A (sizeof_float * (i + Z.of_nat remaining)) ->
    host_block w b B (sizeof_float * (i + Z.of_nat remaining)) ->
    0 <= i -> i <= j < i + Z.of_nat remaining ->
    Float.ne (blk_data A j) (blk_data B j) = true ->
    verify_loop remaining i (Some a) (Some b) report w = report w.
Proof.
  induction remaining as [|k IH]; intros i j Ha Hb Hi Hj Hne; [lia|].
  change (verify_loop (S k) i (Some a) (Some b) report)
    with (let* x := load (Some a) i in
          let* y := load (Some b) i in
          if Float.ne x y then report else verify_loop k (i + 1) (Some a) (Some b) report).
  unfold bind.
  rewrite (load_host_block w a A _ i Ha Hi) by (unfold sizeof_float; lia).
  rewrite (load_host_block w b B _ i Hb Hi) by (unfold sizeof_float; lia).
  destruct (Float.ne (blk_data A i) (blk_data B i)) eqn:Hi'; [reflexivity|].
  assert (j <> i) by (intros ->; congruence).
  replace (i + Z.of_nat (S k)) with (i + 1 + Z.of_nat k) in * by lia.
  apply (IH (i + 1) j); auto; lia.
Qed.

(** X7. The comparison loop of [profileCopies] and [profileD2DCopies], on
    two live host buffers of [n] floats: when no element differs it changes
    nothing and prints nothing; when some element differs it does what its
    report does, once, at the first difference, and compares no further.
    Elements are compared with [!=] on [float]: a NaN differs from itself. *)
Theorem verify_loop_reports_a_difference_once n a b report w A B :
  host_block w a A (sizeof_float * Z.of_nat n) ->
  host_block w b B (sizeof_float * Z.of_nat n) ->
  ((forall j, 0 <= j < Z.of_nat n -> Float.ne (blk_data A j) (blk_data B j) = false) ->
   verify_loop n 0 (Some a) (Some b) report w = Ret tt w) /\
  (forall j, 0 <= j < Z.of_nat n -> Float.ne (blk_data A j) (blk_data B j) = true ->
   verify_loop n 0 (Some a) (Some b) report w = report w) /\
  (forall j, 0 <= j < Z.of_nat n -> blk_data A j = S754_nan ->
   verify_loop n 0 (Some a) (Some a) report w = report w).
Proof.
  intros Ha Hb. split; [|split].
  - intros Heq. apply (verify_loop_equal n a b report w A B 0); auto; lia.
  - intros j Hj Hne. apply (verify_loop_differ n a b report w A B 0 j); auto; lia.
  - intros j Hj Hnan. apply (verify_loop_differ n a a report w A A 0 j); auto; try lia.
    rewrite Hnan. reflexivity.
Qed.

Lemma verify_loop_reports_a_difference_once_witness :
  verify_loop 2 0 (Some 1%nat) (Some 1%nat) (printf "*** failed ***" []) (w_buffers 2)
  = Ret tt (w_buffers 2) /\
  verify_loop 2 0 (Some 0%nat) (Some 1%nat) (printf "*** failed ***" []) (w_buffers 2)
  = printf "*** failed ***" [] (w_buffers 2).
Proof.
  assert (Ha : host_block (w_buffers 2) 0
                 (mkBlock HostPageable (sizeof_float * 2) true Float.b32_of_Z)
                 (sizeof_float * Z.of_nat 2)).
  { repeat split; reflexivity. }
  assert (Hb : host_block (w_buffers 2) 1
                 (mkBlock HostPageable (sizeof_float * 2) true (fun _ => Float.zero))
                 (sizeof_float * Z.of_nat 2)).
  { repeat split; reflexivity. }
  split.
  - apply (proj1 (verify_loop_reports_a_difference_once 2 1 1 _ (w_buffers 2) _ _ Hb Hb)).
    intros j Hj. reflexivity.
  - apply (proj1 (proj2 (verify_loop_reports_a_difference_once 2 0 1 _ (w_buffers 2) _ _ Ha Hb))
             1); [lia|reflexivity].
Defined.

(** ** The initialisation loop *)

Lemma peek_set_block w a blk x j :
  (a < length (heap w))%nat ->
  peek (set_block a blk w) x j = if decide (x = a) then Some (blk_data blk j) else peek w x j.
Proof.
  intros Ha. unfold peek, set_block. simpl.
  destruct (decide (x = a)) as [->|Hne].
  - now rewrite list_lookup_insert_eq.
  - now rewrite list_lookup_insert_ne by congruence.
Qed.

Lemma init_loop_from k a :
  forall i w A,
    host_block w a A (sizeof_float * (i + Z.of_nat k)) -> 0 <= i ->
    exists w',
      init_loop k i (Some a) w = Ret tt w' /\
      log w' = log w /\ wire w' = wire w /\ events w' = events w /\
      heap_attrs w' = heap_attrs w /\
      forall x j, peek w' x j =
        if decide (x = a /\ i <= j < i + Z.of_nat k)
        then Some (Float.b32_of_Z j) else peek w x j.
Proof.
  induction k as [|k IH]; intros i w A Ha Hi.
  - exists w. repeat split; auto. intros x j.
    destruct (decide (x = a /\ i <= j < i + Z.of_nat 0)) as [[_ Hj]|_]; [lia|reflexivity].
  - change (init_loop (S k) i (Some a))
      with (store (Some a) i (Float.b32_of_Z i) >> init_loop k (i + 1) (Some a)).
    unfold bind at 1. unfold store.
    rewrite (block_at_host_block w a A _ (sizeof_float * (i + 1)) Ha)
      by (unfold sizeof_float; lia).
    destruct (Z.leb_spec 0 i); [|lia].
    set (A1 := with_data A (fun j => if j =? i then Float.b32_of_Z i else blk_data A j)).
    assert (Hlt : (a < length (heap w))%nat).
    { destruct Ha as (Hp & _). now apply lookup_lt_Some in Hp. }
    assert (Ha1 : host_block (set_block a A1 w) a A1 (sizeof_float * (i + 1 + Z.of_nat k))).
    { destruct Ha as (Hp & Hl & Hh & Hb). repeat split; auto.
      - simpl. now apply list_lookup_insert_eq.
      - simpl. lia. }
    destruct (IH (i + 1) (set_block a A1 w) A1 Ha1 ltac:(lia))
      as (w' & Hr & Hlog & Hwire & Hev & Hat & Hpk).
    exists w'. split; [exact Hr|]. repeat split; auto.
    + rewrite Hat. apply heap_attrs_set_data. now destruct Ha.
    + intros x j. rewrite Hpk, peek_set_block by exact Hlt.
      destruct (decide (x = a /\ i + 1 <= j < i + 1 + Z.of_nat k)) as [[-> Hj]|Hn1].
      * destruct (decide (a = a /\ i <= j < i + Z.of_nat (S k))) as [_|Hn]; [reflexivity|].
        exfalso. apply Hn. split; [reflexivity|lia].
      * destruct (decide (x = a)) as [->|Hxa].
        -- destruct (decide (a = a /\ i <= j < i + Z.of_nat (S k))) as [[_ Hj]|Hn].
           ++ assert (j = i) by (destruct (Z.eq_dec j i); [assumption|];
                                 exfalso; apply Hn1; split; [reflexivity|lia]).
              subst j. simpl. now rewrite Z.eqb_refl.
           ++ simpl. destruct (Z.eqb_spec j i) as [->|_].
              ** exfalso. apply Hn. split; [reflexivity|lia].
              ** unfold peek. destruct Ha as (Hp & _). now rewrite Hp.
        -- destruct (decide (x = a /\ i <= j < i + Z.of_nat (S k))) as [[Hx _]|_];
             [contradiction|reflexivity].
Qed.

(** X8. The initialisation loop of [memBenchmark], on a live host buffer of
    at least [n] floats: it returns, the buffer holds [(float)i] at every
    index [i] below [n], and nothing else has changed: the elements from [n]
    on, the other blocks, the sizes, the events, the log and the wire. *)
Theorem init_loop_writes_the_index n a w A :
  host_block w a A (sizeof_float * Z.of_nat n) ->
  exists w',
    init_loop n 0 (Some a) w = Ret tt w' /\
    log w' = log w /\ wire w' = wire w /\ events w' = events w /\
    heap_attrs w' = heap_attrs w /\
    forall x j, peek w' x j =
      if decide (x = a /\ 0 <= j < Z.of_nat n)
      then Some (Float.b32_of_Z j) else peek w x j.
Proof.
  intros Ha. destruct (init_loop_from n a 0 w A Ha ltac:(lia)) as (w' & Hr & H1 & H2 & H3 & H4 & H5).
  exists w'. repeat split; auto.
Qed.

Lemma init_loop_writes_the_index_witness :
  exists w',
    init_loop 2 0 (Some 1%nat) (w_buffers 2) = Ret tt w' /\
    log w' = log (w_buffers 2) /\ wire w' = wire (w_buffers 2) /\
    events w' = events (w_buffers 2) /\
    heap_attrs w' = heap_attrs (w_buffers 2) /\
    forall x j, peek w' x j =
      if decide (x = 1%nat /\ 0 <= j < Z.of_nat 2)
      then Some (Float.b32_of_Z j) else peek (w_buffers 2) x j.
Proof.
  apply (init_loop_writes_the_index 2 1 (w_buffers 2)
           (mkBlock HostPageable (sizeof_float * 2) true (fun _ => Float.zero))).
  repeat split; reflexivity.
Defined.

(** ** The timer of the host-to-host routine *)

Lemma clock_or_figure_shape l :
  List.filter is_clock_or_figure (shape l) = List.filter is_clock_or_figure l.
Proof.
  apply filter_shape. intros a. destruct a; simpl; auto; split; auto; discriminate.
Qed.

Lemma H2H_shape_clock E h_a h_b n desc t0 t1 t2 t3 :
  List.filter is_clock_or_figure (H2H_shape E h_a h_b n desc t0 t1 t2 t3)
  = [a_clock_now t0; a_clock_now t1; a_clock_now t2; a_clock_now t3;
     a_printf "  Host to Host bandwidth (GB/s): %.2f\n"
       [ArgDouble (Float.b64_of_b32
          (h2h_reported (u32 (n * sizeof_float))
             (Float.b32_of_b64 (elapsed_seconds E t0 t1))
             (Float.b32_of_b64 (elapsed_seconds E t2 t3))))]].
Proof. reflexivity. Qed.

(** X9. The [Timer] in [profileH2HCopies]: a run that returns has read
    the clock four times. The time of the first phase is the second reading
    minus the first, that of the second phase the fourth minus the third,
    each in seconds and narrowed to [float]: the reset between the phases is
    a reading of its own. The one figure printed is computed from these two
    times. *)
Theorem h2h_times_are_clock_differences E h_a h_b n desc w w' :
  profileH2HCopies E h_a h_b n desc w = Ret tt w' ->
  exists t0 t1 t2 t3,
    List.filter is_clock_or_figure (emitted w w')
    = [a_clock_now t0; a_clock_now t1; a_clock_now t2; a_clock_now t3;
       a_printf "  Host to Host bandwidth (GB/s): %.2f\n"
         [ArgDouble (Float.b64_of_b32
            (h2h_reported (u32 (n * sizeof_float))
               (Float.b32_of_b64
                  (SFdiv 53 1024 (Float.b64_of_Z (t1 - t0))
                     (Float.b64_of_Z (env_ticks_per_second E))))
               (Float.b32_of_b64
                  (SFdiv 53 1024 (Float.b64_of_Z (t3 - t2))
                     (Float.b64_of_Z (env_ticks_per_second E))))))]].
Proof.
  intros Hr.
  pose proof (shaped_returned _ _ _ _ _ (profileH2HCopies_shaped E h_a h_b n desc) Hr)
    as (t0 & t1 & t2 & t3 & Hs).
  exists t0, t1, t2, t3. rewrite <- clock_or_figure_shape, Hs. apply H2H_shape_clock.
Qed.

Lemma h2h_times_are_clock_differences_witness :
  let w' := world_of (profileH2HCopies E_ok (Some 0%nat) (Some 1%nat) 2 "Pageable"
                        (w_buffers 2)) in
  exists t0 t1 t2 t3,
    List.filter is_clock_or_figure (emitted (w_buffers 2) w')
    = [a_clock_now t0; a_clock_now t1; a_clock_now t2; a_clock_now t3;
       a_printf "  Host to Host bandwidth (GB/s): %.2f\n"
         [ArgDouble (Float.b64_of_b32
            (h2h_reported (u32 (2 * sizeof_float))
               (Float.b32_of_b64
                  (SFdiv 53 1024 (Float.b64_of_Z (t1 - t0))
                     (Float.b64_of_Z (env_ticks_per_second E_ok))))
               (Float.b32_of_b64
                  (SFdiv 53 1024 (Float.b64_of_Z (t3 - t2))
                     (Float.b64_of_Z (env_ticks_per_second E_ok))))))]].
Proof.
  assert (Oa : host_ok (heap_attrs (w_buffers 2)) (Some 0%nat) 8).
  { exists 0%nat, HostPageable, 8. repeat split; auto. reflexivity. }
  assert (Ob : host_ok (heap_attrs (w_buffers 2)) (Some 1%nat) 8).
  { exists 1%nat, HostPageable, 8. repeat split; auto. reflexivity. }
  destruct (hoare_world_of _ _ _ (w_buffers 2)
              (profileH2HCopies_frame E_ok _ (Some 0%nat) (Some 1%nat) 2 "Pageable"%string
                 Oa Ob ltac:(discriminate)) eq_refl) as [[] Hr].
  exact (h2h_times_are_clock_differences E_ok _ _ _ _ _ _ Hr).
Defined.

(** ** What the device routines leave in the buffers *)

Lemma holding_start w b blk n :
  heap w !! b = Some blk ->
  holding (blk_data blk) n (heap_attrs w) [b] (wire w) 0 w.
Proof.
  intros Hb. split; [reflexivity|]. split.
  - constructor; [|constructor]. exists blk. auto.
  - exists []. rewrite app_nil_r. auto.
Qed.

Lemma holding_wire_block f n H Zs W0 m w0 w b blk :
  heap w0 !! b = Some blk -> f = blk_data blk ->
  holding f n H Zs W0 m w ->
  heap_attrs w = H /\
  exists rest, wire w = W0 ++ rest /\ length rest = m /\ Forall (carries_block w0 b n) rest.
Proof.
  intros Hb -> (Ha & _ & rest & Hw & Hl & Hc). split; [exact Ha|].
  exists rest. split; [exact Hw|]. split; [exact Hl|].
  eapply List.Forall_impl; [|exact Hc]. intros t [Ht Hd]. split; [exact Ht|].
  intros i Hi. unfold peek. rewrite Hb, Hd by exact Hi. reflexivity.
Qed.

(** X10. [profileCopies] when no CUDA call fails, for fewer than 2^30
    elements, two live host buffers and a live device buffer of that many
    floats: it returns, the destination [h_b] and the device buffer hold
    what the source [h_a] held and still holds, no buffer has been
    allocated or released, and each of its 34 transfers carried the floats
    of [h_a]. *)
Theorem profileCopies_round_trip E a b d n desc w spa sza spb szb szd :
  (forall k, env_cuda E k = cudaSuccess) ->
  0 <= n < 2 ^ 30 ->
  heap_attrs w !! a = Some (spa, sza, true) -> is_host spa = true ->
  sizeof_float * n <= sza ->
  heap_attrs w !! b = Some (spb, szb, true) -> is_host spb = true ->
  sizeof_float * n <= szb ->
  heap_attrs w !! d = Some (DeviceMem, szd, true) -> sizeof_float * n <= szd ->
  exists w',
    profileCopies E (Some a) (Some b) (Some d) n desc w = Ret tt w' /\
    heap_attrs w' = heap_attrs w /\
    (forall i, 0 <= i < n ->
       peek w a i <> None /\ peek w' a i = peek w a i /\
       peek w' b i = peek w a i /\ peek w' d i = peek w a i) /\
    exists rest,
      wire w' = wire w ++ rest /\ length rest = 34%nat /\ Forall (carries_block w a n) rest.
Proof.
  intros Hcuda Hn Ha Hha Hsa Hb Hhb Hsb Hd Hsd.
  destruct (peek_attrs w a spa sza true 0 Ha) as (blk & La & _).
  destruct (hoare_returns _ _ _ w
              (profileCopies_holding E Hcuda (blk_data blk) n Hn (heap_attrs w) a b d
                 spa spb sza szb szd Ha Hb Hd Hha Hhb Hsa Hsb Hsd desc [a] (wire w) 0%nat
                 (or_introl eq_refl))
              (holding_start w a blk n La))
    as ([] & w' & Hr & Hpost).
  exists w'. split; [exact Hr|].
  destruct (holding_wire_block _ _ _ _ _ _ w w' a blk La eq_refl Hpost) as [Hat Hw].
  split; [exact Hat|]. split; [|exact Hw].
  intros i Hi.
  assert (Pa : peek w a i = Some (blk_data blk i)) by (unfold peek; now rewrite La).
  rewrite Pa. split; [discriminate|].
  repeat split; eapply holding_peek; eauto; simpl; auto.
Qed.

Lemma profileCopies_round_trip_witness :
  exists w',
    profileCopies E_ok (Some 0%nat) (Some 1%nat) (Some 2%nat) 2 "Pageable" (w_buffers 2)
    = Ret tt w' /\
    heap_attrs w' = heap_attrs (w_buffers 2) /\
    (forall i, 0 <= i < 2 ->
       peek (w_buffers 2) 0 i <> None /\ peek w' 0 i = peek (w_buffers 2) 0 i /\
       peek w' 1 i = peek (w_buffers 2) 0 i /\ peek w' 2 i = peek (w_buffers 2) 0 i) /\
    exists rest,
      wire w' = wire (w_buffers 2) ++ rest /\ length rest = 34%nat /\
      Forall (carries_block (w_buffers 2) 0 2) rest.
Proof.
  apply (profileCopies_round_trip E_ok 0 1 2 2 "Pageable"%string (w_buffers 2)
           HostPageable 8 HostPageable 8 8);
    try reflexivity; try lia; try discriminate.
Defined.

(** X11. [profileD2DCopies] when nothing fails, for fewer than 2^30
    elements and two live device buffers of that many floats: it returns,
    [d_b] and the two pinned buffers it has allocated hold what [d_a] held
    and still holds, the heap has grown by exactly these two buffers, and
    each of its 234 transfers carried the floats of [d_a]. *)
Theorem profileD2DCopies_contents E da db n w sza szb :
  fault_free E ->
  0 <= n < 2 ^ 30 ->
  heap_attrs w !! da = Some (DeviceMem, sza, true) -> sizeof_float * n <= sza ->
  heap_attrs w !! db = Some (DeviceMem, szb, true) -> sizeof_float * n <= szb ->
  exists w',
    profileD2DCopies E (Some da) (Some db) n w = Ret tt w' /\
    heap_attrs w'
    = heap_attrs w ++ [(HostPinned, sizeof_float * n, true);
                       (HostPinned, sizeof_float * n, true)] /\
    (forall i, 0 <= i < n ->
       peek w da i <> None /\ peek w' da i = peek w da i /\ peek w' db i = peek w da i /\
       peek w' (length (heap w)) i = peek w da i /\
       peek w' (S (length (heap w))) i = peek w da i) /\
    exists rest,
      wire w' = wire w ++ rest /\ length rest = 234%nat /\ Forall (carries_block w da n) rest.
Proof.
  intros [Hall Hcuda] Hn Ha Hsa Hb Hsb.
  destruct (peek_attrs w da DeviceMem sza true 0 Ha) as (blk & La & _).
  destruct (hoare_returns _ _ _ w
              (profileD2DCopies_holding E Hcuda (blk_data blk) n Hn Hall (heap_attrs w) da db
                 sza szb Ha Hb Hsa Hsb [da] (wire w) 0%nat (or_introl eq_refl))
              (holding_start w da blk n La))
    as ([] & w' & Hr & Hpost).
  exists w'. split; [exact Hr|].
  destruct (holding_wire_block _ _ _ _ _ _ w w' da blk La eq_refl Hpost) as [Hat Hw].
  split; [exact Hat|]. split; [|exact Hw].
  intros i Hi.
  assert (Pa : peek w da i = Some (blk_data blk i)) by (unfold peek; now rewrite La).
  rewrite Pa. split; [discriminate|].
  rewrite <- (heap_attrs_length w).
  repeat split; eapply holding_peek; eauto; simpl; auto.
Qed.

Lemma profileD2DCopies_contents_witness :
  exists w',
    profileD2DCopies E_ok (Some 2%nat) (Some 3%nat) 2 (w_buffers 2) = Ret tt w' /\
    heap_attrs w'
    = heap_attrs (w_buffers 2) ++ [(HostPinned, sizeof_float * 2, true);
                                   (HostPinned, sizeof_float * 2, true)] /\
    (forall i, 0 <= i < 2 ->
       peek (w_buffers 2) 2 i <> None /\ peek w' 2 i = peek (w_buffers 2) 2 i /\
       peek w' 3 i = peek (w_buffers 2) 2 i /\
       peek w' (length (heap (w_buffers 2))) i = peek (w_buffers 2) 2 i /\
       peek w' (S (length (heap (w_buffers 2)))) i = peek (w_buffers 2) 2 i) /\
    exists rest,
      wire w' = wire (w_buffers 2) ++ rest /\ length rest = 234%nat /\
      Forall (carries_block (w_buffers 2) 2 2) rest.
Proof.
  apply (profileD2DCopies_contents E_ok 2 3 2 (w_buffers 2) 8 8);
    try reflexivity; try lia; try discriminate.
  split; intros k; reflexivity.
Defined.

(** ** Failures that do not stop a routine *)

(** X12. In a build in which [checkCuda] does not assert, [profileCopies]
    on two live host buffers of [n] floats returns whatever its device
    pointer is and whatever the CUDA calls answer, and leaves every
    allocation as it was; [profileH2HCopies], which makes no CUDA call,
    does so in every build, on two distinct live host buffers of the byte
    count it computes. *)
Theorem host_side_routines_return E w :
  (forall h_a h_b n desc,
      host_ok (heap_attrs w) h_a (u32 (n * sizeof_float)) ->
      host_ok (heap_attrs w) h_b (u32 (n * sizeof_float)) ->
      h_a <> h_b ->
      exists w', profileH2HCopies E h_a h_b n desc w = Ret tt w' /\
                 heap_attrs w' = heap_attrs w) /\
  (forall h_a h_b d n desc,
      no_abort E = true -> 0 <= n ->
      host_ok (heap_attrs w) h_a (sizeof_float * n) ->
      host_ok (heap_attrs w) h_b (sizeof_float * n) ->
      exists w', profileCopies E h_a h_b d n desc w = Ret tt w' /\
                 heap_attrs w' = heap_attrs w).
Proof.
  split.
  - intros h_a h_b n desc Ha Hb Hne.
    destruct (hoare_returns _ _ _ w
                (profileH2HCopies_frame E (heap_attrs w) h_a h_b n desc Ha Hb Hne) eq_refl)
      as ([] & w' & Hr & Hw').
    exists w'. auto.
  - intros h_a h_b d n desc Hrel Hn Ha Hb.
    destruct (hoare_returns _ _ _ w
                (profileCopies_frame E Hrel (heap_attrs w) h_a h_b d n desc Hn Ha Hb) eq_refl)
      as ([] & w' & Hr & Hw').
    exists w'. auto.
Qed.

Lemma host_side_routines_return_witness :
  (exists w', profileH2HCopies E_cuda_down (Some 0%nat) (Some 1%nat) 2 "Pageable" (w_buffers 2)
              = Ret tt w' /\ heap_attrs w' = heap_attrs (w_buffers 2)) /\
  (exists w', profileCopies E_cuda_down (Some 0%nat) (Some 1%nat) None 2 "Pageable" (w_buffers 2)
              = Ret tt w' /\ heap_attrs w' = heap_attrs (w_buffers 2)).
Proof.
  assert (Oa : host_ok (heap_attrs (w_buffers 2)) (Some 0%nat) 8).
  { exists 0%nat, HostPageable, 8. repeat split; auto. reflexivity. }
  assert (Ob : host_ok (heap_attrs (w_buffers 2)) (Some 1%nat) 8).
  { exists 1%nat, HostPageable, 8. repeat split; auto. reflexivity. }
  split.
  - apply (proj1 (host_side_routines_return E_cuda_down (w_buffers 2))); auto; discriminate.
  - apply (proj2 (host_side_routines_return E_cuda_down (w_buffers 2))); auto; lia.
Defined.

(** ** The verdict of the comparison *)

(** X13. The comparison of [profileCopies] is exact, in every build and
    whatever the CUDA calls answer: a run that returns has added no failure
    line and every element of [h_a] below [n] then equals its element of
    [h_b], or it has added the failure line, once, and some element
    differs. *)
Theorem profileCopies_failure_line_iff_buffers_differ E a b d n desc w w' :
  profileCopies E (Some a) (Some b) d n desc w = Ret tt w' ->
  verdict (failure_lines w) (a_printf "*** %s transfers failed ***" [ArgStr desc]) a b n w'.
Proof. intros Hr. exact (profileCopies_ends E a b d n desc w tt w' Hr). Qed.

Lemma profileCopies_failure_line_iff_buffers_differ_witness :
  let w := w_buffers 2 in
  let w' := world_of (profileCopies E_cuda_down (Some 0%nat) (Some 1%nat) (Some 2%nat) 2
                        "Pageable" w) in
  verdict (failure_lines w) (a_printf "*** %s transfers failed ***" [ArgStr "Pageable"])
    0 1 2 w'.
Proof.
  cbv zeta.
  assert (Oa : host_ok (heap_attrs (w_buffers 2)) (Some 0%nat) 8).
  { exists 0%nat, HostPageable, 8. repeat split; auto. reflexivity. }
  assert (Ob : host_ok (heap_attrs (w_buffers 2)) (Some 1%nat) 8).
  { exists 1%nat, HostPageable, 8. repeat split; auto. reflexivity. }
  destruct (hoare_world_of _ _ _ (w_buffers 2)
              (profileCopies_frame E_cuda_down eq_refl _ (Some 0%nat) (Some 1%nat) (Some 2%nat) 2
                 "Pageable"%string ltac:(lia) Oa Ob) eq_refl) as [[] Hr].
  exact (profileCopies_failure_line_iff_buffers_differ E_cuda_down _ _ _ _ _ _ _ Hr).
Defined.

(** X14. The comparison of [profileD2DCopies] is exact in the same way, on
    the two buffers the routine allocates for it, the blocks [k] and [k + 1]
    of a heap that had [k] blocks at the call. *)
Theorem profileD2DCopies_failure_line_iff_copies_differ E d_a d_b n w w' :
  profileD2DCopies E d_a d_b n w = Ret tt w' ->
  verdict (failure_lines w) (a_printf "*** Device to device transfers failed ***" [])
    (length (heap w)) (S (length (heap w))) n w'.
Proof. intros Hr. exact (profileD2DCopies_ends E d_a d_b n w tt w' Hr). Qed.

Lemma profileD2DCopies_failure_line_iff_copies_differ_witness :
  let w := w_buffers 2 in
  let w' := world_of (profileD2DCopies E_ok (Some 2%nat) (Some 3%nat) 2 w) in
  verdict (failure_lines w) (a_printf "*** Device to device transfers failed ***" [])
    (length (heap w)) (S (length (heap w))) 2 w'.
Proof.
  cbv zeta.
  destruct (hoare_world_of _ _ _ (w_buffers 2)
              (profileD2DCopies_frame E_ok eq_refl ltac:(intros k; reflexivity) _
                 (Some 2%nat) (Some 3%nat) 2 ltac:(lia)) eq_refl) as [[] Hr].
  exact (profileD2DCopies_failure_line_iff_copies_differ E_ok _ _ _ _ _ Hr).
Defined.

(** ** The suite when nothing fails *)

(** X15. A run of the suite in which no allocation and no CUDA call
    fails returns 0 and prints no failure line: each comparison finds equal
    buffers, in every build. *)
Theorem fault_free_suite_prints_no_failure E w :
  fault_free E ->
  exists w', memBenchmark E w = Ret 0 w' /\ failure_lines w' = failure_lines w.
Proof.
  intros [Hall Hcuda]. unfold memBenchmark.
  destruct (memBenchmark_from_run E Hall Hcuda nElements w no_wrap_nElements)
    as (w' & setup & rest & Hr & _ & _ & _ & _ & HL & _).
  exists w'. auto.
Qed.

Lemma fault_free_suite_prints_no_failure_witness :
  exists w', memBenchmark E_ok initial_world = Ret 0 w' /\
             failure_lines w' = failure_lines initial_world.
Proof.
  apply (fault_free_suite_prints_no_failure E_ok initial_world).
  split; intros k; reflexivity.
Defined.

(** X16. After such a run the heap has eight blocks more, of 16777216
    bytes each, none of them live, and no device or pinned block is live:
    what the release calls of the suite leave, [d_b] and the two buffers of
    [profileD2DCopies], [cudaDeviceReset] reclaims. The pageable blocks that
    were live before the run still are. *)
Theorem fault_free_suite_leaves_nothing_live E w :
  fault_free E ->
  exists w',
    memBenchmark E w = Ret 0 w' /\
    heap_attrs w' = map reset_attrs (heap_attrs w) ++ suite_blocks 16777216 /\
    outstanding HostPageable w' = outstanding HostPageable w /\
    outstanding HostPinned w' = 0%nat /\
    outstanding DeviceMem w' = 0%nat.
Proof.
  intros [Hall Hcuda]. unfold memBenchmark.
  destruct (memBenchmark_from_run E Hall Hcuda nElements w no_wrap_nElements)
    as (w' & setup & rest & Hr & _ & _ & _ & _ & _ & HA).
  exists w'. split; [exact Hr|].
  change (sizeof_float * nElements) with 16777216 in HA. split; [exact HA|].
  rewrite !outstanding_attrs, HA, !List.filter_app, !length_app, !outstanding_reset.
  simpl. repeat split; lia.
Qed.

Lemma fault_free_suite_leaves_nothing_live_witness :
  exists w',
    memBenchmark E_ok initial_world = Ret 0 w' /\
    heap_attrs w' = map reset_attrs (heap_attrs initial_world) ++ suite_blocks 16777216 /\
    outstanding HostPageable w' = outstanding HostPageable initial_world /\
    outstanding HostPinned w' = 0%nat /\
    outstanding DeviceMem w' = 0%nat.
Proof.
  apply (fault_free_suite_leaves_nothing_live E_ok initial_world).
  split; intros k; reflexivity.
Defined.

(** ** A faithful copy of a NaN *)

Lemma ne_self x : Float.ne x x = true -> x = S754_nan.
Proof.
  unfold Float.ne, SFeqb. destruct x as [s|s| |s m e]; simpl.
  all: try (destruct s).
  all: rewrite ?Z.compare_refl, ?Pos.compare_cont_refl; simpl.
  all: try discriminate; auto.
Qed.

(** X17. [profileCopies] compares with [!=] on [float]. When no CUDA call
    fails, on buffers as in X10, the copy is exact and the failure line is
    printed exactly when the source holds a NaN below [n]. *)
Theorem profileCopies_faithful_copy_of_nan_fails E a b d n desc w spa sza spb szb szd :
  (forall k, env_cuda E k = cudaSuccess) ->
  0 <= n < 2 ^ 30 ->
  heap_attrs w !! a = Some (spa, sza, true) -> is_host spa = true ->
  sizeof_float * n <= sza ->
  heap_attrs w !! b = Some (spb, szb, true) -> is_host spb = true ->
  sizeof_float * n <= szb ->
  heap_attrs w !! d = Some (DeviceMem, szd, true) -> sizeof_float * n <= szd ->
  exists w',
    profileCopies E (Some a) (Some b) (Some d) n desc w = Ret tt w' /\
    ((forall j, 0 <= j < n -> peek w a j <> Some S754_nan) ->
     failure_lines w' = failure_lines w) /\
    (forall j, 0 <= j < n -> peek w a j = Some S754_nan ->
     failure_lines w'
     = failure_lines w ++ [a_printf "*** %s transfers failed ***" [ArgStr desc]]).
Proof.
  intros Hcuda Hn Ha Hha Hsa Hb Hhb Hsb Hd Hsd.
  destruct (peek_attrs w a spa sza true 0 Ha) as (blk & La & _).
  destruct (hoare_returns _ _ _ w
              (profileCopies_holding E Hcuda (blk_data blk) n Hn (heap_attrs w) a b d
                 spa spb sza szb szd Ha Hb Hd Hha Hhb Hsa Hsb Hsd desc [a] (wire w) 0%nat
                 (or_introl eq_refl))
              (holding_start w a blk n La))
    as ([] & w' & Hr & Hpost).
  exists w'. split; [exact Hr|].
  assert (Pa : forall j, peek w a j = Some (blk_data blk j)) by (intros; unfold peek; now rewrite La).
  assert (Pa' : forall j, 0 <= j < n -> peek w' a j = Some (blk_data blk j)).
  { intros j Hj. eapply holding_peek; eauto. simpl. auto. }
  assert (Pb' : forall j, 0 <= j < n -> peek w' b j = Some (blk_data blk j)).
  { intros j Hj. eapply holding_peek; eauto. simpl. auto. }
  destruct (profileCopies_ends E a b (Some d) n desc w tt w' Hr)
    as [[HF Hag]|[HF (j & Hj & x & y & Px & Py & Hne)]].
  - split; [intros _; exact HF|]. intros j Hj Hnan.
    destruct (Hag j Hj) as (x & y & Px & Py & Hne).
    rewrite (Pa' j Hj) in Px. rewrite (Pb' j Hj) in Py. rewrite Pa in Hnan.
    injection Px as <-. injection Py as <-. injection Hnan as Hnan.
    rewrite Hnan in Hne. discriminate.
  - rewrite (Pa' j Hj) in Px. rewrite (Pb' j Hj) in Py.
    injection Px as <-. injection Py as <-. apply ne_self in Hne.
    split; [|intros; exact HF]. intros Hno. exfalso. apply (Hno j Hj).
    now rewrite Pa, Hne.
Qed.

Lemma profileCopies_faithful_copy_of_nan_fails_witness :
  exists w',
    profileCopies E_ok (Some 0%nat) (Some 1%nat) (Some 2%nat) 2 "Pageable" (w_buffers 2)
    = Ret tt w' /\
    ((forall j, 0 <= j < 2 -> peek (w_buffers 2) 0 j <> Some S754_nan) ->
     failure_lines w' = failure_lines (w_buffers 2)) /\
    (forall j, 0 <= j < 2 -> peek (w_buffers 2) 0 j = Some S754_nan ->
     failure_lines w'
     = failure_lines (w_buffers 2)
       ++ [a_printf "*** %s transfers failed ***" [ArgStr "Pageable"]]).
Proof.
  apply (profileCopies_faithful_copy_of_nan_fails E_ok 0 1 2 2 "Pageable"%string (w_buffers 2)
           HostPageable 8 HostPageable 8 8);
    try reflexivity; try lia; try discriminate.
Defined.
